(** * Qwen adapters of graphrag: completion and embeddings

    A shallow embedding of
    [graphrag/llm/openai/qwen_completion_llm.py] and
    [graphrag/llm/openai/qwen_embeddings_llm.py], with the parts of the
    Python runtime they lean on ([str.replace], the recursive brace
    pattern handed to [findall], and the [json] module), followed by the
    properties of the adapters.

    Logging and [print] calls are an observability side channel of the
    source; they are left out of the embedding. *)

From Stdlib Require Import List NArith ZArith Lia Bool String Ascii.
From Stdlib Require DecimalFacts DecimalPos DecimalN.
Import ListNotations.
Local Open Scope N_scope.

(* ================================================================= *)
(** * Part I: definitions *)
(* ================================================================= *)

(** ** Python strings *)

Module PyStr.

(** A Python [str] is a sequence of Unicode code points. *)
Definition str : Type := list N.

(** String literals of the source, written as Rocq strings. *)
Definition lit (s : string) : str :=
  List.map N_of_ascii (list_ascii_of_string s).

Definition lbrace : N := 123.  (* '{' *)
Definition rbrace : N := 125.  (* '}' *)

(** [s.startswith(p)] *)
Fixpoint startswith (p s : str) : bool :=
  match p, s with
  | [], _ => true
  | _ :: _, [] => false
  | a :: p', b :: s' => (a =? b) && startswith p' s'
  end.

(** [p in s] *)
Fixpoint str_in (p s : str) : bool :=
  startswith p s ||
  match s with
  | [] => false
  | _ :: s' => str_in p s'
  end.

(** [c in s] for a single code point. *)
Definition char_in (c : N) (s : str) : bool := existsb (N.eqb c) s.

(** No code point of [a] occurs in [b]. *)
Definition disjoint (a b : str) : bool :=
  forallb (fun c => negb (char_in c b)) a.

(** The scan of [str.replace] for a non-empty [old]: left to right,
    each occurrence found is replaced and the scan resumes after it
    ([skip] counts the code points of the occurrence still to pass). *)
Fixpoint replace_scan (old new : str) (skip : nat) (s : str) : str :=
  match s with
  | [] => []
  | c :: s' =>
    match skip with
    | S k => replace_scan old new k s'
    | O =>
      if startswith old s
      then new ++ replace_scan old new (List.length old - 1) s'
      else c :: replace_scan old new 0 s'
    end
  end.

(** [s.replace(old, new)].  With an empty [old] Python inserts [new]
    before every code point and at the end. *)
Definition replace (s old new : str) : str :=
  match old with
  | [] => new ++ flat_map (fun c => c :: new) s
  | _ :: _ => replace_scan old new 0 s
  end.

(** String equality [a == b]. *)
Fixpoint eqb (a b : str) : bool :=
  match a, b with
  | [], [] => true
  | x :: a', y :: b' => (x =? y) && eqb a' b'
  | _, _ => false
  end.

End PyStr.
Export PyStr.

(** ** Python dicts

    A [dict] keeps its items in insertion order and [items()] iterates in
    that order, so a dict is an association list with distinct keys. *)

Module PyDict.

Definition dict (V : Type) : Type := list (str * V).

(** [d.get(key)], [None] when the key is missing. *)
Fixpoint get {V} (d : dict V) (key : str) : option V :=
  match d with
  | [] => None
  | (k, v) :: d' => if PyStr.eqb k key then Some v else get d' key
  end.

(** [d.get(key, default)] *)
Definition get_default {V} (d : dict V) (key : str) (default : V) : V :=
  match get d key with
  | Some v => v
  | None => default
  end.

(** [d[key] = v]: an existing key keeps its position. *)
Fixpoint set {V} (d : dict V) (key : str) (v : V) : dict V :=
  match d with
  | [] => [(key, v)]
  | (k, w) :: d' =>
    if PyStr.eqb k key then (k, v) :: d' else (k, w) :: set d' key v
  end.

Definition keys {V} (d : dict V) : list str := List.map fst d.

End PyDict.

(** ** Placeholder substitution *)

Module Placeholders.

(** ["{" + key + "}"] *)
Definition placeholder (key : str) : str := lit "{" ++ key ++ lit "}".

(** [replace_placeholders(input_str, variables)]: one [str.replace]
    per item of [variables], in the order of [variables.items()]. *)
Fixpoint replace_placeholders (input_str : str)
         (variables : PyDict.dict str) : str :=
  match variables with
  | [] => input_str
  | (key, value) :: rest =>
    replace_placeholders
      (replace input_str (placeholder key) value) rest
  end.

(** Every value is non-empty and has no code point in common with any
    placeholder of the mapping. *)
Definition inert_values (variables : PyDict.dict str) : bool :=
  forallb (fun kv =>
             negb (PyStr.eqb (snd kv) []) &&
             forallb (fun kv' => disjoint (snd kv) (placeholder (fst kv')))
                     variables)
          variables.

(** None of the mapping's placeholders occurs in [s]. *)
Definition no_placeholder_in (variables : PyDict.dict str) (s : str) : bool :=
  forallb (fun kv => negb (str_in (placeholder (fst kv)) s)) variables.

(** [preprocess_input(input_str)]: both calls of [str.replace] have the
    same one-character text as the old and as the new argument, the
    less-than sign and then the greater-than sign. *)
Definition preprocess_input (input_str : str) : str :=
  replace (replace input_str (lit "<") (lit "<")) (lit ">") (lit ">").

(** *** Templates

    A template is a sequence of literal pieces and of placeholders; its
    text is what [replace_placeholders] is given. *)
Inductive token : Type :=
| Lit (piece : str)
| Hole (key : str).

Definition render_token (t : token) : str :=
  match t with
  | Lit piece => piece
  | Hole key => placeholder key
  end.

Definition render (template : list token) : str :=
  List.concat (List.map render_token template).

(** [s] holds no opening brace. *)
Definition no_open (s : str) : bool := negb (char_in lbrace s).

(** [s] holds no brace. *)
Definition brace_free (s : str) : bool :=
  negb (char_in lbrace s) && negb (char_in rbrace s).

(** The braces of a template are those of its placeholders, but for
    closing braces in the literal pieces. *)
Definition token_ok (t : token) : bool :=
  match t with
  | Lit piece => no_open piece
  | Hole key => brace_free key
  end.

(** The keys of the mapping hold no brace and its values no opening
    brace. *)
Definition plain_mapping (variables : PyDict.dict str) : bool :=
  forallb (fun kv => brace_free (fst kv) && no_open (snd kv)) variables.

(** What the substitution is meant to make of a token: the placeholder
    of a key of the mapping becomes its value, every other token stays
    as it is. *)
Definition fill (variables : PyDict.dict str) (t : token) : token :=
  match t with
  | Lit piece => Lit piece
  | Hole key =>
    match PyDict.get variables key with
    | Some value => Lit value
    | None => Hole key
    end
  end.

(** What one pass makes of a token. *)
Definition fill_one (key value : str) (t : token) : token :=
  match t with
  | Lit piece => Lit piece
  | Hole k => if PyStr.eqb key k then Lit value else Hole k
  end.

(** [t] is the placeholder of [key]. *)
Definition is_hole (key : str) (t : token) : bool :=
  match t with
  | Lit _ => false
  | Hole k => PyStr.eqb key k
  end.

(** *** Texts with braces of their own

    The text [s], read behind an opening brace, spells the start of
    [key] up to another opening brace. *)
Fixpoint clash (key s : str) {struct s} : bool :=
  match s with
  | [] => false
  | c :: s' =>
    if c =? lbrace then true
    else if c =? rbrace then false
    else match key with
         | x :: key' => (x =? c) && clash key' s'
         | [] => false
         end
  end.

(** No opening brace of [s] is followed by the start of [key] and then
    by another opening brace, as in [{na{x}]. *)
Fixpoint safe_for (key s : str) : bool :=
  match s with
  | [] => true
  | c :: s' =>
    (if c =? lbrace then negb (clash key s') else true) && safe_for key s'
  end.

End Placeholders.

(** ** The brace pattern of [extract_json_strings]

    [json_pattern = re.compile(r'(\{(?:[^{}]|(?R))*\})')]: an opening
    brace, then any number of items, each a code point other than a brace
    or, recursively, a whole match of the pattern, then a closing brace. *)

Module BracePattern.

(** The language of the pattern. *)
Inductive json_pattern : str -> Prop :=
| jp_braces (body : str) :
    pattern_body body -> json_pattern (lbrace :: body ++ [rbrace])
with pattern_body : str -> Prop :=
| pb_nil : pattern_body []
| pb_char (c : N) (rest : str) :
    c <> lbrace -> c <> rbrace -> pattern_body rest ->
    pattern_body (c :: rest)
| pb_rec (m rest : str) :
    json_pattern m -> pattern_body rest -> pattern_body (m ++ rest).

Scheme json_pattern_mut := Minimality for json_pattern Sort Prop
  with pattern_body_mut := Minimality for pattern_body Sort Prop.
Combined Scheme json_pattern_mutind from json_pattern_mut, pattern_body_mut.

(** [prepend p (Some (m, r)) = Some (p ++ m, r)] *)
Definition prepend (p : str) (o : option (str * str)) : option (str * str) :=
  match o with
  | Some (m, r) => Some (p ++ m, r)
  | None => None
  end.

(** The text up to and including the brace that closes the span, read
    after its opening brace with [depth] inner braces still open, and
    the text after it; [None] when the span is never closed. *)
Fixpoint close_span (depth : nat) (s : str) : option (str * str) :=
  match s with
  | [] => None
  | c :: s' =>
    if c =? rbrace then
      match depth with
      | O => Some ([c], s')
      | S d => prepend [c] (close_span d s')
      end
    else if c =? lbrace then prepend [c] (close_span (S depth) s')
    else prepend [c] (close_span depth s')
  end.

(** The shape of the text that [close_span depth] reads: [depth + 1]
    pieces, each a body of the pattern and the brace that closes it. *)
Fixpoint closes (depth : nat) (m : str) : Prop :=
  exists body tail,
    pattern_body body /\ m = body ++ rbrace :: tail /\
    match depth with
    | O => tail = []
    | S d => closes d tail
    end.

(** The match of the pattern at the start of [s], and the text after
    it.  A match is the span of the first brace up to the brace that
    closes it, so there is at most one. *)
Definition match_at (s : str) : option (str * str) :=
  match s with
  | [] => None
  | c :: s' => if c =? lbrace then prepend [c] (close_span 0 s') else None
  end.

(** [json_pattern.findall(input_string)]: the scan tries every position
    from the left; after a match it resumes behind the match, otherwise
    one code point further.  Each step consumes a code point, so
    [fuel = len(s)] is enough. *)
Fixpoint findall_fuel (fuel : nat) (s : str) : list str :=
  match fuel with
  | O => []
  | S fuel' =>
    match s with
    | [] => []
    | _ :: s' =>
      match match_at s with
      | Some (m, rest) => m :: findall_fuel fuel' rest
      | None => findall_fuel fuel' s'
      end
    end
  end.

Definition findall (s : str) : list str := findall_fuel (List.length s) s.

(** The number of braces left open at the end of [s], a closing brace
    with nothing open being plain text. *)
Fixpoint open_depth (depth : nat) (s : str) : nat :=
  match s with
  | [] => depth
  | c :: s' =>
    if c =? rbrace then open_depth (Nat.pred depth) s'
    else if c =? lbrace then open_depth (S depth) s'
    else open_depth depth s'
  end.

(** No opening brace of [s] is left open at its end. *)
Definition closed (s : str) : bool := Nat.eqb (open_depth 0 s) 0.

End BracePattern.

(** ** Python objects

    The objects that [json.loads] builds and [json.dumps] writes, which
    are also the payloads of the remote responses: [None], booleans,
    integers, floats, strings, lists, and dicts with string keys.

    Floating point numbers are kept abstract: [py_float] stands for
    [float(text)] and [float_str] for the text that [json.dumps] writes
    for a float ([float.__repr__], or [NaN], [Infinity], [-Infinity]). *)

Class PyFloat : Type := {
  pyfloat : Type;
  py_float : str -> pyfloat;
  float_str : pyfloat -> str
}.

Section PyObj.
Context {F : PyFloat}.

Unset Elimination Schemes.
Inductive pyobj : Type :=
| PNone
| PBool (b : bool)
| PInt (z : Z)
| PFloat (f : pyfloat)
| PStr (s : str)
| PList (l : list pyobj)
| PDict (d : list (str * pyobj)).
Set Elimination Schemes.

End PyObj.

(** ** The [json] module: [loads] and [dumps] with their defaults

    [loads] follows [json.decoder] and [json.scanner] ([strict=True], no
    hooks); [dumps] follows [json.encoder] ([ensure_ascii=True],
    separators [", "] and [": "], [allow_nan=True]).  Limits of the
    interpreter (recursion depth, the length of integer literals) are
    not part of the model. *)

Module Json.

Definition dquote : N := 34.     (* double quote *)
Definition backslash : N := 92.  (* backslash *)
Definition lbracket : N := 91.   (* '[' *)
Definition rbracket : N := 93.   (* ']' *)
Definition colon : N := 58.      (* ':' *)
Definition comma : N := 44.      (* ',' *)
Definition minus : N := 45.      (* '-' *)

(** [WHITESPACE_STR = ' \t\n\r'] *)
Definition is_ws (c : N) : bool :=
  (c =? 32) || (c =? 9) || (c =? 10) || (c =? 13).

(** [WHITESPACE.match(s, idx).end()] *)
Fixpoint skip_ws (s : str) : str :=
  match s with
  | c :: s' => if is_ws c then skip_ws s' else s
  | [] => []
  end.

Definition is_digit (c : N) : bool := (48 <=? c) && (c <=? 57).

(** The longest run of decimal digits at the start of [s]. *)
Fixpoint span_digits (s : str) : str * str :=
  match s with
  | c :: s' =>
    if is_digit c
    then let (ds, r) := span_digits s' in (c :: ds, r)
    else ([], s)
  | [] => ([], [])
  end.

(** *** Strings *)

(** The value of a hexadecimal digit. *)
Definition hexval (c : N) : option N :=
  if (48 <=? c) && (c <=? 57) then Some (c - 48)
  else if (97 <=? c) && (c <=? 102) then Some (c - 87)
  else if (65 <=? c) && (c <=? 70) then Some (c - 55)
  else None.

(** The four hexadecimal digits of a [\uXXXX] escape. *)
Definition hex4 (h1 h2 h3 h4 : N) : option N :=
  match hexval h1, hexval h2, hexval h3, hexval h4 with
  | Some a, Some b, Some c, Some d => Some (((a * 16 + b) * 16 + c) * 16 + d)
  | _, _, _, _ => None
  end.

Definition is_high_surrogate (c : N) : bool := (55296 <=? c) && (c <=? 56319).
Definition is_low_surrogate (c : N) : bool := (56320 <=? c) && (c <=? 57343).
Definition is_surrogate (c : N) : bool := (55296 <=? c) && (c <=? 57343).

(** [Py_UNICODE_JOIN_SURROGATES] *)
Definition join_surrogates (high low : N) : N :=
  ((high mod 1024) * 1024 + low mod 1024) + 65536.

(** [BACKSLASH]: the one-letter escapes. *)
Definition unescape (e : N) : option N :=
  if e =? 34 then Some 34          (* quote *)
  else if e =? 92 then Some 92     (* backslash *)
  else if e =? 47 then Some 47     (* \/ *)
  else if e =? 98 then Some 8      (* \b *)
  else if e =? 102 then Some 12    (* \f *)
  else if e =? 110 then Some 10    (* \n *)
  else if e =? 114 then Some 13    (* \r *)
  else if e =? 116 then Some 9     (* \t *)
  else None.

Definition push (c : N) (o : option (str * str)) : option (str * str) :=
  match o with
  | Some (t, r) => Some (c :: t, r)
  | None => None
  end.

(** [scanstring(s, end, strict=True)], read after the opening quote: the
    decoded string and the text after the closing quote.  A high
    surrogate escape directly followed by a low surrogate escape is
    joined into one code point. *)
Fixpoint scanstring (s : str) : option (str * str) :=
  match s with
  | [] => None
  | c :: r =>
    if c =? dquote then Some ([], r)
    else if c =? backslash then
      match r with
      | [] => None
      | e :: r1 =>
        if e =? 117 (* u *) then
          match r1 with
          | h1 :: h2 :: h3 :: h4 :: r2 =>
            match hex4 h1 h2 h3 h4 with
            | None => None
            | Some u =>
              if is_high_surrogate u then
                match r2 with
                | b :: r3 =>
                  match r3 with
                  | e2 :: g1 :: g2 :: g3 :: g4 :: r4 =>
                    if (b =? backslash) && (e2 =? 117) then
                      match hex4 g1 g2 g3 g4 with
                      | None => None
                      | Some u2 =>
                        if is_low_surrogate u2
                        then push (join_surrogates u u2) (scanstring r4)
                        else push u (scanstring r2)
                      end
                    else push u (scanstring r2)
                  | _ => push u (scanstring r2)
                  end
                | [] => None
                end
              else push u (scanstring r2)
            end
          | _ => None
          end
        else
          match unescape e with
          | Some c' => push c' (scanstring r1)
          | None => None
          end
      end
    else if c <? 32 then None
    else push c (scanstring r)
  end.

(** *** Numbers *)

Definition digit_char (c : N) (u : Decimal.uint) : Decimal.uint :=
  if c =? 48 then Decimal.D0 u
  else if c =? 49 then Decimal.D1 u
  else if c =? 50 then Decimal.D2 u
  else if c =? 51 then Decimal.D3 u
  else if c =? 52 then Decimal.D4 u
  else if c =? 53 then Decimal.D5 u
  else if c =? 54 then Decimal.D6 u
  else if c =? 55 then Decimal.D7 u
  else if c =? 56 then Decimal.D8 u
  else Decimal.D9 u.

Fixpoint uint_of_digits (ds : str) : Decimal.uint :=
  match ds with
  | [] => Decimal.Nil
  | c :: ds' => digit_char c (uint_of_digits ds')
  end.

Fixpoint digits_of_uint (u : Decimal.uint) : str :=
  match u with
  | Decimal.Nil => []
  | Decimal.D0 u' => 48 :: digits_of_uint u'
  | Decimal.D1 u' => 49 :: digits_of_uint u'
  | Decimal.D2 u' => 50 :: digits_of_uint u'
  | Decimal.D3 u' => 51 :: digits_of_uint u'
  | Decimal.D4 u' => 52 :: digits_of_uint u'
  | Decimal.D5 u' => 53 :: digits_of_uint u'
  | Decimal.D6 u' => 54 :: digits_of_uint u'
  | Decimal.D7 u' => 55 :: digits_of_uint u'
  | Decimal.D8 u' => 56 :: digits_of_uint u'
  | Decimal.D9 u' => 57 :: digits_of_uint u'
  end.

(** [int(text)] for the integer part of a number literal. *)
Definition py_int (text : str) : Z :=
  match text with
  | c :: ds =>
    if c =? minus then Z.opp (Z.of_N (N.of_uint (uint_of_digits ds)))
    else Z.of_N (N.of_uint (uint_of_digits text))
  | [] => 0%Z
  end.

(** [int.__repr__] *)
Definition int_repr (z : Z) : str :=
  match z with
  | Zneg p => minus :: digits_of_uint (Pos.to_uint p)
  | _ => digits_of_uint (N.to_uint (Z.to_N z))
  end.

(** [NUMBER_RE], group 1: an optional minus sign, then either a
    single 0 or a digit from 1 to 9 followed by any digits. *)
Definition match_integer (s : str) : option (str * str) :=
  let (sign, r) :=
    match s with
    | c :: r => if c =? minus then ([c], r) else ([], s)
    | [] => ([], s)
    end in
  match r with
  | d :: r' =>
    if d =? 48 then Some (sign ++ [d], r')
    else if is_digit d
         then let (ds, r2) := span_digits r' in Some (sign ++ d :: ds, r2)
         else None
  | [] => None
  end.

(** [NUMBER_RE], group 2, optional: a dot and one or more digits. *)
Definition match_frac (s : str) : option (str * str) :=
  match s with
  | c :: r =>
    if c =? 46 then
      match span_digits r with
      | ([], _) => None
      | (ds, r') => Some (c :: ds, r')
      end
    else None
  | [] => None
  end.

(** [NUMBER_RE], group 3, optional: e or E, an optional sign, and one
    or more digits. *)
Definition match_exp (s : str) : option (str * str) :=
  match s with
  | c :: r =>
    if (c =? 101) || (c =? 69) then
      let (sign, r1) :=
        match r with
        | x :: r1 => if (x =? 45) || (x =? 43) then ([x], r1) else ([], r)
        | [] => ([], r)
        end in
      match span_digits r1 with
      | ([], _) => None
      | (ds, r2) => Some (c :: sign ++ ds, r2)
      end
    else None
  | [] => None
  end.

(** The text after the prefix [p] of [s], when [s] starts with [p]. *)
Fixpoint strip_prefix (p s : str) : option str :=
  match p, s with
  | [], _ => Some s
  | _ :: _, [] => None
  | a :: p', b :: s' => if a =? b then strip_prefix p' s' else None
  end.

Section Decoder.
Context {F : PyFloat}.

(** The number at the start of [s]: an [int] when the literal has
    neither fraction nor exponent, else a [float]. *)
Definition scan_number (s : str) : option (pyobj * str) :=
  match match_integer s with
  | None => None
  | Some (integer, r1) =>
    let (frac, r2) :=
      match match_frac r1 with
      | Some (f, r2) => (Some f, r2)
      | None => (None, r1)
      end in
    let (exp, r3) :=
      match match_exp r2 with
      | Some (e, r3) => (Some e, r3)
      | None => (None, r2)
      end in
    match frac, exp with
    | None, None => Some (PInt (py_int integer), r3)
    | _, _ =>
      let text := fun o => match o with Some t => t | None => [] end in
      Some (PFloat (py_float (integer ++ text frac ++ text exp)), r3)
    end
  end.

(** The atoms of [_scan_once]: [null], [true], [false], a number, and
    the constants [NaN], [Infinity], [-Infinity], tried in that order. *)
Definition scan_atom (s : str) : option (pyobj * str) :=
  match strip_prefix (lit "null") s with
  | Some r => Some (PNone, r)
  | None =>
  match strip_prefix (lit "true") s with
  | Some r => Some (PBool true, r)
  | None =>
  match strip_prefix (lit "false") s with
  | Some r => Some (PBool false, r)
  | None =>
  match scan_number s with
  | Some res => Some res
  | None =>
  match strip_prefix (lit "NaN") s with
  | Some r => Some (PFloat (py_float (lit "nan")), r)
  | None =>
  match strip_prefix (lit "Infinity") s with
  | Some r => Some (PFloat (py_float (lit "inf")), r)
  | None =>
  match strip_prefix (lit "-Infinity") s with
  | Some r => Some (PFloat (py_float (lit "-inf")), r)
  | None => None
  end end end end end end end.

(** [_scan_once], [JSONObject] and [JSONArray].  A value nested in an
    object or an array costs two units of fuel and lies behind at least
    one consumed code point, so [2 * len(s) + 1] units are enough.

    [object_items pairs s] is the loop of [JSONObject], entered behind
    the opening quote of a key; [array_items values s] is the loop of
    [JSONArray], entered at a value. *)
Fixpoint scan_once (fuel : nat) (s : str) : option (pyobj * str) :=
  match fuel with
  | O => None
  | S fuel' =>
    match s with
    | [] => None
    | c :: r =>
      if c =? dquote then
        match scanstring r with
        | Some (t, r') => Some (PStr t, r')
        | None => None
        end
      else if c =? lbrace then
        match skip_ws r with
        | c1 :: r1 =>
          if c1 =? rbrace then Some (PDict [], r1)
          else if c1 =? dquote then object_items fuel' [] r1
          else None
        | [] => None
        end
      else if c =? lbracket then
        match skip_ws r with
        | c1 :: r1 =>
          if c1 =? rbracket then Some (PList [], r1)
          else array_items fuel' [] (c1 :: r1)
        | [] => None
        end
      else scan_atom s
    end
  end
with object_items (fuel : nat) (pairs : PyDict.dict pyobj) (s : str)
     : option (pyobj * str) :=
  match fuel with
  | O => None
  | S fuel' =>
    match scanstring s with
    | None => None
    | Some (key, r) =>
      match skip_ws r with
      | c :: r1 =>
        if c =? colon then
          match scan_once fuel' (skip_ws r1) with
          | None => None
          | Some (value, r2) =>
            let pairs' := PyDict.set pairs key value in
            match skip_ws r2 with
            | c2 :: r3 =>
              if c2 =? rbrace then Some (PDict pairs', r3)
              else if c2 =? comma then
                match skip_ws r3 with
                | c3 :: r4 =>
                  if c3 =? dquote then object_items fuel' pairs' r4
                  else None
                | [] => None
                end
              else None
            | [] => None
            end
          end
        else None
      | [] => None
      end
    end
  end
with array_items (fuel : nat) (values : list pyobj) (s : str)
     : option (pyobj * str) :=
  match fuel with
  | O => None
  | S fuel' =>
    match scan_once fuel' s with
    | None => None
    | Some (value, r) =>
      let values' := values ++ [value] in
      match skip_ws r with
      | c :: r1 =>
        if c =? rbracket then Some (PList values', r1)
        else if c =? comma then array_items fuel' values' (skip_ws r1)
        else None
      | [] => None
      end
    end
  end.

(** [json.loads(s)] on a text that stays within the limits of the
    interpreter (see [within_limits] below); [None] stands for
    [JSONDecodeError].  Beyond these limits the decoder of the library
    can leave with another exception, a [ValueError] at an integer
    literal of too many digits or a [RecursionError] at containers
    nested too deep; this is not part of the embedding, and what is
    proved of a decoded text is stated for texts within the limits. *)
Definition loads (s : str) : option pyobj :=
  if startswith [65279] s then None
  else
    match scan_once (S (2 * List.length s)) (skip_ws s) with
    | Some (obj, r) =>
      match skip_ws r with
      | [] => Some obj
      | _ :: _ => None
      end
    | None => None
    end.

End Decoder.

(** No run of decimal digits in [s] is longer than [limit]; [run] is
    the length of the run that ends where [s] starts. *)
Fixpoint digit_runs_within (limit run : nat) (s : str) : bool :=
  match s with
  | [] => true
  | c :: s' =>
    if is_digit c
    then Nat.leb (S run) limit && digit_runs_within limit (S run) s'
    else digit_runs_within limit 0 s'
  end.

(** The number of opening braces and brackets of [s], a bound of the
    depth to which the containers of [s] are nested. *)
Definition openers (s : str) : nat :=
  List.length (filter (fun c => (c =? lbrace) || (c =? lbracket)) s).

(** A text on which the decoder cannot hit a limit of the interpreter:
    no integer literal has more than [digits] digits, and no container
    is nested deeper than [nesting]. *)
Definition within_limits (digits nesting : nat) (s : str) : bool :=
  digit_runs_within digits 0 s && Nat.leb (openers s) nesting.

(** *** Encoding *)

Definition hexdigit (n : N) : N := if n <? 10 then 48 + n else 87 + n.

(** ['\\u{0:04x}'.format(n)] *)
Definition escape_u (n : N) : str :=
  [backslash; 117; hexdigit (n / 4096); hexdigit ((n / 256) mod 16);
   hexdigit ((n / 16) mod 16); hexdigit (n mod 16)].

(** The replacement of one code point by [encode_basestring_ascii]. *)
Definition encode_char (c : N) : str :=
  if c =? 34 then [backslash; 34]
  else if c =? 92 then [backslash; 92]
  else if c =? 10 then [backslash; 110]
  else if c =? 13 then [backslash; 114]
  else if c =? 9 then [backslash; 116]
  else if c =? 12 then [backslash; 102]
  else if c =? 8 then [backslash; 98]
  else if (32 <=? c) && (c <=? 126) then [c]
  else if c <? 65536 then escape_u c
  else
    let v := c - 65536 in
    escape_u (55296 + (v / 1024) mod 1024) ++ escape_u (56320 + v mod 1024).

(** [encode_basestring_ascii(s)] *)
Definition encode_basestring_ascii (s : str) : str :=
  dquote :: flat_map encode_char s ++ [dquote].

(** [sep.join(items)] *)
Fixpoint join (sep : str) (items : list str) : str :=
  match items with
  | [] => []
  | [x] => x
  | x :: rest => x ++ sep ++ join sep rest
  end.

Section Encoder.
Context {F : PyFloat}.

(** [json.dumps(obj)] *)
Fixpoint dumps (obj : pyobj) : str :=
  match obj with
  | PNone => lit "null"
  | PBool true => lit "true"
  | PBool false => lit "false"
  | PInt z => int_repr z
  | PFloat f => float_str f
  | PStr s => encode_basestring_ascii s
  | PList l => lbracket :: join (lit ", ") (List.map dumps l) ++ [rbracket]
  | PDict d =>
    lbrace ::
    join (lit ", ")
         (List.map (fun kv => encode_basestring_ascii (fst kv)
                              ++ lit ": " ++ dumps (snd kv)) d)
    ++ [rbrace]
  end.

End Encoder.

(** *** Well-formed texts and objects *)

(** The code points of a Python string lie below [0x110000]. *)
Definition is_code_point (c : N) : bool := c <? 1114112.

(** No high surrogate is directly followed by a low surrogate. *)
Fixpoint pair_free (s : str) : bool :=
  match s with
  | x :: t =>
    match t with
    | y :: _ => negb (is_high_surrogate x && is_low_surrogate y)
    | [] => true
    end && pair_free t
  | [] => true
  end.

(** A string that [encode_basestring_ascii] writes without merging two
    of its code points into one surrogate pair. *)
Definition str_ok (s : str) : bool := forallb is_code_point s && pair_free s.

(** A text of Unicode scalar values: code points that are not
    surrogates. *)
Definition text_ok (s : str) : bool :=
  forallb (fun c => is_code_point c && negb (is_surrogate c)) s.

(** What may follow a value that [dumps] has written: the end of the
    text, a comma, or a closing bracket or brace. *)
Definition terminated (rest : str) : bool :=
  match rest with
  | [] => true
  | c :: _ => (c =? comma) || (c =? rbracket) || (c =? rbrace)
  end.

(** The text [T] does not start with the escape of a low surrogate: if
    it starts with a [\uXXXX] escape, the escape is of another code
    point. *)
Definition no_low_ahead (T : str) : Prop :=
  forall g1 g2 g3 g4 r4,
    T = backslash :: 117 :: g1 :: g2 :: g3 :: g4 :: r4 ->
    exists u2, hex4 g1 g2 g3 g4 = Some u2 /\ is_low_surrogate u2 = false.

(** How [scanstring] gets the code point [x] from the start of [s],
    [s'] being the text behind what it consumed: a plain code point, a
    one-letter escape, a [\uXXXX] escape that is not joined with the
    next one, or two escapes joined into one code point. *)
Definition decoded_from (x : N) (s s' : str) : Prop :=
  (s = x :: s' /\ (x =? dquote) = false /\ (x =? backslash) = false /\
   (x <? 32) = false)
  \/ (exists e, s = backslash :: e :: s' /\ unescape e = Some x)
  \/ (exists h1 h2 h3 h4,
        s = backslash :: 117 :: h1 :: h2 :: h3 :: h4 :: s' /\
        hex4 h1 h2 h3 h4 = Some x /\
        (is_high_surrogate x = true -> no_low_ahead s'))
  \/ (exists h1 h2 h3 h4 g1 g2 g3 g4 u u2,
        s = backslash :: 117 :: h1 :: h2 :: h3 :: h4
            :: backslash :: 117 :: g1 :: g2 :: g3 :: g4 :: s' /\
        hex4 h1 h2 h3 h4 = Some u /\ hex4 g1 g2 g3 g4 = Some u2 /\
        is_high_surrogate u = true /\ is_low_surrogate u2 = true /\
        x = join_surrogates u u2).

Section WellFormed.
Context {F : PyFloat}.

(** Objects whose strings are [str_ok] and whose dicts have distinct
    keys. *)
#[warnings="-register-all"]
Inductive well_formed : pyobj -> Prop :=
| wf_none : well_formed PNone
| wf_bool (b : bool) : well_formed (PBool b)
| wf_int (z : Z) : well_formed (PInt z)
| wf_float (f : pyfloat) : well_formed (PFloat f)
| wf_str (s : str) : str_ok s = true -> well_formed (PStr s)
| wf_list (l : list pyobj) : Forall well_formed l -> well_formed (PList l)
| wf_dict (d : list (str * pyobj)) :
    NoDup (List.map fst d) ->
    Forall (fun kv => str_ok (fst kv) = true /\ well_formed (snd kv)) d ->
    well_formed (PDict d).

(** The text that [dumps] writes for [obj], followed by a terminator,
    is read back as [obj] with any fuel that covers the text. *)
Definition reads_back (obj : pyobj) : Prop :=
  forall (rest : str) (fuel : nat),
    terminated rest = true ->
    (2 * List.length (dumps obj ++ rest) < fuel)%nat ->
    scan_once fuel (dumps obj ++ rest) = Some (obj, rest).

(** The contract of the float type with the decoder: the text that
    [dumps] writes for a float, followed by a terminator, is read back
    as that float. *)
Definition float_reads_back : Prop :=
  forall (f : pyfloat) (fuel : nat) (rest : str),
    terminated rest = true ->
    scan_once (S fuel) (float_str f ++ rest) = Some (PFloat f, rest).

End WellFormed.

End Json.

(** ** Exceptions and calls to the remote service *)

Module Py.

(** The exceptions that the adapters can meet; all of them are
    subclasses of [Exception]. *)
Inductive exn : Type :=
| Exception (msg : str)
| AttributeError
| KeyError (key : str)
| IndexError
| TypeError
| ValueError.

Inductive result (A : Type) : Type :=
| Return (a : A)
| Raise (e : exn).
Arguments Return {A} a.
Arguments Raise {A} e.

(** A keyword argument: left out, passed as [None], or given. *)
Inductive kwarg (A : Type) : Type :=
| Absent
| IsNone
| Given (a : A).
Arguments Absent {A}.
Arguments IsNone {A}.
Arguments Given {A} a.

(** [kwargs.get(name, default)]; the result [None] is Python's [None]. *)
Definition kwarg_get {A} (k : kwarg A) (default : A) : option A :=
  match k with
  | Absent => Some default
  | IsNone => None
  | Given a => Some a
  end.

Section Objects.
Context {F : PyFloat}.

(** [obj[key]] for a string key. *)
Definition subscript (obj : pyobj) (key : str) : result pyobj :=
  match obj with
  | PDict d =>
    match PyDict.get d key with
    | Some v => Return v
    | None => Raise (KeyError key)
    end
  | _ => Raise TypeError
  end.

(** [obj[0]] *)
Definition subscript0 (obj : pyobj) : result pyobj :=
  match obj with
  | PList (x :: _) => Return x
  | PList [] => Raise IndexError
  | PStr (c :: _) => Return (PStr [c])
  | PStr [] => Raise IndexError
  | PDict _ => Raise (KeyError (lit "0"))
  | _ => Raise TypeError
  end.

(** The items that [for x in obj] visits. *)
Definition iterate (obj : pyobj) : result (list pyobj) :=
  match obj with
  | PList l => Return l
  | PStr s => Return (List.map (fun c => PStr [c]) s)
  | PDict d => Return (List.map (fun kv => PStr (fst kv)) d)
  | _ => Raise TypeError
  end.

End Objects.

End Py.
Export Py.

(** ** The dashscope client *)

Module Dashscope.

Section Dashscope.
Context {F : PyFloat}.

(** The keyword arguments of [dashscope.Generation.call]. *)
Record GenerationArgs : Type := {
  gen_model : str;
  gen_prompt : option str;
  gen_messages : option (list pyobj);
  gen_api_key : str;
  gen_result_format : option str
}.

(** The keyword arguments of [dashscope.TextEmbedding.call]. *)
Record EmbeddingArgs : Type := {
  emb_model : str;
  emb_input : pyobj;
  emb_api_key : str
}.

Inductive request : Type :=
| GenerationCall (args : GenerationArgs)
| TextEmbeddingCall (args : EmbeddingArgs).

(** The response object: [status_code], the [code] and [message] of a
    failure, and the [output] mapping of a success. *)
Record Response : Type := {
  status_code : N;
  code : str;
  message : str;
  output : pyobj
}.

End Dashscope.

(** [HTTPStatus.OK] *)
Definition HTTPStatus_OK : N := 200.

End Dashscope.
Export Dashscope.

(** What the adapters take from outside this repository: the float
    type of the interpreter, the remote service behind the dashscope
    client, the default model names of dashscope, the members of
    [graphrag.config.LLMType] that the completion adapter names, and
    the limits of the interpreter. *)
Class External : Type := {
  ext_float :: PyFloat;
  (** [dashscope.Generation.call(...)] *)
  Generation_call : GenerationArgs -> Response;
  (** [dashscope.TextEmbedding.call(...)] *)
  TextEmbedding_call : EmbeddingArgs -> Response;
  (** [dashscope.Generation.Models.qwen_turbo] *)
  qwen_turbo : str;
  (** [dashscope.TextEmbedding.Models.text_embedding_v1] *)
  text_embedding_v1 : str;
  (** Modelled from the spec: [LLMType] is the enumeration of operating
      modes, whose declaration is not among the sources; its members
      are strings, the "static response" default and the "chat"
      variant being two different ones. *)
  LLMType_StaticResponse : str;
  LLMType_QwenChat : str;
  LLMType_distinct : PyStr.eqb LLMType_StaticResponse LLMType_QwenChat = false;
  (** The limits of the interpreter that the [json] module can hit: a
      number of digits that [int] converts from a text without a
      [ValueError] ([sys.get_int_max_str_digits()], 4300 unless
      configured), and a depth of nested containers that the decoder
      and the encoder handle without a [RecursionError] where the
      adapter calls them. *)
  int_max_str_digits : nat;
  json_max_nesting : nat
}.

(** ** Computations that call the remote service

    A computation carries the list of the requests sent so far and ends
    with a value or with an exception. *)

Module Call.

Section Call.
Context {E : External}.

Definition M (A : Type) : Type := list request -> result A * list request.

Definition ret {A} (a : A) : M A := fun sent => (Return a, sent).

Definition raise {A} (e : exn) : M A := fun sent => (Raise e, sent).

Definition bind {A B} (m : M A) (k : A -> M B) : M B :=
  fun sent =>
    match m sent with
    | (Return a, sent') => k a sent'
    | (Raise e, sent') => (Raise e, sent')
    end.

(** A step that cannot call the service. *)
Definition lift {A} (r : result A) : M A := fun sent => (r, sent).

(** [try: m except Exception as e: handler(e)] *)
Definition try_except {A} (m : M A) (handler : exn -> M A) : M A :=
  fun sent =>
    match m sent with
    | (Return a, sent') => (Return a, sent')
    | (Raise e, sent') => handler e sent'
    end.

Definition generation_call (args : GenerationArgs) : M Response :=
  fun sent => (Return (Generation_call args), sent ++ [GenerationCall args]).

Definition text_embedding_call (args : EmbeddingArgs) : M Response :=
  fun sent =>
    (Return (TextEmbedding_call args), sent ++ [TextEmbeddingCall args]).

End Call.

End Call.

Notation "x <- m ;; k" := (Call.bind m (fun x => k))
  (at level 61, m at next level, right associativity).

(** ** [qwen_completion_llm.py] *)

Module QwenCompletionLLM.

(** The attributes that [__init__] sets. *)
Record t : Type := {
  llm_config : PyDict.dict str;
  api_key : str;
  model : str;
  llm_type : str;
  chat_mode : bool
}.

Section Types.
Context {F : PyFloat}.

(** The keyword arguments that [_execute_llm] reads. *)
Record LLMInput : Type := {
  variables : kwarg (PyDict.dict str);
  history : kwarg (list pyobj)
}.

(** [LLMOutput(output=..., json=...)] *)
Record LLMOutput : Type := {
  output : pyobj;
  json : pyobj
}.

End Types.

Section Completion.
Context {E : External}.

(** [llm_config.get(key, default)] on the argument of [__init__], which
    is [None] when the caller leaves it out. *)
Definition get_of_argument (llm_config : option (PyDict.dict str))
           (key default : str) : result str :=
  match llm_config with
  | Some d => Return (PyDict.get_default d key default)
  | None => Raise AttributeError
  end.

(** [QwenCompletionLLM.__init__(self, llm_config=None)].  The first
    three attributes read [self.llm_config], the last two read the
    argument [llm_config] itself. *)
Definition __init__ (llm_config : option (PyDict.dict str)) : result t :=
  (* self.llm_config = llm_config or {} *)
  let self_llm_config :=
    match llm_config with
    | Some d => d
    | None => []
    end in
  let self_api_key := PyDict.get_default self_llm_config (lit "api_key") [] in
  let self_model := PyDict.get_default self_llm_config (lit "model") qwen_turbo in
  match get_of_argument llm_config (lit "type") LLMType_StaticResponse with
  | Raise e => Raise e
  | Return self_llm_type =>
    match get_of_argument llm_config (lit "type") LLMType_StaticResponse with
    | Raise e => Raise e
    | Return type_ =>
      Return {| llm_config := self_llm_config;
                api_key := self_api_key;
                model := self_model;
                llm_type := self_llm_type;
                chat_mode := PyStr.eqb type_ LLMType_QwenChat |}
    end
  end.

(** The keyword arguments that [call_with_prompt] hands to
    [dashscope.Generation.call]. *)
Definition prompt_args (self : t) (query : str) : GenerationArgs :=
  {| gen_model := model self;
     gen_prompt := Some query;
     gen_messages := None;
     gen_api_key := api_key self;
     gen_result_format := None |}.

(** The keyword arguments that [call_with_messages] hands to
    [dashscope.Generation.call]. *)
Definition messages_args (self : t) (messages : list pyobj) : GenerationArgs :=
  {| gen_model := model self;
     gen_prompt := None;
     gen_messages := Some messages;
     gen_api_key := api_key self;
     gen_result_format := Some (lit "message") |}.

(** [call_with_prompt(self, query)] *)
Definition call_with_prompt (self : t) (query : str) : Call.M Response :=
  Call.generation_call (prompt_args self query).

(** [call_with_messages(self, messages)] *)
Definition call_with_messages (self : t) (messages : list pyobj)
  : Call.M Response :=
  Call.generation_call (messages_args self messages).

(** [{"role": "user", "content": formatted_input}] *)
Definition user_message (formatted_input : str) : pyobj :=
  PDict [(lit "role", PStr (lit "user"));
         (lit "content", PStr formatted_input)].

(** [f"Error {response.code}: {response.message}"] *)
Definition error_message (response : Response) : str :=
  lit "Error " ++ code response ++ lit ": " ++ message response.

(** [response.output["choices"][0]["message"]["content"]] *)
Definition first_choice_content (response : Response) : result pyobj :=
  match subscript (Dashscope.output response) (lit "choices") with
  | Raise e => Raise e
  | Return choices =>
    match subscript0 choices with
    | Raise e => Raise e
    | Return choice =>
      match subscript choice (lit "message") with
      | Raise e => Raise e
      | Return msg => subscript msg (lit "content")
      end
    end
  end.

(** [_execute_llm(self, input, **kwargs)] *)
Definition _execute_llm (self : t) (input : str) (kwargs : LLMInput)
  : Call.M pyobj :=
  (* variables = kwargs.get("variables", {});
     replace_placeholders reads variables.items() *)
  formatted_input <-
    match kwarg_get (variables kwargs) [] with
    | Some vars => Call.ret (Placeholders.replace_placeholders input vars)
    | None => Call.raise AttributeError
    end ;;
  response <-
    (if chat_mode self then
       (* history = kwargs.get("history", []); [*history, {...}] *)
       messages <-
         match kwarg_get (history kwargs) [] with
         | Some h => Call.ret (h ++ [user_message formatted_input])
         | None => Call.raise TypeError
         end ;;
       call_with_messages self messages
     else call_with_prompt self formatted_input) ;;
  if status_code response =? HTTPStatus_OK then
    if chat_mode self then Call.lift (first_choice_content response)
    else Call.lift (subscript (Dashscope.output response) (lit "text"))
  else Call.raise (Exception (error_message response)).

(** [extract_json_strings(input_string)]: every match of the brace
    pattern is handed to [json.loads]; a match that does not decode is
    dropped.  The loop catches [JSONDecodeError] only: on a match beyond
    the limits of the interpreter the call of the source can end with
    the [ValueError] or [RecursionError] of the decoder, where this
    definition follows [Json.loads]; see [candidates_within_limits]. *)
Definition extract_json_strings (input_string : str) : list pyobj :=
  flat_map (fun m => match Json.loads m with
                     | Some json_object => [json_object]
                     | None => []
                     end)
           (BracePattern.findall input_string).

(** Every match of the brace pattern in [text] is within the limits of
    the interpreter, so that [json.loads] returns or raises a
    [JSONDecodeError] on each of them. *)
Definition candidates_within_limits (text : str) : bool :=
  forallb (Json.within_limits int_max_str_digits json_max_nesting)
          (BracePattern.findall text).

(** [json.dumps(json_data)]: the encoder has a text for every object
    that [json.loads] can build, and for [None]. *)
Definition json_dumps (json_data : pyobj) : result str :=
  Return (Json.dumps json_data).

(** The part of [_invoke_json] behind the [try] block.  An exception
    that leaves [extract_json_strings] leaves [_invoke_json] too; the
    definition has the [TypeError] of a result that is not a string,
    and follows [extract_json_strings] on a text, as it is within the
    limits of the interpreter. *)
Definition parse_output (out : pyobj) : Call.M LLMOutput :=
  (* findall raises a TypeError on an object that is not a string *)
  extracted_jsons <-
    match out with
    | PStr text => Call.ret (extract_json_strings text)
    | _ => Call.raise TypeError
    end ;;
  let json_data :=
    match extracted_jsons with
    | first :: _ => first
    | [] => PNone
    end in
  output_str <-
    match json_dumps json_data with
    | Return s => Call.ret (PStr s)
    | Raise TypeError => Call.ret PNone
    | Raise ValueError => Call.ret PNone
    | Raise e => Call.raise e
    end ;;
  Call.ret {| output := output_str; json := json_data |}.

(** [_invoke_json(self, input, **kwargs)]: an exception of
    [_execute_llm] ends the call with an empty [LLMOutput]. *)
Definition _invoke_json (self : t) (input : str) (kwargs : LLMInput)
  : Call.M LLMOutput :=
  fun sent =>
    match _execute_llm self input kwargs sent with
    | (Raise e, sent') => (Return {| output := PNone; json := PNone |}, sent')
    | (Return out, sent') => parse_output out sent'
    end.

End Completion.

End QwenCompletionLLM.

(** ** [qwen_embeddings_llm.py] *)

Module QwenEmbeddingsLLM.

Record t : Type := {
  llm_config : PyDict.dict str;
  api_key : str;
  model : str
}.

Section Embeddings.
Context {E : External}.

(** [QwenEmbeddingsLLM.__init__(self, llm_config=None)] *)
Definition __init__ (llm_config : option (PyDict.dict str)) : result t :=
  (* self.llm_config = llm_config or {} *)
  let self_llm_config :=
    match llm_config with
    | Some d => d
    | None => []
    end in
  Return {| llm_config := self_llm_config;
            api_key := PyDict.get_default self_llm_config (lit "api_key") [];
            model := PyDict.get_default self_llm_config (lit "model")
                                        text_embedding_v1 |}.

(** [[embedding["embedding"] for embedding in items]] *)
Fixpoint embedding_of_each (items : list pyobj) : result (list pyobj) :=
  match items with
  | [] => Return []
  | embedding :: rest =>
    match subscript embedding (lit "embedding") with
    | Raise e => Raise e
    | Return v =>
      match embedding_of_each rest with
      | Raise e => Raise e
      | Return vs => Return (v :: vs)
      end
    end
  end.

(** [f"Error {response.code}: {response.message}"] *)
Definition error_message (response : Response) : str :=
  lit "Error " ++ code response ++ lit ": " ++ message response.

(** [_execute_llm(self, input, **kwargs)] *)
Definition _execute_llm (self : t) (input : pyobj) : Call.M (list pyobj) :=
  response <-
    Call.text_embedding_call
      {| emb_model := model self;
         emb_input := input;
         emb_api_key := api_key self |} ;;
  if status_code response =? HTTPStatus_OK then
    Call.lift
      match subscript (Dashscope.output response) (lit "embeddings") with
      | Raise e => Raise e
      | Return embeddings =>
        match iterate embeddings with
        | Raise e => Raise e
        | Return items => embedding_of_each items
        end
      end
  else Call.raise (Exception (error_message response)).

End Embeddings.

End QwenEmbeddingsLLM.

(** ** A sample environment

    A float type with the single value [0.0], and a remote service given
    by its two answers; used to run the adapters on concrete inputs. *)

Module Sample.

Definition unit_float : PyFloat :=
  {| pyfloat := unit;
     py_float := fun _ => tt;
     float_str := fun _ => lit "0.0" |}.

Definition external
           (generation : @GenerationArgs unit_float -> @Response unit_float)
           (embedding : @EmbeddingArgs unit_float -> @Response unit_float)
  : External :=
  {| ext_float := unit_float;
     Generation_call := generation;
     TextEmbedding_call := embedding;
     qwen_turbo := lit "qwen-turbo";
     text_embedding_v1 := lit "text-embedding-v1";
     LLMType_StaticResponse := lit "static_response";
     LLMType_QwenChat := lit "qwen_chat";
     LLMType_distinct := eq_refl;
     int_max_str_digits := 4300;
     json_max_nesting := 100 |}.

(** A successful response with the given [output]. *)
Definition ok (output : @pyobj unit_float) : @Response unit_float :=
  {| status_code := 200; code := []; message := []; output := output |}.

(** A failure response. *)
Definition failure (status : N) (code message : str) : @Response unit_float :=
  {| status_code := status; code := code; message := message;
     output := PNone |}.

(** A completion adapter as [__init__] leaves it. *)
Definition completion (chat : bool) : QwenCompletionLLM.t :=
  {| QwenCompletionLLM.llm_config := [];
     QwenCompletionLLM.api_key := [];
     QwenCompletionLLM.model := lit "qwen-turbo";
     QwenCompletionLLM.llm_type :=
       if chat then lit "qwen_chat" else lit "static_response";
     QwenCompletionLLM.chat_mode := chat |}.

Definition embeddings : QwenEmbeddingsLLM.t :=
  {| QwenEmbeddingsLLM.llm_config := [];
     QwenEmbeddingsLLM.api_key := [];
     QwenEmbeddingsLLM.model := lit "text-embedding-v1" |}.

End Sample.

(* ================================================================= *)
(** * Part II: properties *)
(* ================================================================= *)

(** ** [str.replace] and the placeholder pass *)

Module PlaceholderFacts.
Import Placeholders.

Lemma startswith_app (p t : str) : startswith p (p ++ t) = true.
Proof.
  induction p as [|a p IH]; simpl; [reflexivity|].
  now rewrite N.eqb_refl, IH.
Qed.

Lemma startswith_split (p s : str) :
  startswith p s = true -> s = p ++ skipn (List.length p) s.
Proof.
  revert s; induction p as [|a p IH]; intros [|b s] H; simpl in *;
    try reflexivity; try discriminate.
  apply andb_true_iff in H as [Hab Hs].
  apply N.eqb_eq in Hab; subst b.
  f_equal; now apply IH.
Qed.

Lemma replace_scan_skip (old new p t : str) :
  replace_scan old new (List.length p) (p ++ t) = replace_scan old new 0 t.
Proof. induction p as [|a p IH]; simpl; [reflexivity | exact IH]. Qed.

(** The scan, unfolded at an occurrence of [old]. *)
Lemma replace_scan_hit (old new s : str) :
  old <> [] -> startswith old s = true ->
  replace_scan old new 0 s
  = new ++ replace_scan old new 0 (skipn (List.length old) s).
Proof.
  intros Hold Hs.
  destruct old as [|o old']; [congruence|].
  destruct s as [|c s']; [discriminate|].
  change (replace_scan (o :: old') new 0 (c :: s'))
    with (if startswith (o :: old') (c :: s')
          then new ++ replace_scan (o :: old') new
                        (List.length (o :: old') - 1) s'
          else c :: replace_scan (o :: old') new 0 s').
  rewrite Hs. f_equal.
  pose proof (startswith_split _ _ Hs) as E.
  simpl in E. injection E as _ E.
  cbn [List.length Nat.sub skipn]. rewrite ?Nat.sub_0_r.
  rewrite E at 1. apply replace_scan_skip.
Qed.

Lemma replace_scan_miss (old new : str) (c : N) (s' : str) :
  startswith old (c :: s') = false ->
  replace_scan old new 0 (c :: s') = c :: replace_scan old new 0 s'.
Proof. intros H. simpl replace_scan. now rewrite H. Qed.

Lemma str_in_cons (p : str) (c : N) (s : str) :
  str_in p (c :: s) = startswith p (c :: s) || str_in p s.
Proof. reflexivity. Qed.

Lemma str_in_skipn (p : str) (k : nat) (s : str) :
  str_in p (skipn k s) = true -> str_in p s = true.
Proof.
  revert s; induction k as [|k IH]; intros s H; [exact H|].
  destruct s as [|c s]; [exact H|].
  rewrite str_in_cons. apply orb_true_iff; right. now apply IH.
Qed.

Lemma char_in_spec (c : N) (s : str) : char_in c s = true <-> In c s.
Proof.
  unfold char_in. rewrite existsb_exists. split.
  - intros (x & Hx & E). apply N.eqb_eq in E. now subst.
  - intros H. exists c. split; [exact H | apply N.eqb_refl].
Qed.

Lemma disjoint_head (n : N) (new p : str) :
  disjoint (n :: new) p = true -> ~ In n p.
Proof.
  intros D Hin. unfold disjoint in D. rewrite forallb_forall in D.
  specialize (D n (or_introl eq_refl)). apply negb_true_iff in D.
  apply char_in_spec in Hin. congruence.
Qed.

Lemma disjoint_tail (n : N) (new p : str) :
  disjoint (n :: new) p = true -> disjoint new p = true.
Proof.
  unfold disjoint. rewrite !forallb_forall. intros D x Hx.
  apply D. now right.
Qed.

Lemma disjoint_shrink (new : str) (a : N) (q : str) :
  disjoint new (a :: q) = true -> disjoint new q = true.
Proof.
  unfold disjoint. rewrite !forallb_forall. intros D x Hx.
  specialize (D x Hx). apply negb_true_iff in D. apply negb_true_iff.
  destruct (char_in x q) eqn:Cq; [|reflexivity].
  apply char_in_spec in Cq.
  assert (char_in x (a :: q) = true) as C
      by (apply char_in_spec; now right).
  congruence.
Qed.

(** A pattern that shares no code point with [new] cannot start inside
    a copy of [new]. *)
Lemma str_in_app_disjoint (new p r : str) :
  p <> [] -> disjoint new p = true ->
  str_in p (new ++ r) = true -> str_in p r = true.
Proof.
  intros Hp. induction new as [|n new IH]; intros D H; [exact H|].
  simpl app in H. rewrite str_in_cons in H.
  apply orb_true_iff in H as [H|H];
    [|apply IH; [now apply disjoint_tail in D | exact H]].
  exfalso. destruct p as [|a p]; [congruence|].
  apply andb_true_iff in H as [E _].
  apply N.eqb_eq in E. subst a.
  apply (disjoint_head _ _ _ D). now left.
Qed.

(** A prefix of the result that avoids the code points of a non-empty
    [new] was already a prefix of the scanned text. *)
Lemma startswith_replace_scan (old new q s : str) :
  new <> [] -> disjoint new q = true ->
  startswith q (replace_scan old new 0 s) = true ->
  startswith q s = true.
Proof.
  intros Hnew. revert q.
  induction s as [|c s IH]; intros q D H; [exact H|].
  destruct q as [|a q]; [reflexivity|].
  destruct (startswith old (c :: s)) eqn:Hit.
  - exfalso. simpl replace_scan in H. rewrite Hit in H.
    destruct new as [|n new]; [congruence|].
    apply andb_true_iff in H as [E _].
    apply N.eqb_eq in E. subst a.
    apply (disjoint_head _ _ _ D). now left.
  - rewrite replace_scan_miss in H by exact Hit.
    apply andb_true_iff in H as [E H].
    change (startswith (a :: q) (c :: s))
      with ((a =? c) && startswith q s).
    rewrite E. simpl andb. apply IH; [|exact H].
    now apply disjoint_shrink in D.
Qed.

(** One pass does not create an occurrence of a pattern that shares
    no code point with the inserted text. *)
Lemma str_in_replace_scan (old new p : str) :
  old <> [] -> new <> [] -> p <> [] -> disjoint new p = true ->
  forall s, str_in p (replace_scan old new 0 s) = true ->
            str_in p s = true.
Proof.
  intros Hold Hnew Hp D s.
  remember (List.length s) as n eqn:Hn.
  revert s Hn. induction n as [n IH] using lt_wf_ind. intros s Hn H.
  destruct s as [|c s'].
  - destruct p; [congruence | discriminate H].
  - destruct (startswith old (c :: s')) eqn:Hit.
    + rewrite replace_scan_hit in H by assumption.
      apply str_in_app_disjoint in H; [|assumption..].
      apply (str_in_skipn p (List.length old)).
      eapply IH; [|reflexivity|exact H].
      subst n. rewrite length_skipn.
      destruct old; [congruence|]. simpl. lia.
    + pose proof H as H0.
      rewrite replace_scan_miss in H by exact Hit.
      rewrite str_in_cons in H. rewrite str_in_cons.
      apply orb_true_iff in H as [H|H]; apply orb_true_iff.
      * left. rewrite <- replace_scan_miss with (new:=new) (old:=old) in H
          by exact Hit.
        now apply startswith_replace_scan in H.
      * right. eapply IH; [|reflexivity|exact H]. subst n. simpl. lia.
Qed.

(** After its pass, the replaced pattern is gone when the inserted
    text is non-empty and shares no code point with it. *)
Lemma replace_scan_clears (old new : str) :
  old <> [] -> new <> [] -> disjoint new old = true ->
  forall s, str_in old (replace_scan old new 0 s) = false.
Proof.
  intros Hold Hnew D s.
  remember (List.length s) as n eqn:Hn.
  revert s Hn. induction n as [n IH] using lt_wf_ind. intros s Hn.
  destruct (str_in old (replace_scan old new 0 s)) eqn:H; [|reflexivity].
  exfalso.
  destruct s as [|c s'].
  - destruct old; [congruence | discriminate H].
  - destruct (startswith old (c :: s')) eqn:Hit.
    + rewrite replace_scan_hit in H by assumption.
      apply str_in_app_disjoint in H; [|assumption..].
      rewrite (IH (List.length (skipn (List.length old) (c :: s')))) in H;
        [discriminate| |reflexivity].
      subst n. rewrite length_skipn.
      destruct old; [congruence|]. simpl. lia.
    + pose proof H as H0.
      rewrite replace_scan_miss in H by exact Hit.
      rewrite str_in_cons in H.
      apply orb_true_iff in H as [H|H].
      * rewrite <- replace_scan_miss with (new:=new) (old:=old) in H
          by exact Hit.
        apply startswith_replace_scan in H; [congruence|assumption..].
      * rewrite (IH (List.length s')) in H; [discriminate| |reflexivity].
        subst n. simpl. lia.
Qed.

(** A text without the pattern is returned as it is. *)
Lemma replace_scan_absent (old new s : str) :
  str_in old s = false -> replace_scan old new 0 s = s.
Proof.
  induction s as [|c s IH]; intros H; [reflexivity|].
  rewrite str_in_cons in H. apply orb_false_iff in H as [Hs Hin].
  rewrite replace_scan_miss by exact Hs. f_equal. now apply IH.
Qed.

Lemma placeholder_cons (key : str) :
  placeholder key = lbrace :: key ++ [rbrace].
Proof. reflexivity. Qed.

Lemma replace_placeholder (s key value : str) :
  replace s (placeholder key) value
  = replace_scan (placeholder key) value 0 s.
Proof. reflexivity. Qed.

Lemma placeholder_nonempty (key : str) : placeholder key <> [].
Proof. rewrite placeholder_cons. discriminate. Qed.

Lemma eqb_nil (v : str) : PyStr.eqb v [] = false -> v <> [].
Proof. destruct v; [discriminate | discriminate]. Qed.

(** The later passes do not bring back a placeholder that the values
    cannot spell. *)
Lemma replace_placeholders_keeps_absent (p : str) :
  p <> [] ->
  forall (variables : PyDict.dict str) (s : str),
    (forall kv, In kv variables ->
                snd kv <> [] /\ disjoint (snd kv) p = true) ->
    str_in p s = false ->
    str_in p (replace_placeholders s variables) = false.
Proof.
  intros Hp variables.
  induction variables as [|[key value] rest IH]; intros s Hv Hs;
    [exact Hs|].
  cbn [replace_placeholders]. apply IH.
  - intros kv Hkv. apply Hv. now right.
  - destruct (Hv (key, value) (or_introl eq_refl)) as [Hne D].
    rewrite replace_placeholder.
    destruct (str_in p (replace_scan (placeholder key) value 0 s)) eqn:E;
      [|reflexivity].
    apply str_in_replace_scan in E;
      [congruence | apply placeholder_nonempty | assumption..].
Qed.

Lemma inert_values_spec (variables : PyDict.dict str) :
  inert_values variables = true ->
  forall kv kv', In kv variables -> In kv' variables ->
    snd kv <> [] /\ disjoint (snd kv) (placeholder (fst kv')) = true.
Proof.
  unfold inert_values. rewrite forallb_forall.
  intros H kv kv' Hkv Hkv'. specialize (H kv Hkv).
  apply andb_true_iff in H as [Hne D].
  apply negb_true_iff in Hne. split; [now apply eqb_nil|].
  rewrite forallb_forall in D. now apply D.
Qed.

Lemma replace_placeholders_clears (variables : PyDict.dict str) :
  (forall kv kv', In kv variables -> In kv' variables ->
     snd kv <> [] /\ disjoint (snd kv) (placeholder (fst kv')) = true) ->
  forall s kv, In kv variables ->
    str_in (placeholder (fst kv)) (replace_placeholders s variables) = false.
Proof.
  induction variables as [|[key value] rest IH]; intros Hv s kv Hkv;
    [contradiction|].
  cbn [replace_placeholders]. destruct Hkv as [<-|Hkv].
  - simpl fst. apply replace_placeholders_keeps_absent.
    + apply placeholder_nonempty.
    + intros kv Hkv.
      apply (Hv kv (key, value)); [now right | now left].
    + rewrite replace_placeholder.
      destruct (Hv (key, value) (key, value)
                   (or_introl eq_refl) (or_introl eq_refl)) as [Hne D].
      apply replace_scan_clears;
        [apply placeholder_nonempty | assumption..].
  - apply IH; [|exact Hkv].
    intros a b Ha Hb. apply Hv; now right.
Qed.

Lemma replace_placeholders_absent (variables : PyDict.dict str) (s : str) :
  no_placeholder_in variables s = true ->
  replace_placeholders s variables = s.
Proof.
  induction variables as [|[key value] rest IH]; intros H;
    [reflexivity|].
  unfold no_placeholder_in in H. cbn [forallb fst] in H.
  apply andb_true_iff in H as [Hk Hrest].
  apply negb_true_iff in Hk.
  cbn [replace_placeholders]. rewrite replace_placeholder, replace_scan_absent by exact Hk.
  now apply IH.
Qed.

End PlaceholderFacts.

Example replace_demo :
  replace (lit "a{x}b{x}") (lit "{x}") (lit "12") = lit "a12b12".
Proof. reflexivity. Qed.

(** ** The brace pattern: the scanner finds the pattern's matches *)

Module BracePatternFacts.
Import BracePattern.

Lemma prepend_app (p q : str) (o : option (str * str)) :
  prepend p (prepend q o) = prepend (p ++ q) o.
Proof. destruct o as [[m r]|]; simpl; [now rewrite app_assoc | reflexivity]. Qed.

Lemma prepend_nil (o : option (str * str)) : prepend [] o = o.
Proof. now destruct o as [[m r]|]. Qed.

Lemma close_span_cons (depth : nat) (c : N) (s : str) :
  close_span depth (c :: s)
  = if c =? rbrace then
      match depth with
      | O => Some ([c], s)
      | S d => prepend [c] (close_span d s)
      end
    else if c =? lbrace then prepend [c] (close_span (S depth) s)
    else prepend [c] (close_span depth s).
Proof. reflexivity. Qed.

(** What [close_span] returns splits its input. *)
Lemma close_span_split (s : str) :
  forall depth m r, close_span depth s = Some (m, r) ->
                    s = m ++ r /\ m <> [].
Proof.
  induction s as [|c s IH]; intros depth m r H; [discriminate|].
  rewrite close_span_cons in H.
  assert (forall d, prepend [c] (close_span d s) = Some (m, r) ->
                    c :: s = m ++ r /\ m <> []) as K.
  { intros d E. destruct (close_span d s) as [[m' r']|] eqn:E'; [|discriminate].
    injection E as <- <-. apply IH in E' as [-> _].
    split; [reflexivity | discriminate]. }
  destruct (c =? rbrace).
  - destruct depth as [|d]; [|now apply K in H].
    injection H as <- <-. split; [reflexivity | discriminate].
  - destruct (c =? lbrace); now apply K in H.
Qed.

(** Text behind the closing brace does not change the span. *)
Lemma close_span_app (s rest : str) :
  forall depth m r, close_span depth s = Some (m, r) ->
                    close_span depth (s ++ rest) = Some (m, r ++ rest).
Proof.
  induction s as [|c s IH]; intros depth m r H; [discriminate|].
  simpl app. rewrite close_span_cons in H |- *.
  assert (forall d, prepend [c] (close_span d s) = Some (m, r) ->
                    prepend [c] (close_span d (s ++ rest))
                    = Some (m, r ++ rest)) as K.
  { intros d E. destruct (close_span d s) as [[m' r']|] eqn:E'; [|discriminate].
    injection E as <- <-. now rewrite (IH _ _ _ E'). }
  destruct (c =? rbrace).
  - destruct depth as [|d]; [|now apply K].
    injection H as <- <-. reflexivity.
  - destruct (c =? lbrace); now apply K.
Qed.

(** Reading a whole item of the pattern leaves the depth as it was. *)
Lemma close_span_pattern :
  (forall m, json_pattern m ->
     forall depth t, close_span depth (m ++ t)
                     = prepend m (close_span depth t)) /\
  (forall body, pattern_body body ->
     forall depth t, close_span depth (body ++ t)
                     = prepend body (close_span depth t)).
Proof.
  apply json_pattern_mutind.
- intros body _ IH depth t.
  simpl app. rewrite close_span_cons. simpl (lbrace =? rbrace).
  rewrite N.eqb_refl. rewrite <- app_assoc, IH. simpl app.
  rewrite close_span_cons, N.eqb_refl.
  rewrite !prepend_app. simpl app. reflexivity.
- intros depth t. now rewrite prepend_nil.
- intros c rest Hl Hr _ IH depth t.
  simpl app. rewrite close_span_cons.
  apply N.eqb_neq in Hl, Hr. rewrite Hl, Hr.
  now rewrite IH, prepend_app.
- intros m rest _ IHm _ IHrest depth t.
  now rewrite <- app_assoc, IHm, IHrest, prepend_app.
Qed.

(** The scanner is complete: a match of the pattern at the start of the
    text is found, whatever follows it. *)
Lemma match_at_pattern (m t : str) :
  json_pattern m -> match_at (m ++ t) = Some (m, t).
Proof.
  intros H. destruct H as [body Hbody].
  simpl app. unfold match_at. rewrite N.eqb_refl.
  rewrite <- app_assoc.
  rewrite (proj2 close_span_pattern body Hbody).
  simpl app. rewrite close_span_cons, N.eqb_refl. reflexivity.
Qed.

Lemma match_at_split (s m r : str) :
  match_at s = Some (m, r) -> s = m ++ r /\ m <> [].
Proof.
  destruct s as [|c s]; [discriminate|]. unfold match_at.
  destruct (c =? lbrace); [|discriminate].
  destruct (close_span 0 s) as [[m' r']|] eqn:E; [|discriminate].
  intros H. injection H as <- <-.
  apply close_span_split in E as [-> _].
  split; [reflexivity | discriminate].
Qed.

Lemma match_at_app (s rest m r : str) :
  match_at s = Some (m, r) -> match_at (s ++ rest) = Some (m, r ++ rest).
Proof.
  destruct s as [|c s]; [discriminate|]. simpl app. unfold match_at.
  destruct (c =? lbrace); [|discriminate].
  destruct (close_span 0 s) as [[m' r']|] eqn:E; [|discriminate].
  intros H. injection H as <- <-.
  now rewrite (close_span_app _ rest _ _ _ E).
Qed.

(** The scanner is sound: what it returns is a match of the pattern. *)
Lemma closes_cons_char (depth : nat) (c : N) (m : str) :
  c <> lbrace -> c <> rbrace -> closes depth m -> closes depth (c :: m).
Proof.
  intros Hl Hr H. destruct depth; destruct H as (body & tail & Hb & -> & Ht);
    exists (c :: body), tail; (split; [now constructor | now split]).
Qed.

Lemma closes_cons_open (depth : nat) (m : str) :
  closes (S depth) m -> closes depth (lbrace :: m).
Proof.
  intros (body & tail & Hb & -> & Ht).
  assert (exists body' tail',
             pattern_body body' /\ tail = body' ++ rbrace :: tail' /\
             match depth with O => tail' = [] | S d => closes d tail' end)
    as (body' & tail' & Hb' & -> & Ht') by (destruct depth; exact Ht).
  assert (closes depth ((lbrace :: body ++ [rbrace]) ++ body' ++ rbrace :: tail')).
  { destruct depth;
      exists ((lbrace :: body ++ [rbrace]) ++ body'), tail';
      (split; [apply pb_rec; [now constructor | assumption]
              | split; [now rewrite <- app_assoc | assumption]]). }
  simpl in H |- *. now rewrite <- app_assoc in H.
Qed.

Lemma close_span_closes (s : str) :
  forall depth m r, close_span depth s = Some (m, r) -> closes depth m.
Proof.
  induction s as [|c s IH]; intros depth m r H; [discriminate|].
  rewrite close_span_cons in H.
  destruct (c =? rbrace) eqn:Er.
  - apply N.eqb_eq in Er. subst c. destruct depth as [|d].
    + injection H as <- <-. exists [], []. repeat split. constructor.
    + destruct (close_span d s) as [[m' r']|] eqn:E; [|discriminate].
      injection H as <- <-. apply IH in E.
      exists [], m'. repeat split; [constructor | exact E].
  - destruct (c =? lbrace) eqn:El.
    + apply N.eqb_eq in El. subst c.
      destruct (close_span (S depth) s) as [[m' r']|] eqn:E; [|discriminate].
      injection H as <- <-. apply IH in E. now apply closes_cons_open.
    + destruct (close_span depth s) as [[m' r']|] eqn:E; [|discriminate].
      injection H as <- <-. apply IH in E.
      apply N.eqb_neq in Er, El. now apply closes_cons_char.
Qed.

Lemma match_at_sound (s m r : str) :
  match_at s = Some (m, r) -> json_pattern m.
Proof.
  destruct s as [|c s]; [discriminate|]. unfold match_at.
  destruct (c =? lbrace) eqn:El; [|discriminate].
  apply N.eqb_eq in El. subst c.
  destruct (close_span 0 s) as [[m' r']|] eqn:E; [|discriminate].
  intros H. injection H as <- <-.
  apply close_span_closes in E as (body & tail & Hb & -> & ->).
  now constructor.
Qed.

(** The pattern has at most one match at a position, so the order in
    which a backtracking matcher tries its alternatives does not show. *)
Lemma json_pattern_unique_prefix (m1 m2 t1 t2 : str) :
  json_pattern m1 -> json_pattern m2 -> m1 ++ t1 = m2 ++ t2 -> m1 = m2.
Proof.
  intros H1 H2 E.
  pose proof (match_at_pattern m1 t1 H1) as E1.
  pose proof (match_at_pattern m2 t2 H2) as E2.
  rewrite E in E1. congruence.
Qed.

(** More fuel than the length of the text changes nothing. *)
Lemma findall_fuel_stable (n : nat) :
  forall s k, (List.length s <= n)%nat ->
              findall_fuel (n + k) s = findall_fuel n s.
Proof.
  induction n as [|n IH]; intros s k Hlen.
  - destruct s; [|simpl in Hlen; lia]. now destruct k.
  - destruct s as [|c s]; [reflexivity|].
    change (findall_fuel (S n + k) (c :: s))
      with (match match_at (c :: s) with
            | Some (m, rest) => m :: findall_fuel (n + k) rest
            | None => findall_fuel (n + k) s
            end).
    change (findall_fuel (S n) (c :: s))
      with (match match_at (c :: s) with
            | Some (m, rest) => m :: findall_fuel n rest
            | None => findall_fuel n s
            end).
    simpl in Hlen.
    destruct (match_at (c :: s)) as [[m rest]|] eqn:E.
    + f_equal. apply IH.
      apply match_at_split in E as [E Hm].
      apply (f_equal (@List.length N)) in E.
      rewrite length_app in E. simpl in E.
      destruct m; [congruence|]. simpl in E. lia.
    + apply IH. lia.
Qed.

Lemma findall_fuel_enough (n : nat) (s : str) :
  (List.length s <= n)%nat -> findall_fuel n s = findall s.
Proof.
  intros H. unfold findall.
  replace n with (List.length s + (n - List.length s))%nat by lia.
  now apply findall_fuel_stable.
Qed.

(** The scan of [findall], one step. *)
Lemma findall_cons (c : N) (s : str) :
  findall (c :: s)
  = match match_at (c :: s) with
    | Some (m, rest) => m :: findall rest
    | None => findall s
    end.
Proof.
  unfold findall at 1.
  change (findall_fuel (List.length (c :: s)) (c :: s))
    with (match match_at (c :: s) with
          | Some (m, rest) => m :: findall_fuel (List.length s) rest
          | None => findall_fuel (List.length s) s
          end).
  destruct (match_at (c :: s)) as [[m rest]|] eqn:E; [|reflexivity].
  f_equal. apply findall_fuel_enough.
  apply match_at_split in E as [E Hm].
  apply (f_equal (@List.length N)) in E.
  rewrite length_app in E. simpl in E.
  destruct m; [congruence|]. simpl in E. lia.
Qed.

Lemma findall_nil : findall [] = [].
Proof. reflexivity. Qed.

(** A span that is closed inside [p] is found by [close_span] there. *)
Lemma open_depth_close (p : str) :
  forall depth, open_depth (S depth) p = 0%nat ->
    exists m p', close_span depth p = Some (m, p') /\
                 open_depth 0 p' = 0%nat.
Proof.
  induction p as [|c p IH]; intros depth H; [discriminate|].
  simpl in H. rewrite close_span_cons.
  destruct (c =? rbrace).
  - destruct depth as [|d].
    + now exists [c], p.
    + destruct (IH d H) as (m & p' & -> & Hp'). now exists ([c] ++ m), p'.
  - destruct (c =? lbrace).
    + destruct (IH (S depth) H) as (m & p' & -> & Hp').
      now exists ([c] ++ m), p'.
    + destruct (IH depth H) as (m & p' & -> & Hp').
      now exists ([c] ++ m), p'.
Qed.

(** Behind a text with no brace left open the scan starts afresh. *)
Lemma findall_app_closed (p rest : str) :
  closed p = true -> findall (p ++ rest) = findall p ++ findall rest.
Proof.
  unfold closed. intros H. apply Nat.eqb_eq in H.
  remember (List.length p) as n eqn:Hn.
  revert p Hn H. induction n as [n IH] using lt_wf_ind. intros p Hn H.
  destruct p as [|c p]; [reflexivity|].
  simpl app. rewrite !findall_cons.
  simpl in H. unfold match_at.
  destruct (c =? rbrace) eqn:Er.
  - apply N.eqb_eq in Er. subst c. simpl (rbrace =? lbrace).
    cbv iota. eapply IH; [|reflexivity|exact H]. subst n. simpl. lia.
  - destruct (c =? lbrace) eqn:El.
    + destruct (open_depth_close p 0 H) as (m & p' & E & Hp').
      rewrite E, (close_span_app _ rest _ _ _ E). simpl.
      f_equal. eapply IH; [|reflexivity|exact Hp'].
      apply close_span_split in E as [-> _]. subst n.
      simpl. rewrite length_app. lia.
    + eapply IH; [|reflexivity|exact H]. subst n. simpl. lia.
Qed.

(** A text without an opening brace leaves none open. *)
Lemma closed_no_brace (p : str) :
  char_in lbrace p = false -> closed p = true.
Proof.
  unfold closed, char_in. intros H. apply Nat.eqb_eq.
  induction p as [|c p IH]; [reflexivity|].
  cbn [existsb] in H. apply orb_false_iff in H as [Hc Hp].
  cbn [open_depth]. rewrite N.eqb_sym in Hc. rewrite Hc.
  destruct (c =? rbrace); now apply IH.
Qed.

(** A match of the pattern behind a closed prefix is one of the spans
    that [findall] returns. *)
Lemma findall_embedded (p m t : str) :
  closed p = true -> json_pattern m ->
  findall (p ++ m ++ t) = findall p ++ m :: findall t.
Proof.
  intros Hp Hm. rewrite findall_app_closed by exact Hp. f_equal.
  pose proof (match_at_pattern m t Hm) as E.
  destruct (m ++ t) as [|c s] eqn:Es; [discriminate E|].
  now rewrite findall_cons, E.
Qed.

End BracePatternFacts.


(** ** The adapters, step by step *)

Module AdapterFacts.
Import QwenCompletionLLM.

Lemma str_in_here (p b : str) : str_in p (p ++ b) = true.
Proof.
  destruct p as [|a p].
  - destruct b; reflexivity.
  - simpl app. rewrite PlaceholderFacts.str_in_cons.
    change (a :: p ++ b) with ((a :: p) ++ b).
    now rewrite PlaceholderFacts.startswith_app.
Qed.

Lemma str_in_middle (a p b : str) : str_in p (a ++ p ++ b) = true.
Proof.
  induction a as [|c a IH]; [exact (str_in_here p b)|].
  simpl app. rewrite PlaceholderFacts.str_in_cons, IH. apply orb_true_r.
Qed.

Section Completion.
Context {E : External}.

(** The error message names the code and the message of the response. *)
Lemma error_message_contains (response : Response) :
  str_in (code response) (error_message response) = true /\
  str_in (message response) (error_message response) = true.
Proof.
  unfold error_message. split.
  - apply str_in_middle.
  - rewrite !app_assoc. rewrite <- (app_nil_r (message response)) at 2.
    apply str_in_middle.
Qed.

(** One run of [_execute_llm] in non-chat mode. *)
Lemma execute_llm_prompt (self : t) (input : str) (kwargs : LLMInput)
      (vars : PyDict.dict str) (sent : list request) :
  chat_mode self = false ->
  kwarg_get (variables kwargs) [] = Some vars ->
  let args := prompt_args self (Placeholders.replace_placeholders input vars) in
  let response := Generation_call args in
  _execute_llm self input kwargs sent
  = (if status_code response =? HTTPStatus_OK
     then subscript (Dashscope.output response) (lit "text")
     else Raise (Exception (error_message response)),
     sent ++ [GenerationCall args]).
Proof.
  intros Hmode Hvars args response.
  unfold _execute_llm, Call.bind. rewrite Hvars, Hmode.
  unfold Call.ret, call_with_prompt, Call.generation_call.
  fold args. fold response.
  now destruct (status_code response =? HTTPStatus_OK).
Qed.

(** One run of [_execute_llm] in chat mode. *)
Lemma execute_llm_chat (self : t) (input : str) (kwargs : LLMInput)
      (vars : PyDict.dict str) (hist : list pyobj) (sent : list request) :
  chat_mode self = true ->
  kwarg_get (variables kwargs) [] = Some vars ->
  kwarg_get (history kwargs) [] = Some hist ->
  let args :=
    messages_args self
      (hist ++ [user_message (Placeholders.replace_placeholders input vars)]) in
  let response := Generation_call args in
  _execute_llm self input kwargs sent
  = (if status_code response =? HTTPStatus_OK
     then first_choice_content response
     else Raise (Exception (error_message response)),
     sent ++ [GenerationCall args]).
Proof.
  intros Hmode Hvars Hhist args response.
  unfold _execute_llm, Call.bind. rewrite Hvars, Hmode.
  unfold Call.ret. rewrite Hhist.
  unfold call_with_messages, Call.generation_call.
  fold args. fold response.
  now destruct (status_code response =? HTTPStatus_OK).
Qed.

End Completion.

End AdapterFacts.

(** ** The [json] module: what [dumps] writes, [loads] reads back *)

Module JsonFacts.
Import Json.

(** *** Hexadecimal escapes *)

Lemma hexval_hexdigit (d : N) : d < 16 -> hexval (hexdigit d) = Some d.
Proof.
  intros H.
  assert (d = 0 \/ d = 1 \/ d = 2 \/ d = 3 \/ d = 4 \/ d = 5 \/ d = 6 \/
          d = 7 \/ d = 8 \/ d = 9 \/ d = 10 \/ d = 11 \/ d = 12 \/
          d = 13 \/ d = 14 \/ d = 15) as C by lia.
  repeat (destruct C as [-> | C]; [reflexivity|]). now subst.
Qed.

Lemma hex4_escape (n : N) :
  n < 65536 ->
  hex4 (hexdigit (n / 4096)) (hexdigit ((n / 256) mod 16))
       (hexdigit ((n / 16) mod 16)) (hexdigit (n mod 16)) = Some n.
Proof.
  intros H. unfold hex4.
  assert (n / 4096 < 16) as H3
      by (apply N.Div0.div_lt_upper_bound; lia).
  rewrite !hexval_hexdigit by (try exact H3; apply N.mod_lt; lia).
  f_equal.
  pose proof (N.div_mod n 16 ltac:(lia)) as E0.
  pose proof (N.div_mod (n / 16) 16 ltac:(lia)) as E1.
  pose proof (N.div_mod (n / 256) 16 ltac:(lia)) as E2.
  rewrite N.Div0.div_div in E1. change (16 * 16) with 256 in E1.
  rewrite N.Div0.div_div in E2. change (256 * 16) with 4096 in E2.
  lia.
Qed.

(** [scanstring] at a [\uXXXX] escape. *)
Lemma scanstring_u (h1 h2 h3 h4 : N) (T : str) :
  scanstring (backslash :: 117 :: h1 :: h2 :: h3 :: h4 :: T)
  = match hex4 h1 h2 h3 h4 with
    | None => None
    | Some u =>
      if is_high_surrogate u then
        match T with
        | b :: r3 =>
          match r3 with
          | e2 :: g1 :: g2 :: g3 :: g4 :: r4 =>
            if (b =? backslash) && (e2 =? 117) then
              match hex4 g1 g2 g3 g4 with
              | None => None
              | Some u2 =>
                if is_low_surrogate u2
                then push (join_surrogates u u2) (scanstring r4)
                else push u (scanstring T)
              end
            else push u (scanstring T)
          | _ => push u (scanstring T)
          end
        | [] => None
        end
      else push u (scanstring T)
    end.
Proof. reflexivity. Qed.

Lemma scanstring_u_lone (h1 h2 h3 h4 u : N) (T : str) :
  hex4 h1 h2 h3 h4 = Some u ->
  (is_high_surrogate u = true -> no_low_ahead T) ->
  scanstring (backslash :: 117 :: h1 :: h2 :: h3 :: h4 :: T)
  = push u (scanstring T).
Proof.
  intros Hu Hahead. rewrite scanstring_u, Hu.
  destruct (is_high_surrogate u); [|reflexivity].
  specialize (Hahead eq_refl).
  destruct T as [|b [|e2 [|g1 [|g2 [|g3 [|g4 r4]]]]]]; try reflexivity.
  destruct ((b =? backslash) && (e2 =? 117)) eqn:Hb; [|reflexivity].
  apply andb_true_iff in Hb as [Hb He]. apply N.eqb_eq in Hb, He. subst b e2.
  destruct (Hahead _ _ _ _ _ eq_refl) as (u2 & -> & ->).
  reflexivity.
Qed.

Lemma scanstring_plain (c : N) (T : str) :
  (c =? dquote) = false -> (c =? backslash) = false -> (c <? 32) = false ->
  scanstring (c :: T) = push c (scanstring T).
Proof.
  intros H1 H2 H3. cbn [scanstring]. now rewrite H1, H2, H3.
Qed.

Lemma high_part_bounds (c : N) :
  65536 <= c -> c < 1114112 ->
  55296 <= 55296 + ((c - 65536) / 1024) mod 1024 < 56320 /\
  56320 <= 56320 + (c - 65536) mod 1024 < 57344.
Proof.
  intros H1 H2.
  pose proof (N.mod_lt ((c - 65536) / 1024) 1024 ltac:(discriminate)) as Ha.
  pose proof (N.mod_lt (c - 65536) 1024 ltac:(discriminate)) as Hb.
  revert Ha Hb.
  generalize (((c - 65536) / 1024) mod 1024), ((c - 65536) mod 1024).
  intros a b Ha Hb. lia.
Qed.

Lemma join_surrogates_parts (c : N) :
  65536 <= c -> c < 1114112 ->
  join_surrogates (55296 + ((c - 65536) / 1024) mod 1024)
                  (56320 + (c - 65536) mod 1024) = c.
Proof.
  intros H1 H2. unfold join_surrogates.
  set (v := c - 65536).
  assert (v < 1048576) as Hv by (unfold v; lia).
  assert (v / 1024 < 1024) as Hq
      by (apply N.Div0.div_lt_upper_bound; lia).
  rewrite (N.mod_small (v / 1024) 1024) by exact Hq.
  pose proof (N.mod_lt v 1024 ltac:(lia)) as Hr.
  replace ((55296 + v / 1024) mod 1024) with (v / 1024).
  2:{ change 55296 with (54 * 1024).
      rewrite N.add_comm, N.Div0.mod_add. symmetry. now apply N.mod_small. }
  replace ((56320 + v mod 1024) mod 1024) with (v mod 1024).
  2:{ change 56320 with (55 * 1024).
      rewrite N.add_comm, N.Div0.mod_add. symmetry. now apply N.mod_small. }
  pose proof (N.div_mod v 1024 ltac:(lia)). unfold v in *. lia.
Qed.

(** The cases of [encode_char]. *)
Lemma encode_char_cases (c : N) :
  (In c [34; 92; 10; 13; 9; 12; 8] /\
   exists e, encode_char c = [backslash; e] /\ unescape e = Some c /\
             (e =? 117) = false) \/
  (encode_char c = [c] /\ (c =? dquote) = false /\
   (c =? backslash) = false /\ (c <? 32) = false /\ c <= 126) \/
  (encode_char c = escape_u c /\ c < 65536) \/
  (encode_char c
   = escape_u (55296 + ((c - 65536) / 1024) mod 1024)
     ++ escape_u (56320 + (c - 65536) mod 1024) /\ 65536 <= c).
Proof.
  unfold encode_char.
  destruct (c =? 34) eqn:E1;
    [apply N.eqb_eq in E1; subst; left; split;
     [simpl; tauto | now exists 34]|].
  destruct (c =? 92) eqn:E2;
    [apply N.eqb_eq in E2; subst; left; split;
     [simpl; tauto | now exists 92]|].
  destruct (c =? 10) eqn:E3;
    [apply N.eqb_eq in E3; subst; left; split;
     [simpl; tauto | now exists 110]|].
  destruct (c =? 13) eqn:E4;
    [apply N.eqb_eq in E4; subst; left; split;
     [simpl; tauto | now exists 114]|].
  destruct (c =? 9) eqn:E5;
    [apply N.eqb_eq in E5; subst; left; split;
     [simpl; tauto | now exists 116]|].
  destruct (c =? 12) eqn:E6;
    [apply N.eqb_eq in E6; subst; left; split;
     [simpl; tauto | now exists 102]|].
  destruct (c =? 8) eqn:E7;
    [apply N.eqb_eq in E7; subst; left; split;
     [simpl; tauto | now exists 98]|].
  destruct ((32 <=? c) && (c <=? 126)) eqn:E8.
  - right; left. apply andb_true_iff in E8 as [Ha Hb].
    apply N.leb_le in Ha, Hb.
    repeat split; try assumption. apply N.ltb_ge. exact Ha.
  - destruct (c <? 65536) eqn:E9.
    + right; right; left. apply N.ltb_lt in E9. now split.
    + right; right; right. apply N.ltb_ge in E9. now split.
Qed.

Lemma scan_encode_char (c : N) (T : str) :
  is_code_point c = true ->
  (is_high_surrogate c = true -> no_low_ahead T) ->
  scanstring (encode_char c ++ T) = push c (scanstring T).
Proof.
  intros Hc Hahead. apply N.ltb_lt in Hc.
  destruct (encode_char_cases c)
    as [[_ (e & -> & He & Hu)] | [(-> & H1 & H2 & H3 & _)
       | [[-> Hlt] | [-> Hge]]]].
  - cbn [app scanstring]. simpl (backslash =? dquote).
    simpl (backslash =? backslash). cbv iota. now rewrite Hu, He.
  - now apply scanstring_plain.
  - unfold escape_u. cbn [app].
    apply scanstring_u_lone; [now apply hex4_escape | exact Hahead].
  - destruct (high_part_bounds c Hge Hc) as [Hhi Hlo].
    set (hi := 55296 + ((c - 65536) / 1024) mod 1024) in *.
    set (lo := 56320 + (c - 65536) mod 1024) in *.
    unfold escape_u. cbn [app]. rewrite scanstring_u.
    fold (escape_u hi). unfold escape_u.
    rewrite (hex4_escape hi) by lia.
    assert (is_high_surrogate hi = true) as ->
        by (unfold is_high_surrogate; apply andb_true_iff;
            split; apply N.leb_le; lia).
    simpl (backslash =? backslash). simpl (117 =? 117). cbn [andb].
    rewrite (hex4_escape lo) by lia.
    assert (is_low_surrogate lo = true) as ->
        by (unfold is_low_surrogate; apply andb_true_iff;
            split; apply N.leb_le; lia).
    unfold hi, lo. now rewrite join_surrogates_parts.
Qed.

Lemma quote_no_low_ahead (rest : str) : no_low_ahead (dquote :: rest).
Proof. intros g1 g2 g3 g4 r4 E. discriminate E. Qed.

Lemma encode_no_low_ahead (c : N) (T : str) :
  is_code_point c = true -> is_low_surrogate c = false ->
  no_low_ahead (encode_char c ++ T).
Proof.
  intros Hc Hlow g1 g2 g3 g4 r4 E. apply N.ltb_lt in Hc.
  destruct (encode_char_cases c)
    as [[_ (e & He & _ & Hu)] | [(He & _ & H2 & _)
       | [[He Hlt] | [He Hge]]]]; rewrite He in E.
  - injection E as E _. subst e. discriminate Hu.
  - injection E as E _. subst c. discriminate H2.
  - unfold escape_u in E. injection E as <- <- <- <- _.
    exists c. split; [now apply hex4_escape | exact Hlow].
  - destruct (high_part_bounds c Hge Hc) as [Hhi _].
    revert E Hhi.
    generalize (55296 + ((c - 65536) / 1024) mod 1024),
               (56320 + (c - 65536) mod 1024).
    intros hi lo E Hhi.
    unfold escape_u in E. cbn [app] in E. injection E as <- <- <- <- _.
    exists hi. split; [apply hex4_escape; lia|].
    unfold is_low_surrogate. apply andb_false_iff. left.
    apply N.leb_gt. lia.
Qed.

(** What [encode_basestring_ascii] writes, [scanstring] reads back. *)
Lemma scanstring_encode (s rest : str) :
  str_ok s = true ->
  scanstring (flat_map encode_char s ++ dquote :: rest) = Some (s, rest).
Proof.
  unfold str_ok. induction s as [|c s IH]; intros H; [reflexivity|].
  apply andb_true_iff in H as [Hcp Hpf].
  cbn [forallb] in Hcp. apply andb_true_iff in Hcp as [Hc Hcp].
  cbn [pair_free] in Hpf. apply andb_true_iff in Hpf as [Hhead Hpf].
  cbn [flat_map]. rewrite <- app_assoc.
  rewrite scan_encode_char; [|exact Hc|].
  - rewrite IH; [reflexivity|]. apply andb_true_iff. now split.
  - intros Hhigh. destruct s as [|c2 s2]; [apply quote_no_low_ahead|].
    cbn [flat_map]. rewrite <- app_assoc.
    cbn [forallb] in Hcp. apply andb_true_iff in Hcp as [Hc2 _].
    apply encode_no_low_ahead; [exact Hc2|].
    rewrite Hhigh in Hhead. simpl in Hhead.
    now apply negb_true_iff in Hhead.
Qed.

(** *** Integers *)

(** What may follow a value does not continue a number. *)
Lemma terminated_head (rest : str) :
  terminated rest = true ->
  rest = [] \/
  exists c r, rest = c :: r /\ is_digit c = false /\ (c =? 46) = false /\
              ((c =? 101) || (c =? 69)) = false.
Proof.
  destruct rest as [|c r]; [now left|]. intros H. right. exists c, r.
  cbn [terminated] in H.
  apply orb_true_iff in H as [H|H];
    [apply orb_true_iff in H as [H|H]|];
    apply N.eqb_eq in H; subst c; repeat split.
Qed.

Lemma uint_of_digits_of_uint (u : Decimal.uint) :
  uint_of_digits (digits_of_uint u) = u.
Proof.
  induction u; cbn [digits_of_uint uint_of_digits]; [reflexivity|..];
    unfold digit_char; simpl (_ =? _); cbv iota; now rewrite IHu.
Qed.

Lemma span_digits_nondigit (rest : str) :
  terminated rest = true -> span_digits rest = ([], rest).
Proof.
  intros H. destruct (terminated_head rest H) as [->|(c & r & -> & Hd & _)];
    [reflexivity|].
  cbn [span_digits]. now rewrite Hd.
Qed.

Lemma span_digits_of_uint (u : Decimal.uint) (rest : str) :
  terminated rest = true ->
  span_digits (digits_of_uint u ++ rest) = (digits_of_uint u, rest).
Proof.
  intros H. induction u; cbn [digits_of_uint app];
    [now apply span_digits_nondigit|..];
    cbn [span_digits]; simpl (is_digit _); cbv iota; now rewrite IHu.
Qed.

Lemma match_frac_terminated (rest : str) :
  terminated rest = true -> match_frac rest = None.
Proof.
  intros H. destruct (terminated_head rest H) as [->|(c & r & -> & _ & Hd & _)];
    [reflexivity|].
  cbn [match_frac]. now rewrite Hd.
Qed.

Lemma match_exp_terminated (rest : str) :
  terminated rest = true -> match_exp rest = None.
Proof.
  intros H. destruct (terminated_head rest H) as [->|(c & r & -> & _ & _ & He)];
    [reflexivity|].
  cbn [match_exp]. now rewrite He.
Qed.

(** The decimal text of a positive number starts with a digit other
    than zero. *)
Lemma pos_to_uint_head (p : positive) :
  Pos.to_uint p <> Decimal.Nil /\
  forall u, Pos.to_uint p <> Decimal.D0 u.
Proof.
  split; [apply DecimalPos.Unsigned.to_uint_nonnil|].
  intros u E.
  pose proof (DecimalPos.Unsigned.to_of (Pos.to_uint p)) as H.
  rewrite DecimalPos.Unsigned.of_to in H. cbn [N.to_uint] in H.
  assert (Decimal.nzhead (Pos.to_uint p) <> Decimal.Nil) as Hnz.
  { intros Hnil. apply DecimalFacts.unorm_0 in Hnil.
    rewrite <- H in Hnil.
    exact (DecimalPos.Unsigned.to_uint_nonzero p Hnil). }
  rewrite (DecimalFacts.unorm_nzhead _ Hnz) in H.
  rewrite E in H at 1.
  exact (DecimalFacts.nzhead_nonzero _ _ (eq_sym H)).
Qed.

(** The integer part of the text of a positive number. *)
Lemma match_integer_pos (p : positive) (rest : str) :
  terminated rest = true ->
  match_integer (digits_of_uint (Pos.to_uint p) ++ rest)
  = Some (digits_of_uint (Pos.to_uint p), rest) /\
  exists c ds, digits_of_uint (Pos.to_uint p) = c :: ds /\
               is_digit c = true.
Proof.
  intros H. destruct (pos_to_uint_head p) as [Hnil Hzero].
  destruct (Pos.to_uint p) as [|u|u|u|u|u|u|u|u|u|u];
    [congruence | exfalso; exact (Hzero u eq_refl) | ..];
    (split; [|eexists; eexists; split; [reflexivity|reflexivity]]);
    cbn [digits_of_uint app]; unfold match_integer;
    simpl (_ =? minus); cbv iota; simpl (_ =? 48); cbv iota;
    simpl (is_digit _); cbv iota;
    now rewrite (span_digits_of_uint u rest H).
Qed.

Lemma match_integer_repr (z : Z) (rest : str) :
  terminated rest = true ->
  match_integer (int_repr z ++ rest) = Some (int_repr z, rest) /\
  py_int (int_repr z) = z /\
  exists c ds, int_repr z = c :: ds /\
               (is_digit c = true \/ c = minus).
Proof.
  intros H. destruct z as [|p|p].
  - repeat split. exists 48, []. split; [reflexivity | now left].
  - cbn [int_repr Z.to_N N.to_uint].
    destruct (match_integer_pos p rest H) as [Hm (c & ds & Hc & Hd)].
    split; [exact Hm|]. split.
    + rewrite Hc. unfold py_int. rewrite <- Hc.
      assert ((c =? minus) = false) as ->.
      { unfold is_digit in Hd. apply andb_true_iff in Hd as [Hd _].
        apply N.leb_le in Hd. apply N.eqb_neq. unfold minus. lia. }
      rewrite uint_of_digits_of_uint.
      change (N.of_uint (Pos.to_uint p)) with (Pos.of_uint (Pos.to_uint p)).
      now rewrite DecimalPos.Unsigned.of_to.
    + exists c, ds. split; [exact Hc | now left].
  - cbn [int_repr].
    destruct (match_integer_pos p rest H) as [Hm (c & ds & Hc & Hd)].
    split.
    + cbn [app]. unfold match_integer. simpl (minus =? minus). cbv iota.
      unfold match_integer in Hm. rewrite Hc in Hm |- *. cbn [app] in Hm |- *.
      assert ((c =? minus) = false) as Hcm.
      { unfold is_digit in Hd. apply andb_true_iff in Hd as [Hd _].
        apply N.leb_le in Hd. apply N.eqb_neq. unfold minus. lia. }
      rewrite Hcm in Hm.
      destruct (c =? 48).
      * injection Hm as <- <-. reflexivity.
      * rewrite Hd in Hm |- *.
        destruct (span_digits (ds ++ rest)) as [ds' r2].
        injection Hm as <- <-. reflexivity.
    + split.
      * unfold py_int. simpl (minus =? minus). cbv iota.
        rewrite uint_of_digits_of_uint.
        change (N.of_uint (Pos.to_uint p)) with (Pos.of_uint (Pos.to_uint p)).
        now rewrite DecimalPos.Unsigned.of_to.
      * exists minus, (digits_of_uint (Pos.to_uint p)).
        split; [reflexivity | now right].
Qed.

(** *** Objects *)

Lemma eqb_spec (a b : str) : PyStr.eqb a b = true <-> a = b.
Proof.
  revert b. induction a as [|x a IH]; intros [|y b]; simpl;
    try (split; [discriminate | discriminate]); [tauto|].
  rewrite andb_true_iff, N.eqb_eq, IH. split.
  - now intros [-> ->].
  - intros E. injection E as -> ->. now split.
Qed.

Lemma eqb_refl (a : str) : PyStr.eqb a a = true.
Proof. now apply eqb_spec. Qed.

(** A new key goes to the end of the dict. *)
Lemma set_new {V} (d : PyDict.dict V) (key : str) (v : V) :
  ~ In key (List.map fst d) -> PyDict.set d key v = d ++ [(key, v)].
Proof.
  induction d as [|[k w] d IH]; intros H; [reflexivity|].
  cbn [PyDict.set]. destruct (PyStr.eqb k key) eqn:E.
  - apply eqb_spec in E. subst. exfalso. apply H. now left.
  - cbn [app]. f_equal. apply IH. intros Hin. apply H. now right.
Qed.

Lemma keys_set {V} (d : PyDict.dict V) (key : str) (v : V) :
  In key (List.map fst (PyDict.set d key v)) /\
  (forall k, In k (List.map fst (PyDict.set d key v)) <->
             k = key \/ In k (List.map fst d)) /\
  (NoDup (List.map fst d) -> NoDup (List.map fst (PyDict.set d key v))).
Proof.
  induction d as [|[k w] d (IH1 & IH2 & IH3)].
  - cbn. repeat split; try tauto.
    + intros [->|[]]; now left.
    + intros [->|[]]; now left.
    + intros _. constructor; [intros [] | constructor].
  - cbn [PyDict.set]. destruct (PyStr.eqb k key) eqn:E.
    + apply eqb_spec in E. subst k. cbn. repeat split; try tauto.
      intros [->|H]; tauto.
    + cbn [List.map fst]. split; [now right|]. split.
      * intros k'. cbn [In]. rewrite IH2. tauto.
      * intros Hnd. inversion Hnd as [|? ? Hk Hd]; subst.
        constructor; [|now apply IH3].
        rewrite IH2. intros [->|Hin]; [|contradiction].
        rewrite eqb_refl in E. discriminate.
Qed.

Section Objects.
Context {F : PyFloat}.

(** Induction on objects, through the lists and dicts inside them. *)
Lemma pyobj_induction (P : pyobj -> Prop) :
  P PNone ->
  (forall b, P (PBool b)) ->
  (forall z, P (PInt z)) ->
  (forall f, P (PFloat f)) ->
  (forall s, P (PStr s)) ->
  (forall l, Forall P l -> P (PList l)) ->
  (forall d, Forall (fun kv => P (snd kv)) d -> P (PDict d)) ->
  forall obj, P obj.
Proof.
  intros Hnone Hbool Hint Hfloat Hstr Hlist Hdict.
  fix IH 1. intros [| b | z | f | s | l | d].
  - exact Hnone.
  - apply Hbool.
  - apply Hint.
  - apply Hfloat.
  - apply Hstr.
  - apply Hlist. revert l. fix IHl 1. intros [|x l].
    + constructor.
    + constructor; [apply IH | apply IHl].
  - apply Hdict. revert d. fix IHd 1. intros [|[k v] d].
    + constructor.
    + constructor; [apply IH | apply IHd].
Qed.

(** A value starts neither with whitespace nor with a closing bracket. *)
Lemma scan_once_head (fuel : nat) (c : N) (t : str) (res : pyobj * str) :
  scan_once fuel (c :: t) = Some res ->
  is_ws c = false /\ (c =? rbracket) = false.
Proof.
  intros H.
  destruct (is_ws c || (c =? rbracket)) eqn:E;
    [|now apply orb_false_iff in E].
  exfalso. destruct fuel as [|fuel]; [discriminate|].
  assert (c = 32 \/ c = 9 \/ c = 10 \/ c = 13 \/ c = 93) as C.
  { unfold is_ws, rbracket in E.
    repeat (apply orb_true_iff in E as [E|E]);
      apply N.eqb_eq in E; subst; tauto. }
  destruct C as [->|[->|[->|[->| ->]]]]; discriminate H.
Qed.

Lemma skip_ws_space (t : str) : skip_ws (32 :: t) = skip_ws t.
Proof. reflexivity. Qed.

Lemma skip_ws_head (c : N) (t : str) :
  is_ws c = false -> skip_ws (c :: t) = c :: t.
Proof. intros H. cbn [skip_ws]. now rewrite H. Qed.

End Objects.

Section ReadBack.
Context {F : PyFloat}.
Hypothesis float_law : float_reads_back.

Lemma scan_once_atom (fuel : nat) (c : N) (t : str) :
  (c =? dquote) = false -> (c =? lbrace) = false ->
  (c =? lbracket) = false ->
  scan_once (S fuel) (c :: t) = scan_atom (c :: t).
Proof. intros H1 H2 H3. cbn [scan_once]. now rewrite H1, H2, H3. Qed.

Lemma reads_back_int (z : Z) : reads_back (PInt z).
Proof.
  intros rest fuel Hterm Hfuel.
  destruct fuel as [|fuel]; [lia|].
  destruct (match_integer_repr z rest Hterm) as (Hm & Hpy & c & ds & Hc & Hhead).
  cbn [dumps].
  assert (scan_number (int_repr z ++ rest) = Some (PInt z, rest)) as Hnum.
  { unfold scan_number.
    rewrite Hm, (match_frac_terminated rest Hterm),
      (match_exp_terminated rest Hterm).
    now rewrite Hpy. }
  rewrite Hc in Hnum |- *. cbn [app] in Hnum |- *.
  assert (48 <= c <= 57 \/ c = 45) as Hrange.
  { destruct Hhead as [Hd| ->]; [|now right]. left.
    unfold is_digit in Hd. apply andb_true_iff in Hd as [Ha Hb].
    apply N.leb_le in Ha, Hb. lia. }
  rewrite scan_once_atom by (apply N.eqb_neq; unfold dquote, lbrace, lbracket; lia).
  unfold scan_atom.
  change (lit "null") with [110; 117; 108; 108].
  change (lit "true") with [116; 114; 117; 101].
  change (lit "false") with [102; 97; 108; 115; 101].
  cbn [strip_prefix].
  replace (110 =? c) with false by (symmetry; apply N.eqb_neq; lia).
  replace (116 =? c) with false by (symmetry; apply N.eqb_neq; lia).
  replace (102 =? c) with false by (symmetry; apply N.eqb_neq; lia).
  now rewrite Hnum.
Qed.

Lemma reads_back_str (s : str) : str_ok s = true -> reads_back (PStr s).
Proof.
  intros Hs rest fuel Hterm Hfuel.
  destruct fuel as [|fuel]; [lia|].
  cbn [dumps]. unfold encode_basestring_ascii. cbn [app].
  rewrite <- app_assoc. cbn [app scan_once]. simpl (dquote =? dquote).
  cbv iota. now rewrite scanstring_encode.
Qed.

(** The first code point of what [dumps] writes. *)
Lemma reads_back_head (obj : pyobj) :
  reads_back obj ->
  exists c t, dumps obj = c :: t /\ is_ws c = false /\
              (c =? rbracket) = false.
Proof.
  intros H.
  specialize (H [] (S (2 * List.length (dumps obj ++ []))) eq_refl
                ltac:(lia)).
  rewrite app_nil_r in H.
  destruct (dumps obj) as [|c t]; [discriminate H|].
  exists c, t. split; [reflexivity|]. eapply scan_once_head. exact H.
Qed.

Lemma skip_ws_dumps (obj : pyobj) (t : str) :
  reads_back obj -> skip_ws (dumps obj ++ t) = dumps obj ++ t.
Proof.
  intros H. destruct (reads_back_head obj H) as (c & t' & -> & Hws & _).
  cbn [app]. now apply skip_ws_head.
Qed.

Lemma join_cons (sep a : str) (l : list str) :
  exists t, join sep (a :: l) = a ++ t.
Proof.
  destruct l as [|b l]; [exists []; cbn; now rewrite app_nil_r|].
  now exists (sep ++ join sep (b :: l)).
Qed.

(** The loop of [JSONArray] over the items that [dumps] wrote. *)
Lemma array_items_dumps (xs : list pyobj) :
  forall (x : pyobj) (values : list pyobj) (rest : str) (fuel : nat),
    Forall reads_back (x :: xs) ->
    terminated rest = true ->
    (2 * List.length (join (lit ", ") (List.map dumps (x :: xs))
                      ++ rbracket :: rest) + 1 < fuel)%nat ->
    array_items fuel values
                (join (lit ", ") (List.map dumps (x :: xs)) ++ rbracket :: rest)
    = Some (PList (values ++ x :: xs), rest).
Proof.
  induction xs as [|x2 xs IH]; intros x values rest fuel Hall Hterm Hfuel;
    inversion Hall as [|? ? Hx Hxs]; subst;
    (destruct fuel as [|fuel]; [lia|]).
  - cbn [List.map join] in Hfuel |- *. cbn [array_items].
    rewrite (Hx (rbracket :: rest) fuel eq_refl) by lia.
    reflexivity.
  - cbn [List.map] in Hfuel |- *.
    change (join (lit ", ") (dumps x :: dumps x2 :: List.map dumps xs))
      with (dumps x ++ [44; 32] ++ join (lit ", ") (List.map dumps (x2 :: xs)))
      in Hfuel |- *.
    rewrite <- !app_assoc in Hfuel |- *. cbn [app] in Hfuel |- *.
    cbn [array_items].
    rewrite (Hx (44 :: 32 :: join (lit ", ") (List.map dumps (x2 :: xs))
                  ++ rbracket :: rest) fuel eq_refl) by lia.
    rewrite (skip_ws_head 44) by reflexivity.
    simpl (44 =? rbracket). simpl (44 =? comma). cbv iota.
    rewrite skip_ws_space.
    assert (skip_ws (join (lit ", ") (List.map dumps (x2 :: xs))
                     ++ rbracket :: rest)
            = join (lit ", ") (List.map dumps (x2 :: xs)) ++ rbracket :: rest)
      as ->.
    { cbn [List.map].
      destruct (join_cons (lit ", ") (dumps x2) (List.map dumps xs)) as [t ->].
      rewrite <- app_assoc. apply skip_ws_dumps.
      now inversion Hxs. }
    rewrite IH; [now rewrite <- app_assoc | exact Hxs | exact Hterm |].
    rewrite length_app in Hfuel. cbn [List.length] in Hfuel. lia.
Qed.

Lemma reads_back_list (l : list pyobj) :
  Forall reads_back l -> reads_back (PList l).
Proof.
  intros Hall rest fuel Hterm Hfuel.
  destruct fuel as [|fuel]; [lia|].
  destruct l as [|x xs]; [reflexivity|].
  cbn [dumps] in Hfuel |- *. cbn [app] in Hfuel |- *.
  rewrite <- app_assoc in Hfuel |- *. cbn [app] in Hfuel |- *.
  cbn [scan_once]. simpl (lbracket =? dquote). simpl (lbracket =? lbrace).
  simpl (lbracket =? lbracket). cbv iota.
  assert (exists c t,
             join (lit ", ") (List.map dumps (x :: xs)) ++ rbracket :: rest
             = c :: t /\ is_ws c = false /\ (c =? rbracket) = false)
    as (c & t & E & Hws & Hrb).
  { cbn [List.map].
    destruct (join_cons (lit ", ") (dumps x) (List.map dumps xs)) as [t ->].
    inversion Hall as [|? ? Hx _]; subst.
    destruct (reads_back_head x Hx) as (c & t' & -> & Hws & Hrb).
    exists c. eexists. split; [reflexivity | now split]. }
  rewrite E, (skip_ws_head c t Hws), Hrb, <- E.
  rewrite array_items_dumps; [reflexivity | exact Hall | exact Hterm |].
  cbn [List.length] in Hfuel. lia.
Qed.

(** One item of a dict as [dumps] writes it. *)
Lemma item_text (k : str) (obj : pyobj) (t : str) :
  (encode_basestring_ascii k ++ lit ": " ++ dumps obj) ++ t
  = dquote :: flat_map encode_char k
           ++ dquote :: colon :: 32 :: dumps obj ++ t.
Proof.
  unfold encode_basestring_ascii. cbn [app].
  rewrite <- !app_assoc. reflexivity.
Qed.

(** The loop of [JSONObject] over the items that [dumps] wrote. *)
Lemma object_items_dumps (d : list (str * pyobj)) :
  forall (k : str) (v : pyobj) (pairs : PyDict.dict pyobj)
         (rest T : str) (fuel : nat),
    Forall (fun kv => str_ok (fst kv) = true /\ reads_back (snd kv))
           ((k, v) :: d) ->
    NoDup (List.map fst pairs ++ List.map fst ((k, v) :: d)) ->
    terminated rest = true ->
    join (lit ", ")
         (List.map (fun kv => encode_basestring_ascii (fst kv)
                              ++ lit ": " ++ dumps (snd kv)) ((k, v) :: d))
    ++ rbrace :: rest = dquote :: T ->
    (2 * List.length T + 3 < fuel)%nat ->
    object_items fuel pairs T = Some (PDict (pairs ++ (k, v) :: d), rest).
Proof.
  induction d as [|[k2 v2] d IH];
    intros k v pairs rest T fuel Hall Hnd Hterm HT Hfuel;
    inversion Hall as [|? ? [Hk Hv] Hd]; subst; cbn [fst snd] in *;
    (destruct fuel as [|fuel]; [lia|]);
    assert (PyDict.set pairs k v = pairs ++ [(k, v)]) as Hset
      by (apply set_new; intros Hin;
          apply NoDup_remove_2 in Hnd; apply Hnd;
          apply in_or_app; now left).
  - cbn [List.map join fst snd] in HT. rewrite item_text in HT.
    injection HT as <-.
    cbn [object_items]. rewrite (scanstring_encode k _ Hk).
    rewrite (skip_ws_head colon) by reflexivity.
    simpl (colon =? colon). cbv iota.
    rewrite skip_ws_space, (skip_ws_dumps v _ Hv).
    rewrite (Hv (rbrace :: rest) fuel eq_refl).
    2:{ rewrite length_app in Hfuel. cbn [List.length] in Hfuel. lia. }
    rewrite Hset. reflexivity.
  - change (List.map ?f ((k, v) :: (k2, v2) :: d))
      with (f (k, v) :: List.map f ((k2, v2) :: d)) in HT.
    cbn beta in HT. cbn [fst snd] in HT.
    remember (List.map (fun kv => encode_basestring_ascii (fst kv)
                                  ++ lit ": " ++ dumps (snd kv))
                       ((k2, v2) :: d)) as items eqn:Eitems.
    assert (exists i0 itl, items = i0 :: itl) as (i0 & itl & Ei)
        by (subst items; eexists; eexists; reflexivity).
    rewrite Ei in HT.
    change (join (lit ", ") (?a :: i0 :: itl))
      with (a ++ [44; 32] ++ join (lit ", ") (i0 :: itl)) in HT.
    rewrite <- Ei in HT.
    rewrite <- app_assoc in HT. rewrite item_text in HT.
    rewrite <- (app_assoc [44; 32]) in HT. cbn [app] in HT.
    injection HT as <-.
    cbn [object_items]. rewrite (scanstring_encode k _ Hk).
    rewrite (skip_ws_head colon) by reflexivity.
    simpl (colon =? colon). cbv iota.
    rewrite skip_ws_space, (skip_ws_dumps v _ Hv).
    rewrite (Hv (44 :: 32 :: _) fuel eq_refl).
    2:{ rewrite length_app in Hfuel. cbn [List.length] in Hfuel.
        rewrite length_app in Hfuel. cbn [List.length] in Hfuel.
        rewrite length_app. cbn [List.length]. lia. }
    rewrite (skip_ws_head 44) by reflexivity.
    simpl (44 =? rbrace). simpl (44 =? comma). cbv iota.
    rewrite skip_ws_space.
    assert (exists T3, join (lit ", ") items ++ rbrace :: rest = dquote :: T3)
      as [T3 ET3].
    { subst items. cbn [List.map fst snd].
      destruct (join_cons (lit ", ")
                  (encode_basestring_ascii k2 ++ lit ": " ++ dumps v2)
                  (List.map (fun kv => encode_basestring_ascii (fst kv)
                                       ++ lit ": " ++ dumps (snd kv)) d))
        as [t Et].
      apply (f_equal (fun x => x ++ rbrace :: rest)) in Et. cbn beta in Et.
      rewrite <- app_assoc, item_text in Et. eexists. exact Et. }
    rewrite ET3. rewrite (skip_ws_head dquote) by reflexivity.
    simpl (dquote =? dquote). cbv iota.
    rewrite Hset.
    rewrite (IH k2 v2 (pairs ++ [(k, v)]) rest T3 fuel).
    + now rewrite <- app_assoc.
    + exact Hd.
    + rewrite map_app, <- app_assoc. exact Hnd.
    + exact Hterm.
    + rewrite <- ET3, Eitems. reflexivity.
    + rewrite length_app in Hfuel. cbn [List.length] in Hfuel.
      rewrite length_app in Hfuel. cbn [List.length] in Hfuel.
      rewrite ET3 in Hfuel. cbn [List.length] in Hfuel. lia.
Qed.

Lemma reads_back_dict (d : list (str * pyobj)) :
  NoDup (List.map fst d) ->
  Forall (fun kv => str_ok (fst kv) = true /\ reads_back (snd kv)) d ->
  reads_back (PDict d).
Proof.
  intros Hnd Hall rest fuel Hterm Hfuel.
  destruct fuel as [|fuel]; [lia|].
  destruct d as [|[k v] d]; [reflexivity|].
  cbn [dumps] in Hfuel |- *. cbn [app] in Hfuel |- *.
  rewrite <- app_assoc in Hfuel |- *. cbn [app] in Hfuel |- *.
  remember (join (lit ", ")
              (List.map (fun kv => encode_basestring_ascii (fst kv)
                                   ++ lit ": " ++ dumps (snd kv))
                        ((k, v) :: d)) ++ rbrace :: rest) as T eqn:ET.
  assert (exists T', T = dquote :: T') as [T' ET'].
  { subst T. cbn [List.map fst snd].
    destruct (join_cons (lit ", ")
                (encode_basestring_ascii k ++ lit ": " ++ dumps v)
                (List.map (fun kv => encode_basestring_ascii (fst kv)
                                     ++ lit ": " ++ dumps (snd kv)) d))
      as [t Et].
    apply (f_equal (fun x => x ++ rbrace :: rest)) in Et. cbn beta in Et.
    rewrite <- app_assoc, item_text in Et. eexists. exact Et. }
  rewrite ET'. cbn [scan_once].
  simpl (lbrace =? dquote). simpl (lbrace =? lbrace). cbv iota.
  rewrite (skip_ws_head dquote) by reflexivity.
  simpl (dquote =? rbrace). simpl (dquote =? dquote). cbv iota.
  rewrite (object_items_dumps d k v [] rest T' fuel);
    [reflexivity | exact Hall | exact Hnd | exact Hterm | |].
  - rewrite <- ET', ET. reflexivity.
  - rewrite ET' in Hfuel. cbn [List.length] in Hfuel. lia.
Qed.

(** What [dumps] writes for a well-formed object is read back. *)
Lemma well_formed_reads_back (obj : pyobj) :
  well_formed obj -> reads_back obj.
Proof.
  induction obj as [| b | z | f | s | l IH | d IH] using pyobj_induction;
    intros Hwf.
  - intros rest fuel _ Hfuel. destruct fuel; [lia | reflexivity].
  - intros rest fuel _ Hfuel. destruct fuel; [lia|]. now destruct b.
  - apply reads_back_int.
  - intros rest fuel Hterm Hfuel. destruct fuel; [lia|].
    now apply float_law.
  - apply reads_back_str. now inversion Hwf.
  - apply reads_back_list. inversion Hwf as [| | | | |? Hl|]; subst.
    rewrite Forall_forall in IH, Hl |- *.
    intros x Hx. apply IH; [exact Hx | now apply Hl].
  - inversion Hwf as [| | | | | |? Hnd Hd]; subst.
    apply reads_back_dict; [exact Hnd|].
    rewrite Forall_forall in IH, Hd |- *.
    intros kv Hkv. destruct (Hd kv Hkv) as [Hk Hv].
    split; [exact Hk | now apply IH].
Qed.

(** [loads(dumps(obj)) == obj] for a well-formed dict. *)
Lemma loads_dumps_dict (d : list (str * pyobj)) :
  well_formed (PDict d) -> loads (dumps (PDict d)) = Some (PDict d).
Proof.
  intros Hwf. pose proof (well_formed_reads_back _ Hwf) as H.
  specialize (H [] (S (2 * List.length (dumps (PDict d)))) eq_refl).
  rewrite app_nil_r in H. specialize (H ltac:(lia)).
  unfold loads.
  assert (exists t, dumps (PDict d) = lbrace :: t) as [t Et]
      by (eexists; reflexivity).
  rewrite Et in H |- *.
  rewrite (skip_ws_head lbrace) by reflexivity.
  simpl (startswith _ _). rewrite H. reflexivity.
Qed.

End ReadBack.


(** *** What [loads] builds is well formed *)

Lemma push_some (x : N) (o : option (str * str)) (t r : str) :
  push x o = Some (t, r) ->
  exists t', t = x :: t' /\ o = Some (t', r).
Proof.
  destruct o as [[t' r']|]; [|discriminate].
  intros H. injection H as <- <-. now exists t'.
Qed.

(** One step of [scanstring]. *)
Lemma scanstring_step (s t r : str) :
  scanstring s = Some (t, r) ->
  (t = [] /\ s = dquote :: r) \/
  exists x t' s',
    t = x :: t' /\ scanstring s' = Some (t', r) /\ decoded_from x s s'.
Proof.
  destruct s as [|c r0]; [discriminate|].
  cbn [scanstring].
  destruct (c =? dquote) eqn:Hq.
  { intros H. injection H as <- <-. apply N.eqb_eq in Hq. subst. now left. }
  destruct (c =? backslash) eqn:Hb.
  2:{ destruct (c <? 32) eqn:Hc; [discriminate|].
      intros H. apply push_some in H as (t' & -> & H). right.
      exists c, t', r0. split; [reflexivity|]. split; [exact H|].
      left. now repeat split. }
  apply N.eqb_eq in Hb. subst c. right.
  destruct r0 as [|e r1]; [discriminate|].
  destruct (e =? 117) eqn:He.
  2:{ destruct (unescape e) as [c'|] eqn:Hu; [|discriminate].
      apply push_some in H as (t' & -> & H).
      exists c', t', r1. split; [reflexivity|]. split; [exact H|].
      right; left. now exists e. }
  apply N.eqb_eq in He. subst e.
  destruct r1 as [|h1 [|h2 [|h3 [|h4 T]]]]; try discriminate.
  change (match hex4 h1 h2 h3 h4 with
          | Some u =>
            if is_high_surrogate u
            then
              match T with
              | [] => None
              | b :: r3 =>
                match r3 with
                | e2 :: g1 :: g2 :: g3 :: g4 :: r4 =>
                  if (b =? backslash) && (e2 =? 117)
                  then
                    match hex4 g1 g2 g3 g4 with
                    | Some u2 =>
                      if is_low_surrogate u2
                      then push (join_surrogates u u2) (scanstring r4)
                      else push u (scanstring T)
                    | None => None
                    end
                  else push u (scanstring T)
                | _ => push u (scanstring T)
                end
              end
            else push u (scanstring T)
          | None => None
          end = Some (t, r)) in H.
  destruct (hex4 h1 h2 h3 h4) as [u|] eqn:Hu; [|discriminate].
  assert (forall (Hahead : is_high_surrogate u = true -> no_low_ahead T),
             push u (scanstring T) = Some (t, r) ->
             exists x t' s',
               t = x :: t' /\ scanstring s' = Some (t', r) /\
               decoded_from x
                 (backslash :: 117 :: h1 :: h2 :: h3 :: h4 :: T) s')
    as Lone.
  { intros Hahead H'. apply push_some in H' as (t' & -> & H').
    exists u, t', T. split; [reflexivity|]. split; [exact H'|].
    right; right; left. exists h1, h2, h3, h4. now repeat split. }
  destruct (is_high_surrogate u) eqn:Hh;
    [|apply Lone; [discriminate | exact H]].
  destruct T as [|b r3]; [discriminate|].
  destruct r3 as [|e2 [|g1 [|g2 [|g3 [|g4 r4]]]]];
    try (apply Lone; [intros _ ? ? ? ? ? E; discriminate E | exact H]).
  destruct ((b =? backslash) && (e2 =? 117)) eqn:Hcond.
  2:{ apply Lone; [|exact H]. intros _ ? ? ? ? ? E.
      injection E as -> -> _ _ _ _ _. discriminate Hcond. }
  apply andb_true_iff in Hcond as [Hb He].
  apply N.eqb_eq in Hb, He. subst b e2.
  destruct (hex4 g1 g2 g3 g4) as [u2|] eqn:Hu2; [|discriminate].
  destruct (is_low_surrogate u2) eqn:Hl.
  - apply push_some in H as (t' & -> & H).
    exists (join_surrogates u u2), t', r4.
    split; [reflexivity|]. split; [exact H|].
    right; right; right.
    exists h1, h2, h3, h4, g1, g2, g3, g4, u, u2. now repeat split.
  - apply Lone; [|exact H]. intros _ ? ? ? ? ? E.
    injection E as <- <- <- <- _. now exists u2.
Qed.

Lemma hexval_bound (c d : N) : hexval c = Some d -> d < 16.
Proof.
  unfold hexval.
  destruct ((48 <=? c) && (c <=? 57)) eqn:E1.
  { apply andb_true_iff in E1 as [A B]. apply N.leb_le in A, B.
    intros H. injection H as <-. lia. }
  destruct ((97 <=? c) && (c <=? 102)) eqn:E2.
  { apply andb_true_iff in E2 as [A B]. apply N.leb_le in A, B.
    intros H. injection H as <-. lia. }
  destruct ((65 <=? c) && (c <=? 70)) eqn:E3; [|discriminate].
  apply andb_true_iff in E3 as [A B]. apply N.leb_le in A, B.
  intros H. injection H as <-. lia.
Qed.

Lemma hex4_bound (h1 h2 h3 h4 u : N) :
  hex4 h1 h2 h3 h4 = Some u -> u < 65536.
Proof.
  unfold hex4.
  destruct (hexval h1) as [a|] eqn:Ha; [|discriminate].
  destruct (hexval h2) as [b|] eqn:Hb; [|discriminate].
  destruct (hexval h3) as [c|] eqn:Hc; [|discriminate].
  destruct (hexval h4) as [d|] eqn:Hd; [|discriminate].
  apply hexval_bound in Ha, Hb, Hc, Hd.
  intros H. injection H as <-. lia.
Qed.

Lemma text_ok_cons (c : N) (s : str) :
  text_ok (c :: s) = true ->
  c < 1114112 /\ is_surrogate c = false /\ text_ok s = true.
Proof.
  cbn [text_ok forallb]. intros H.
  apply andb_true_iff in H as [H Hs].
  apply andb_true_iff in H as [Hc Hn].
  apply N.ltb_lt in Hc. apply negb_true_iff in Hn. now repeat split.
Qed.

Lemma text_ok_app (p s : str) :
  text_ok (p ++ s) = true -> text_ok s = true.
Proof.
  induction p as [|c p IH]; [trivial|].
  intros H. apply text_ok_cons in H as (_ & _ & H). now apply IH.
Qed.

Lemma surrogate_cases (c : N) :
  is_surrogate c = false ->
  is_high_surrogate c = false /\ is_low_surrogate c = false.
Proof.
  unfold is_surrogate, is_high_surrogate, is_low_surrogate. intros H.
  apply andb_false_iff in H as [H|H].
  - apply N.leb_gt in H. split; apply andb_false_iff; left;
      apply N.leb_gt; lia.
  - apply N.leb_gt in H. split; apply andb_false_iff; right;
      apply N.leb_gt; lia.
Qed.

Lemma not_surrogate_below (c : N) :
  c < 55296 \/ 57343 < c ->
  is_high_surrogate c = false /\ is_low_surrogate c = false.
Proof.
  intros H. apply surrogate_cases. unfold is_surrogate.
  apply andb_false_iff. destruct H; [left|right]; apply N.leb_gt; lia.
Qed.

Lemma unescape_small (e x : N) : unescape e = Some x -> x <= 92.
Proof.
  unfold unescape.
  repeat (match goal with
          | |- context [if ?b then _ else _] => destruct b
          end; [intros H; injection H as <-; lia|]).
  discriminate.
Qed.

(** What a decoded code point tells about the text it came from. *)
Lemma decoded_from_facts (x : N) (s s' : str) :
  decoded_from x s s' -> text_ok s = true ->
  is_code_point x = true /\ text_ok s' = true /\
  (List.length s' < List.length s)%nat /\
  (is_high_surrogate x = true -> no_low_ahead s') /\
  (is_low_surrogate x = true ->
   exists h1 h2 h3 h4 s2,
     s = backslash :: 117 :: h1 :: h2 :: h3 :: h4 :: s2 /\
     hex4 h1 h2 h3 h4 = Some x).
Proof.
  intros [(-> & _) | [(e & -> & Hu) | [(h1 & h2 & h3 & h4 & -> & Hu & Ha)
         | (h1 & h2 & h3 & h4 & g1 & g2 & g3 & g4 & u & u2
            & -> & Hu & Hu2 & Hh & Hl & ->)]]] Hok.
  - apply text_ok_cons in Hok as (Hc & Hs & Hok).
    destruct (surrogate_cases x Hs) as [Hh Hl].
    split; [now apply N.ltb_lt|]. split; [exact Hok|].
    split; [cbn; lia|]. split; intros H; congruence.
  - apply (text_ok_app [backslash; e]) in Hok.
    apply unescape_small in Hu.
    destruct (not_surrogate_below x) as [Hh Hl]; [lia|].
    split; [apply N.ltb_lt; lia|]. split; [exact Hok|].
    split; [cbn; lia|]. split; intros H; congruence.
  - apply (text_ok_app [backslash; 117; h1; h2; h3; h4]) in Hok.
    pose proof (hex4_bound _ _ _ _ _ Hu) as Hb.
    split; [apply N.ltb_lt; lia|]. split; [exact Hok|].
    split; [cbn; lia|]. split; [exact Ha|].
    intros _. now exists h1, h2, h3, h4, s'.
  - apply (text_ok_app [backslash; 117; h1; h2; h3; h4;
                        backslash; 117; g1; g2; g3; g4]) in Hok.
    assert (65536 <= join_surrogates u u2 < 1114112) as Hj.
    { unfold join_surrogates.
      pose proof (N.mod_lt u 1024 ltac:(discriminate)) as A.
      pose proof (N.mod_lt u2 1024 ltac:(discriminate)) as B.
      revert A B. generalize (u mod 1024), (u2 mod 1024). intros a b A B.
      lia. }
    destruct (not_surrogate_below (join_surrogates u u2)) as [Hh' Hl'];
      [lia|].
    split; [apply N.ltb_lt; lia|]. split; [exact Hok|].
    split; [cbn; lia|]. split; intros H; congruence.
Qed.

(** The strings that [scanstring] decodes from a text of scalar values
    are [str_ok]. *)
Lemma scanstring_ok (s t r : str) :
  scanstring s = Some (t, r) -> text_ok s = true ->
  str_ok t = true /\ text_ok r = true.
Proof.
  remember (List.length s) as n eqn:Hn.
  revert s t r Hn. induction n as [n IH] using lt_wf_ind.
  intros s t r Hn H Hok.
  destruct (scanstring_step s t r H)
    as [[-> ->] | (x & t' & s' & -> & H' & Hx)].
  - split; [reflexivity|]. now apply text_ok_cons in Hok.
  - destruct (decoded_from_facts x s s' Hx Hok)
      as (Hcp & Hok' & Hlen & Hhigh & _).
    destruct (IH (List.length s') ltac:(lia) s' t' r eq_refl H' Hok')
      as [Ht' Hr].
    split; [|exact Hr].
    unfold str_ok in Ht' |- *. apply andb_true_iff in Ht' as [Hall Hpf].
    apply andb_true_iff. split.
    + cbn [forallb]. now rewrite Hcp, Hall.
    + cbn [pair_free]. rewrite Hpf, andb_true_r.
      destruct t' as [|y t2]; [reflexivity|].
      apply negb_true_iff. apply andb_false_iff.
      destruct (is_high_surrogate x) eqn:Hh; [right | now left].
      destruct (is_low_surrogate y) eqn:Hl; [exfalso | reflexivity].
      destruct (scanstring_step s' (y :: t2) r H')
        as [[E _] | (y' & t3 & s2 & E & _ & Hy)]; [discriminate E|].
      injection E as <- <-.
      destruct (decoded_from_facts y s' s2 Hy Hok')
        as (_ & _ & _ & _ & Hlow).
      destruct (Hlow Hl) as (h1 & h2 & h3 & h4 & s3 & Es' & Hu).
      destruct (Hhigh eq_refl _ _ _ _ _ Es') as (u2 & Hu2 & Hl2).
      congruence.
Qed.

Lemma text_ok_tail (c : N) (s : str) :
  text_ok (c :: s) = true -> text_ok s = true.
Proof. intros H. now apply text_ok_cons in H. Qed.

Lemma text_ok_skip_ws (s : str) :
  text_ok s = true -> text_ok (skip_ws s) = true.
Proof.
  induction s as [|c s IH]; [trivial|]. intros H. cbn [skip_ws].
  destruct (is_ws c); [apply IH; now apply text_ok_tail in H | exact H].
Qed.

Lemma text_ok_strip_prefix (p s r : str) :
  strip_prefix p s = Some r -> text_ok s = true -> text_ok r = true.
Proof.
  revert s. induction p as [|a p IH]; intros [|b s] H Hok;
    cbn [strip_prefix] in H; try discriminate;
    try (injection H as <-; exact Hok).
  destruct (a =? b); [|discriminate].
  apply (IH s H). now apply text_ok_tail in Hok.
Qed.

Lemma text_ok_span_digits (s : str) :
  text_ok s = true -> text_ok (snd (span_digits s)) = true.
Proof.
  induction s as [|c s IH]; [trivial|]. intros H. cbn [span_digits].
  destruct (is_digit c); [|exact H].
  specialize (IH (text_ok_tail _ _ H)).
  now destruct (span_digits s).
Qed.

Lemma text_ok_match_integer (s t r : str) :
  match_integer s = Some (t, r) -> text_ok s = true -> text_ok r = true.
Proof.
  unfold match_integer. intros H Hok.
  assert (forall r0, text_ok r0 = true ->
            match r0 with
            | [] => None
            | d :: r' =>
              if d =? 48 then Some ([d], r')
              else if is_digit d
                   then let (ds, r2) := span_digits r' in Some (d :: ds, r2)
                   else None
            end = Some (t, r) \/
            (exists sg,
             match r0 with
             | [] => None
             | d :: r' =>
               if d =? 48 then Some (sg ++ [d], r')
               else if is_digit d
                    then let (ds, r2) := span_digits r' in
                         Some (sg ++ d :: ds, r2)
                    else None
             end = Some (t, r)) ->
            text_ok r = true) as K.
  { intros [|d r'] Hr0 [E|[sg E]]; try discriminate;
      pose proof (text_ok_tail _ _ Hr0) as Hr';
      pose proof (text_ok_span_digits r' Hr') as Hsd;
      destruct (d =? 48); try (injection E as _ <-; exact Hr');
      destruct (is_digit d); try discriminate;
      destruct (span_digits r') as [ds r2];
      injection E as _ <-; exact Hsd. }
  destruct s as [|c s']; [discriminate|].
  destruct (c =? minus).
  - apply (K s' (text_ok_tail _ _ Hok)). right. now exists [c].
  - apply (K (c :: s') Hok). right. now exists [].
Qed.

Lemma text_ok_match_frac (s t r : str) :
  match_frac s = Some (t, r) -> text_ok s = true -> text_ok r = true.
Proof.
  unfold match_frac. destruct s as [|c s']; [discriminate|].
  intros H Hok. destruct (c =? 46); [|discriminate].
  pose proof (text_ok_span_digits s' (text_ok_tail _ _ Hok)) as Hsd.
  destruct (span_digits s') as [[|d ds] r2]; [discriminate|].
  injection H as _ <-. exact Hsd.
Qed.

Lemma text_ok_match_exp (s t r : str) :
  match_exp s = Some (t, r) -> text_ok s = true -> text_ok r = true.
Proof.
  unfold match_exp. destruct s as [|c s']; [discriminate|].
  intros H Hok. destruct ((c =? 101) || (c =? 69)); [|discriminate].
  pose proof (text_ok_tail _ _ Hok) as Hs'.
  assert (forall r1, text_ok r1 = true ->
            forall sg, (let (ds, r2) := span_digits r1 in
                        match ds with
                        | [] => None
                        | _ :: _ => Some (c :: sg ++ ds, r2)
                        end) = Some (t, r) -> text_ok r = true) as K.
  { intros r1 Hr1 sg E. pose proof (text_ok_span_digits r1 Hr1) as Hsd.
    destruct (span_digits r1) as [[|d ds] r2]; [discriminate|].
    injection E as _ <-. exact Hsd. }
  destruct s' as [|x r1]; [discriminate|].
  destruct ((x =? 45) || (x =? 43)).
  - apply (K r1 (text_ok_tail _ _ Hs') [x]). exact H.
  - apply (K (x :: r1) Hs' []). exact H.
Qed.

Section WellFormedLoads.
Context {F : PyFloat}.

Lemma scan_number_wf (s : str) (obj : pyobj) (r : str) :
  scan_number s = Some (obj, r) -> text_ok s = true ->
  well_formed obj /\ text_ok r = true.
Proof.
  unfold scan_number. intros H Hok.
  destruct (match_integer s) as [[i r1]|] eqn:Ei; [|discriminate].
  pose proof (text_ok_match_integer _ _ _ Ei Hok) as H1.
  assert (text_ok (snd match match_frac r1 with
                       | Some (f, r2) => (Some f, r2)
                       | None => (None, r1)
                       end) = true) as H2.
  { destruct (match_frac r1) as [[f r2]|] eqn:Ef; [|exact H1].
    exact (text_ok_match_frac _ _ _ Ef H1). }
  destruct (match match_frac r1 with
            | Some (f, r2) => (Some f, r2)
            | None => (None, r1)
            end) as [frac r2]. cbn [snd] in H2.
  assert (text_ok (snd match match_exp r2 with
                       | Some (e, r3) => (Some e, r3)
                       | None => (None, r2)
                       end) = true) as H3.
  { destruct (match_exp r2) as [[e r3]|] eqn:Ee; [|exact H2].
    exact (text_ok_match_exp _ _ _ Ee H2). }
  destruct (match match_exp r2 with
            | Some (e, r3) => (Some e, r3)
            | None => (None, r2)
            end) as [exp r3]. cbn [snd] in H3.
  destruct frac, exp; injection H as <- <-; split;
    try constructor; exact H3.
Qed.

Lemma scan_atom_wf (s : str) (obj : pyobj) (r : str) :
  scan_atom s = Some (obj, r) -> text_ok s = true ->
  well_formed obj /\ text_ok r = true.
Proof.
  unfold scan_atom. intros H Hok.
  repeat match type of H with
         | match strip_prefix ?p s with _ => _ end = _ =>
           let E := fresh "E" in
           destruct (strip_prefix p s) eqn:E;
             [injection H as <- <-; split;
              [constructor | exact (text_ok_strip_prefix _ _ _ E Hok)]|]
         | match scan_number s with _ => _ end = _ =>
           let E := fresh "E" in
           destruct (scan_number s) as [[o r']|] eqn:E;
             [injection H as <- <-; exact (scan_number_wf _ _ _ E Hok)|]
         end.
  discriminate.
Qed.

Lemma set_wf (pairs : PyDict.dict pyobj) (key : str) (value : pyobj) :
  Forall (fun kv => str_ok (fst kv) = true /\ well_formed (snd kv)) pairs ->
  str_ok key = true -> well_formed value ->
  Forall (fun kv => str_ok (fst kv) = true /\ well_formed (snd kv))
         (PyDict.set pairs key value).
Proof.
  intros Hall Hk Hv. induction pairs as [|[k w] pairs IH].
  - repeat constructor; assumption.
  - inversion Hall as [|? ? [Hk' Hw] Hrest]; subst. cbn [PyDict.set].
    destruct (PyStr.eqb k key).
    + constructor; [now split | exact Hrest].
    + constructor; [now split | now apply IH].
Qed.

(** What the decoder builds from a text of scalar values is well
    formed, whatever the fuel. *)
Lemma scan_wf (fuel : nat) :
  (forall s obj r,
      scan_once fuel s = Some (obj, r) -> text_ok s = true ->
      well_formed obj /\ text_ok r = true) /\
  (forall pairs s obj r,
      object_items fuel pairs s = Some (obj, r) -> text_ok s = true ->
      NoDup (List.map fst pairs) ->
      Forall (fun kv => str_ok (fst kv) = true /\ well_formed (snd kv))
             pairs ->
      well_formed obj /\ text_ok r = true) /\
  (forall values s obj r,
      array_items fuel values s = Some (obj, r) -> text_ok s = true ->
      Forall well_formed values ->
      well_formed obj /\ text_ok r = true).
Proof.
  induction fuel as [|fuel (IH1 & IH2 & IH3)];
    [repeat split; intros; discriminate|].
  split; [|split].
  - intros [|c r0] obj r H Hok; [discriminate|].
    cbn [scan_once] in H.
    pose proof (text_ok_tail _ _ Hok) as Hr0.
    pose proof (text_ok_skip_ws _ Hr0) as Hsk.
    destruct (c =? dquote).
    { destruct (scanstring r0) as [[t r']|] eqn:Es; [|discriminate].
      injection H as <- <-.
      destruct (scanstring_ok _ _ _ Es Hr0) as [Ht Hr'].
      split; [now constructor | exact Hr']. }
    destruct (c =? lbrace).
    { destruct (skip_ws r0) as [|c1 r1]; [discriminate|].
      pose proof (text_ok_tail _ _ Hsk) as Hr1.
      destruct (c1 =? rbrace).
      - injection H as <- <-.
        split; [constructor; constructor | exact Hr1].
      - destruct (c1 =? dquote); [|discriminate].
        apply (IH2 [] r1 obj r H Hr1); constructor. }
    destruct (c =? lbracket).
    { destruct (skip_ws r0) as [|c1 r1]; [discriminate|].
      destruct (c1 =? rbracket).
      - injection H as <- <-.
        split; [constructor; constructor | exact (text_ok_tail _ _ Hsk)].
      - apply (IH3 [] (c1 :: r1) obj r H Hsk). constructor. }
    exact (scan_atom_wf _ _ _ H Hok).
  - intros pairs s obj r H Hok Hnd Hall.
    cbn [object_items] in H.
    destruct (scanstring s) as [[key r0]|] eqn:Es; [|discriminate].
    destruct (scanstring_ok _ _ _ Es Hok) as [Hkey Hr0].
    pose proof (text_ok_skip_ws _ Hr0) as Hsk.
    destruct (skip_ws r0) as [|c r1]; [discriminate|].
    destruct (c =? colon); [|discriminate].
    pose proof (text_ok_skip_ws _ (text_ok_tail _ _ Hsk)) as Hsk1.
    destruct (scan_once fuel (skip_ws r1)) as [[value r2]|] eqn:Ev;
      [|discriminate].
    destruct (IH1 _ _ _ Ev Hsk1) as [Hvalue Hr2].
    pose proof (text_ok_skip_ws _ Hr2) as Hsk2.
    pose proof (set_wf pairs key value Hall Hkey Hvalue) as Hall'.
    pose proof (proj2 (proj2 (keys_set pairs key value)) Hnd) as Hnd'.
    destruct (skip_ws r2) as [|c2 r3]; [discriminate|].
    pose proof (text_ok_tail _ _ Hsk2) as Hr3.
    destruct (c2 =? rbrace).
    { injection H as <- <-. split; [now constructor | exact Hr3]. }
    destruct (c2 =? comma); [|discriminate].
    pose proof (text_ok_skip_ws _ Hr3) as Hsk3.
    destruct (skip_ws r3) as [|c3 r4]; [discriminate|].
    destruct (c3 =? dquote); [|discriminate].
    exact (IH2 _ _ _ _ H (text_ok_tail _ _ Hsk3) Hnd' Hall').
  - intros values s obj r H Hok Hall.
    cbn [array_items] in H.
    destruct (scan_once fuel s) as [[value r0]|] eqn:Ev; [|discriminate].
    destruct (IH1 _ _ _ Ev Hok) as [Hvalue Hr0].
    pose proof (text_ok_skip_ws _ Hr0) as Hsk.
    assert (Forall well_formed (values ++ [value])) as Hall'
        by (apply Forall_app; split; [exact Hall | now constructor]).
    destruct (skip_ws r0) as [|c r1]; [discriminate|].
    pose proof (text_ok_tail _ _ Hsk) as Hr1.
    destruct (c =? rbracket).
    { injection H as <- <-. split; [now constructor | exact Hr1]. }
    destruct (c =? comma); [|discriminate].
    exact (IH3 _ _ _ _ H (text_ok_skip_ws _ Hr1) Hall').
Qed.

(** [loads] of a text of scalar values gives a well-formed object. *)
Lemma loads_wf (s : str) (obj : pyobj) :
  loads s = Some obj -> text_ok s = true -> well_formed obj.
Proof.
  unfold loads. intros H Hok.
  destruct (startswith [65279] s); [discriminate|].
  destruct (scan_once (S (2 * List.length s)) (skip_ws s))
    as [[o r]|] eqn:E; [|discriminate].
  destruct (skip_ws r); [|discriminate]. injection H as <-.
  exact (proj1 (proj1 (scan_wf _) _ _ _ E (text_ok_skip_ws _ Hok))).
Qed.

(** A text that starts with a brace decodes to a dict. *)
Lemma loads_brace (t : str) (obj : pyobj) :
  loads (lbrace :: t) = Some obj -> exists d, obj = PDict d.
Proof.
  unfold loads. rewrite (skip_ws_head lbrace) by reflexivity.
  destruct (startswith [65279] (lbrace :: t)); [discriminate|].
  cbn [scan_once]. simpl (lbrace =? dquote). simpl (lbrace =? lbrace).
  cbv iota.
  assert (forall fuel pairs s o r,
             object_items fuel pairs s = Some (o, r) -> exists d, o = PDict d)
    as K.
  { induction fuel as [|fuel IH]; intros pairs s o r H; [discriminate|].
    cbn [object_items] in H.
    destruct (scanstring s) as [[key r0]|]; [|discriminate].
    destruct (skip_ws r0) as [|c r1]; [discriminate|].
    destruct (c =? colon); [|discriminate].
    destruct (scan_once fuel (skip_ws r1)) as [[value r2]|]; [|discriminate].
    destruct (skip_ws r2) as [|c2 r3]; [discriminate|].
    destruct (c2 =? rbrace); [injection H as <- _; eexists; reflexivity|].
    destruct (c2 =? comma); [|discriminate].
    destruct (skip_ws r3) as [|c3 r4]; [discriminate|].
    destruct (c3 =? dquote); [|discriminate].
    exact (IH _ _ _ _ H). }
  destruct (skip_ws t) as [|c1 r1]; [discriminate|].
  destruct (c1 =? rbrace).
  - destruct (skip_ws r1); [|discriminate].
    intros H. injection H as <-. now exists [].
  - destruct (c1 =? dquote); [|discriminate].
    destruct (object_items _ [] r1) as [[o r]|] eqn:E; [|discriminate].
    destruct (skip_ws r); [|discriminate].
    intros H. injection H as <-. exact (K _ _ _ _ _ E).
Qed.

End WellFormedLoads.

(** *** The fuel of the decoder is enough

    Every scanner leaves a shorter text than it was given, and a value
    nested in an object or an array costs two units of fuel, so more
    than [2 * len(s) + 1] units change nothing: the [None] of [loads]
    always stands for a decoding error. *)

Lemma skip_ws_length (s : str) :
  (List.length (skip_ws s) <= List.length s)%nat.
Proof.
  induction s as [|c s IH]; [reflexivity|]. cbn [skip_ws].
  destruct (is_ws c); cbn [List.length]; lia.
Qed.

Lemma decoded_from_length (x : N) (s s' : str) :
  decoded_from x s s' -> (List.length s' < List.length s)%nat.
Proof.
  intros [(-> & _) | [(e & -> & _) | [(h1 & h2 & h3 & h4 & -> & _)
         | (h1 & h2 & h3 & h4 & g1 & g2 & g3 & g4 & u & u2 & -> & _)]]];
    cbn [List.length]; lia.
Qed.

Lemma scanstring_shorter (s t r : str) :
  scanstring s = Some (t, r) -> (List.length r < List.length s)%nat.
Proof.
  remember (List.length s) as n eqn:Hn.
  revert s t r Hn. induction n as [n IH] using lt_wf_ind.
  intros s t r Hn H.
  destruct (scanstring_step s t r H)
    as [[_ ->] | (x & t' & s' & _ & H' & Hx)].
  - subst n. cbn [List.length]. lia.
  - apply decoded_from_length in Hx.
    pose proof (IH (List.length s') ltac:(lia) s' t' r eq_refl H'). lia.
Qed.

Lemma strip_prefix_length (p s r : str) :
  strip_prefix p s = Some r ->
  (List.length r + List.length p = List.length s)%nat.
Proof.
  revert s. induction p as [|a p IH]; intros [|b s] H;
    cbn [strip_prefix] in H; try discriminate;
    try (injection H as <-; cbn [List.length]; lia).
  destruct (a =? b); [|discriminate].
  apply IH in H. cbn [List.length]. lia.
Qed.

Lemma span_digits_length (s : str) :
  (List.length (snd (span_digits s)) <= List.length s)%nat.
Proof.
  induction s as [|c s IH]; [reflexivity|]. cbn [span_digits].
  destruct (is_digit c); [|reflexivity].
  destruct (span_digits s). cbn [snd List.length] in *. lia.
Qed.

Lemma match_integer_shorter (s t r : str) :
  match_integer s = Some (t, r) -> (List.length r < List.length s)%nat.
Proof.
  unfold match_integer. intros H.
  assert (forall r0 sg,
             match r0 with
             | [] => None
             | d :: r' =>
               if d =? 48 then Some (sg ++ [d], r')
               else if is_digit d
                    then let (ds, r2) := span_digits r' in
                         Some (sg ++ d :: ds, r2)
                    else None
             end = Some (t, r) ->
             (List.length r < List.length r0)%nat) as K.
  { intros [|d r'] sg E; [discriminate|].
    pose proof (span_digits_length r') as Hsd.
    destruct (d =? 48);
      [injection E as _ <-; cbn [List.length]; lia|].
    destruct (is_digit d); [|discriminate].
    destruct (span_digits r') as [ds r2].
    injection E as _ <-. cbn [snd List.length] in *. lia. }
  destruct s as [|c s']; [discriminate|].
  destruct (c =? minus).
  - pose proof (K s' [c] H). cbn [List.length]. lia.
  - exact (K (c :: s') [] H).
Qed.

Lemma match_frac_shorter (s t r : str) :
  match_frac s = Some (t, r) -> (List.length r < List.length s)%nat.
Proof.
  unfold match_frac. destruct s as [|c s']; [discriminate|].
  intros H. destruct (c =? 46); [|discriminate].
  pose proof (span_digits_length s') as Hsd.
  destruct (span_digits s') as [[|d ds] r2]; [discriminate|].
  injection H as _ <-. cbn [snd List.length] in *. lia.
Qed.

Lemma match_exp_shorter (s t r : str) :
  match_exp s = Some (t, r) -> (List.length r < List.length s)%nat.
Proof.
  unfold match_exp. destruct s as [|c s']; [discriminate|].
  intros H. destruct ((c =? 101) || (c =? 69)); [|discriminate].
  assert (forall r1 sg,
             (let (ds, r2) := span_digits r1 in
              match ds with
              | [] => None
              | _ :: _ => Some (c :: sg ++ ds, r2)
              end) = Some (t, r) ->
             (List.length r <= List.length r1)%nat) as K.
  { intros r1 sg E. pose proof (span_digits_length r1) as Hsd.
    destruct (span_digits r1) as [[|d ds] r2]; [discriminate|].
    injection E as _ <-. exact Hsd. }
  destruct s' as [|x r1]; [discriminate|].
  destruct ((x =? 45) || (x =? 43)).
  - pose proof (K r1 [x] H). cbn [List.length]. lia.
  - pose proof (K (x :: r1) [] H). cbn [List.length] in *. lia.
Qed.

Section Fuel.
Context {F : PyFloat}.

Lemma scan_number_shorter (s : str) (obj : pyobj) (r : str) :
  scan_number s = Some (obj, r) -> (List.length r < List.length s)%nat.
Proof.
  unfold scan_number. intros H.
  destruct (match_integer s) as [[i r1]|] eqn:Ei; [|discriminate].
  apply match_integer_shorter in Ei.
  assert (List.length (snd match match_frac r1 with
                           | Some (f, r2) => (Some f, r2)
                           | None => (None, r1)
                           end) <= List.length r1)%nat as H2.
  { destruct (match_frac r1) as [[f r2]|] eqn:Ef; [|reflexivity].
    apply match_frac_shorter in Ef. cbn [snd]. lia. }
  destruct (match match_frac r1 with
            | Some (f, r2) => (Some f, r2)
            | None => (None, r1)
            end) as [frac r2]. cbn [snd] in H2.
  assert (List.length (snd match match_exp r2 with
                           | Some (e, r3) => (Some e, r3)
                           | None => (None, r2)
                           end) <= List.length r2)%nat as H3.
  { destruct (match_exp r2) as [[e r3]|] eqn:Ee; [|reflexivity].
    apply match_exp_shorter in Ee. cbn [snd]. lia. }
  destruct (match match_exp r2 with
            | Some (e, r3) => (Some e, r3)
            | None => (None, r2)
            end) as [exp r3]. cbn [snd] in H3.
  destruct frac, exp; injection H as _ <-; lia.
Qed.

Lemma scan_atom_shorter (s : str) (obj : pyobj) (r : str) :
  scan_atom s = Some (obj, r) -> (List.length r < List.length s)%nat.
Proof.
  unfold scan_atom. intros H.
  repeat match type of H with
         | match strip_prefix ?p s with _ => _ end = _ =>
           let E := fresh "E" in
           destruct (strip_prefix p s) eqn:E;
             [injection H as _ <-; apply strip_prefix_length in E;
              cbn [List.length lit List.map list_ascii_of_string] in E; lia|]
         | match scan_number s with _ => _ end = _ =>
           let E := fresh "E" in
           destruct (scan_number s) as [[o r']|] eqn:E;
             [injection H as _ <-; exact (scan_number_shorter _ _ _ E)|]
         end.
  discriminate.
Qed.

(** What is left behind a value is shorter than the text. *)
Lemma scan_shorter (fuel : nat) :
  (forall s obj r,
      scan_once fuel s = Some (obj, r) ->
      (List.length r < List.length s)%nat) /\
  (forall pairs s obj r,
      object_items fuel pairs s = Some (obj, r) ->
      (List.length r < List.length s)%nat) /\
  (forall values s obj r,
      array_items fuel values s = Some (obj, r) ->
      (List.length r < List.length s)%nat).
Proof.
  induction fuel as [|fuel (IH1 & IH2 & IH3)];
    [repeat split; intros; discriminate|].
  split; [|split].
  - intros [|c r0] obj r H; [discriminate|].
    cbn [scan_once] in H. pose proof (skip_ws_length r0) as Hsk.
    destruct (c =? dquote).
    { destruct (scanstring r0) as [[t r']|] eqn:Es; [|discriminate].
      injection H as _ <-. apply scanstring_shorter in Es.
      cbn [List.length]. lia. }
    destruct (c =? lbrace).
    { destruct (skip_ws r0) as [|c1 r1]; [discriminate|].
      cbn [List.length] in *.
      destruct (c1 =? rbrace); [injection H as _ <-; lia|].
      destruct (c1 =? dquote); [|discriminate].
      apply IH2 in H. lia. }
    destruct (c =? lbracket).
    { destruct (skip_ws r0) as [|c1 r1]; [discriminate|].
      destruct (c1 =? rbracket);
        [injection H as _ <-; cbn [List.length] in *; lia|].
      apply IH3 in H. cbn [List.length] in *. lia. }
    exact (scan_atom_shorter _ _ _ H).
  - intros pairs s obj r H. cbn [object_items] in H.
    destruct (scanstring s) as [[key r0]|] eqn:Es; [|discriminate].
    apply scanstring_shorter in Es.
    pose proof (skip_ws_length r0) as Hsk.
    destruct (skip_ws r0) as [|c r1]; [discriminate|].
    destruct (c =? colon); [|discriminate].
    pose proof (skip_ws_length r1) as Hsk1.
    destruct (scan_once fuel (skip_ws r1)) as [[value r2]|] eqn:Ev;
      [|discriminate].
    apply IH1 in Ev. pose proof (skip_ws_length r2) as Hsk2.
    destruct (skip_ws r2) as [|c2 r3]; [discriminate|].
    cbn [List.length] in *.
    destruct (c2 =? rbrace); [injection H as _ <-; lia|].
    destruct (c2 =? comma); [|discriminate].
    pose proof (skip_ws_length r3) as Hsk3.
    destruct (skip_ws r3) as [|c3 r4]; [discriminate|].
    destruct (c3 =? dquote); [|discriminate].
    apply IH2 in H. cbn [List.length] in *. lia.
  - intros values s obj r H. cbn [array_items] in H.
    destruct (scan_once fuel s) as [[value r0]|] eqn:Ev; [|discriminate].
    apply IH1 in Ev. pose proof (skip_ws_length r0) as Hsk.
    destruct (skip_ws r0) as [|c r1]; [discriminate|].
    cbn [List.length] in *.
    destruct (c =? rbracket); [injection H as _ <-; lia|].
    destruct (c =? comma); [|discriminate].
    apply IH3 in H. pose proof (skip_ws_length r1). lia.
Qed.

(** More fuel than the text needs changes nothing. *)
Lemma scan_fuel_stable (fuel : nat) :
  (forall s k,
      (2 * List.length s < fuel)%nat ->
      scan_once (fuel + k) s = scan_once fuel s) /\
  (forall pairs s k,
      (2 * List.length s + 3 < fuel)%nat ->
      object_items (fuel + k) pairs s = object_items fuel pairs s) /\
  (forall values s k,
      (2 * List.length s + 1 < fuel)%nat ->
      array_items (fuel + k) values s = array_items fuel values s).
Proof.
  induction fuel as [|fuel (IH1 & IH2 & IH3)];
    [repeat split; intros; lia|].
  split; [|split].
  - intros [|c r0] k Hf; [reflexivity|].
    cbn [Nat.add scan_once]. cbn [List.length] in Hf.
    pose proof (skip_ws_length r0) as Hsk.
    destruct (c =? dquote); [reflexivity|].
    destruct (c =? lbrace).
    { destruct (skip_ws r0) as [|c1 r1]; [reflexivity|].
      cbn [List.length] in Hsk.
      destruct (c1 =? rbrace); [reflexivity|].
      destruct (c1 =? dquote); [|reflexivity].
      apply IH2. lia. }
    destruct (c =? lbracket); [|reflexivity].
    destruct (skip_ws r0) as [|c1 r1]; [reflexivity|].
    destruct (c1 =? rbracket); [reflexivity|].
    apply IH3. lia.
  - intros pairs s k Hf. cbn [Nat.add object_items].
    destruct (scanstring s) as [[key r0]|] eqn:Es; [|reflexivity].
    apply scanstring_shorter in Es.
    pose proof (skip_ws_length r0) as Hsk.
    destruct (skip_ws r0) as [|c r1]; [reflexivity|].
    destruct (c =? colon); [|reflexivity].
    pose proof (skip_ws_length r1) as Hsk1.
    cbn [List.length] in Hsk.
    rewrite IH1 by lia.
    destruct (scan_once fuel (skip_ws r1)) as [[value r2]|] eqn:Ev;
      [|reflexivity].
    apply (proj1 (scan_shorter fuel)) in Ev.
    pose proof (skip_ws_length r2) as Hsk2.
    destruct (skip_ws r2) as [|c2 r3]; [reflexivity|].
    cbn [List.length] in Hsk2.
    destruct (c2 =? rbrace); [reflexivity|].
    destruct (c2 =? comma); [|reflexivity].
    pose proof (skip_ws_length r3) as Hsk3.
    destruct (skip_ws r3) as [|c3 r4]; [reflexivity|].
    cbn [List.length] in Hsk3.
    destruct (c3 =? dquote); [|reflexivity].
    apply IH2. lia.
  - intros values s k Hf. cbn [Nat.add array_items].
    rewrite IH1 by lia.
    destruct (scan_once fuel s) as [[value r0]|] eqn:Ev; [|reflexivity].
    apply (proj1 (scan_shorter fuel)) in Ev.
    pose proof (skip_ws_length r0) as Hsk.
    destruct (skip_ws r0) as [|c r1]; [reflexivity|].
    cbn [List.length] in Hsk.
    destruct (c =? rbracket); [reflexivity|].
    destruct (c =? comma); [|reflexivity].
    apply IH3. pose proof (skip_ws_length r1). lia.
Qed.

(** [loads] gives the same result with any larger amount of fuel. *)
Lemma loads_fuel (s : str) (k : nat) :
  scan_once (S (2 * List.length s) + k) (skip_ws s)
  = scan_once (S (2 * List.length s)) (skip_ws s).
Proof.
  apply (proj1 (scan_fuel_stable _)).
  pose proof (skip_ws_length s). lia.
Qed.

End Fuel.

End JsonFacts.









(** ** The spans handed to [json.loads] *)

Module ExtractFacts.
Import BracePattern.

Lemma text_ok_prefix (p s : str) :
  Json.text_ok (p ++ s) = true -> Json.text_ok p = true.
Proof.
  unfold Json.text_ok. rewrite forallb_app. intros H.
  now apply andb_true_iff in H.
Qed.

(** Every span that [findall] returns starts with a brace and is a
    piece of the text. *)
Lemma findall_spans (s m : str) :
  In m (findall s) ->
  (exists t, m = lbrace :: t) /\
  (Json.text_ok s = true -> Json.text_ok m = true).
Proof.
  remember (List.length s) as n eqn:Hn.
  revert s Hn. induction n as [n IH] using lt_wf_ind. intros s Hn Hin.
  destruct s as [|c s']; [contradiction|].
  rewrite BracePatternFacts.findall_cons in Hin.
  destruct (match_at (c :: s')) as [[m0 rest]|] eqn:E.
  - pose proof (BracePatternFacts.match_at_split _ _ _ E) as [Es Hm0].
    destruct Hin as [<-|Hin].
    + split.
      * unfold match_at in E. destruct (c =? lbrace) eqn:Ec; [|discriminate].
        apply N.eqb_eq in Ec. subst c.
        destruct (close_span 0 s') as [[b r]|]; [|discriminate].
        injection E as <- _. now eexists.
      * rewrite Es. apply text_ok_prefix.
    + assert (List.length rest < n)%nat as Hlt.
      { subst n. rewrite Es, length_app.
        destruct m0; [congruence | simpl; lia]. }
      destruct (IH _ Hlt rest eq_refl Hin) as [H1 H2].
      split; [exact H1|]. intros Hok. apply H2.
      rewrite Es in Hok. now apply JsonFacts.text_ok_app in Hok.
  - assert (List.length s' < n)%nat as Hlt by (subst n; simpl; lia).
    destruct (IH _ Hlt s' eq_refl Hin) as [H1 H2].
    split; [exact H1|]. intros Hok. apply H2.
    now apply JsonFacts.text_ok_tail in Hok.
Qed.

Section Extract.
Context {E : External}.

(** Every extracted object is what [json.loads] made of a span. *)
Lemma extract_json_strings_in (text : str) (obj : pyobj) :
  In obj (QwenCompletionLLM.extract_json_strings text) ->
  exists m, In m (findall text) /\ Json.loads m = Some obj.
Proof.
  unfold QwenCompletionLLM.extract_json_strings.
  rewrite in_flat_map. intros (m & Hm & Hobj). exists m. split; [exact Hm|].
  destruct (Json.loads m) as [o|]; [|contradiction].
  destruct Hobj as [<-|[]]. reflexivity.
Qed.

(** An object extracted from a text of scalar values is a well-formed
    dict, which [json.loads] reads back from what [json.dumps] writes. *)
Lemma extracted_roundtrip (text : str) (obj : pyobj) :
  Json.float_reads_back ->
  Json.text_ok text = true ->
  In obj (QwenCompletionLLM.extract_json_strings text) ->
  Json.loads (Json.dumps obj) = Some obj.
Proof.
  intros Hfloat Hok Hin.
  destruct (extract_json_strings_in text obj Hin) as (m & Hm & Hloads).
  destruct (findall_spans text m Hm) as [[t ->] Hokm].
  destruct (JsonFacts.loads_brace t obj Hloads) as [d ->].
  apply (JsonFacts.loads_dumps_dict Hfloat).
  exact (JsonFacts.loads_wf _ _ Hloads (Hokm Hok)).
Qed.

End Extract.

(** The sample float type keeps the contract of [float_reads_back]. *)
Lemma unit_float_reads_back : @Json.float_reads_back Sample.unit_float.
Proof.
  intros [] fuel rest Hterm.
  destruct (JsonFacts.terminated_head rest Hterm)
    as [->|(c & r & -> & Hd & Hdot & He)]; [reflexivity|].
  change (@float_str Sample.unit_float tt) with [48; 46; 48].
  cbn [app]. rewrite JsonFacts.scan_once_atom by reflexivity.
  unfold Json.scan_atom.
  change (Json.strip_prefix (lit "null") (48 :: 46 :: 48 :: c :: r)) with (@None str).
  change (Json.strip_prefix (lit "true") (48 :: 46 :: 48 :: c :: r)) with (@None str).
  change (Json.strip_prefix (lit "false") (48 :: 46 :: 48 :: c :: r)) with (@None str).
  cbv iota.
  unfold Json.scan_number.
  change (Json.match_integer (48 :: 46 :: 48 :: c :: r))
    with (Some ([48], 46 :: 48 :: c :: r)).
  cbv iota beta.
  assert (Json.match_frac (46 :: 48 :: c :: r) = Some ([46; 48], c :: r))
    as ->.
  { unfold Json.match_frac. simpl (46 =? 46). cbv iota.
    change (Json.span_digits (48 :: c :: r))
      with (let (ds, r0) := Json.span_digits (c :: r) in (48 :: ds, r0)).
    now rewrite (JsonFacts.span_digits_nondigit _ Hterm). }
  rewrite (JsonFacts.match_exp_terminated _ Hterm). reflexivity.
Qed.

End ExtractFacts.

(** ** More on [str.replace] and the substitution passes *)

Module ReplaceFacts.
Import Placeholders PlaceholderFacts.

(** Replacing a text by itself gives the text back. *)
Lemma replace_scan_same (old s : str) :
  old <> [] -> replace_scan old old 0 s = s.
Proof.
  intros Hold. remember (List.length s) as n eqn:Hn. revert s Hn.
  induction n as [n IH] using lt_wf_ind. intros s Hn.
  destruct s as [|c s']; [reflexivity|].
  destruct (startswith old (c :: s')) eqn:E.
  - rewrite (replace_scan_hit old old _ Hold E).
    pose proof (startswith_split _ _ E) as Hs.
    rewrite (IH (List.length (skipn (List.length old) (c :: s'))));
      [now rewrite <- Hs | | reflexivity].
    rewrite length_skipn. subst n.
    destruct old; [congruence|]. simpl. lia.
  - rewrite (replace_scan_miss _ _ _ _ E). f_equal.
    apply (IH (List.length s')); [subst; simpl; lia | reflexivity].
Qed.

Lemma replace_same (s old : str) : replace s old old = s.
Proof.
  destruct old as [|c old].
  - simpl. induction s as [|x s IH]; simpl; congruence.
  - apply replace_scan_same. discriminate.
Qed.

(** The scan passes over a text in which the first code point of [old]
    does not occur. *)
Lemma replace_scan_literal (c : N) (old' new piece t : str) :
  char_in c piece = false ->
  replace_scan (c :: old') new 0 (piece ++ t)
  = piece ++ replace_scan (c :: old') new 0 t.
Proof.
  induction piece as [|x piece IH]; intros H; [reflexivity|].
  simpl in H. apply orb_false_iff in H as [Hx H].
  rewrite <- app_comm_cons. rewrite replace_scan_miss.
  - rewrite (IH H). reflexivity.
  - simpl. now rewrite Hx.
Qed.

(** The scan replaces an occurrence at its start and goes on behind
    it. *)
Lemma replace_scan_here (old new t : str) :
  old <> [] ->
  replace_scan old new 0 (old ++ t) = new ++ replace_scan old new 0 t.
Proof.
  intros Hold. rewrite (replace_scan_hit old new _ Hold (startswith_app _ _)).
  now rewrite skipn_app, skipn_all, Nat.sub_diag.
Qed.

(** A template: pieces without an opening brace, joined by the
    placeholder. *)
Lemma replace_join (key value : str) (pieces : list str) :
  Forall (fun piece => char_in lbrace piece = false) pieces ->
  replace (Json.join (placeholder key) pieces) (placeholder key) value
  = Json.join value pieces.
Proof.
  intros H. rewrite replace_placeholder.
  induction H as [|piece rest Hp Hrest IH]; [reflexivity|].
  destruct rest as [|piece' rest].
  - cbn [Json.join]. rewrite <- (app_nil_r piece) at 1.
    rewrite placeholder_cons, replace_scan_literal by exact Hp.
    apply app_nil_r.
  - change (Json.join (placeholder key) (piece :: piece' :: rest))
      with (piece ++ placeholder key
                  ++ Json.join (placeholder key) (piece' :: rest)).
    change (Json.join value (piece :: piece' :: rest))
      with (piece ++ value ++ Json.join value (piece' :: rest)).
    rewrite <- IH.
    rewrite placeholder_cons at 1.
    rewrite replace_scan_literal by exact Hp.
    rewrite <- placeholder_cons.
    now rewrite (replace_scan_here _ _ _ (placeholder_nonempty key)).
Qed.

(** Every code point of a text that occurs in [s] is in [s]. *)
Lemma str_in_chars (p s : str) :
  str_in p s = true -> forall c, In c p -> In c s.
Proof.
  induction s as [|x s IH]; intros H c Hc.
  - destruct p; [contradiction | discriminate].
  - rewrite str_in_cons in H. apply orb_true_iff in H as [H|H].
    + rewrite (startswith_split _ _ H). apply in_or_app. now left.
    + right. now apply IH.
Qed.

Lemma placeholder_needs_braces (key s : str) :
  char_in lbrace s = false \/ char_in rbrace s = false ->
  str_in (placeholder key) s = false.
Proof.
  intros H. destruct (str_in (placeholder key) s) eqn:E; [|reflexivity].
  pose proof (str_in_chars _ _ E) as Hin.
  rewrite placeholder_cons in Hin.
  destruct H as [H|H].
  - assert (Hl : char_in lbrace s = true)
      by (apply char_in_spec, Hin; now left).
    congruence.
  - assert (Hr : char_in rbrace s = true).
    { apply char_in_spec, Hin. right. apply in_or_app. right. now left. }
    congruence.
Qed.

End ReplaceFacts.

(** ** More on the scan of [findall] and on [extract_json_strings] *)

Module ScanFacts.
Import BracePattern BracePatternFacts.

(** A span is closed by a closing brace. *)
Lemma close_span_rbrace (s : str) :
  forall depth m r, close_span depth s = Some (m, r) -> In rbrace s.
Proof.
  induction s as [|c s IH]; intros depth m r H; [discriminate|].
  simpl in H. destruct (c =? rbrace) eqn:Ec.
  - apply N.eqb_eq in Ec. now left.
  - right. destruct (c =? lbrace).
    + destruct (close_span (S depth) s) as [[m' r']|] eqn:E; [|discriminate].
      exact (IH _ _ _ E).
    + destruct (close_span depth s) as [[m' r']|] eqn:E; [|discriminate].
      exact (IH _ _ _ E).
Qed.

(** A match needs an opening and a closing brace. *)
Lemma match_at_braces (s m r : str) :
  match_at s = Some (m, r) -> In lbrace s /\ In rbrace s.
Proof.
  destruct s as [|c s]; [discriminate|]. simpl.
  destruct (c =? lbrace) eqn:Ec; [|discriminate].
  apply N.eqb_eq in Ec. intros H.
  destruct (close_span 0 s) as [[m' r']|] eqn:E; [|discriminate].
  split; [now left | right; exact (close_span_rbrace _ _ _ _ E)].
Qed.

Lemma findall_needs_braces (s : str) :
  char_in lbrace s = false \/ char_in rbrace s = false -> findall s = [].
Proof.
  induction s as [|c s IH]; intros H; [reflexivity|].
  rewrite findall_cons.
  destruct (match_at (c :: s)) as [[m r]|] eqn:E.
  - destruct (match_at_braces _ _ _ E) as [Hl Hr].
    apply PlaceholderFacts.char_in_spec in Hl, Hr.
    destruct H; congruence.
  - apply IH. simpl in H.
    destruct H as [H|H]; apply orb_false_iff in H as [_ H]; auto.
Qed.

(** Every span that [findall] returns is a match of the pattern and a
    piece of the text. *)
Lemma findall_pieces (s m : str) :
  In m (findall s) ->
  json_pattern m /\ exists a b, s = a ++ m ++ b.
Proof.
  remember (List.length s) as n eqn:Hn.
  revert s Hn. induction n as [n IH] using lt_wf_ind. intros s Hn Hin.
  destruct s as [|c s']; [contradiction|].
  rewrite findall_cons in Hin.
  destruct (match_at (c :: s')) as [[m0 rest]|] eqn:E.
  - pose proof (match_at_split _ _ _ E) as [Es Hm0].
    destruct Hin as [<-|Hin].
    + split; [exact (match_at_sound _ _ _ E)|].
      exists [], rest. exact Es.
    + assert (Hlt : (List.length rest < n)%nat).
      { subst n. rewrite Es, length_app.
        destruct m0; [congruence | simpl; lia]. }
      destruct (IH _ Hlt rest eq_refl Hin) as [Hp (a & b & Hab)].
      split; [exact Hp|]. exists (m0 ++ a), b.
      now rewrite Es, Hab, <- app_assoc.
  - assert (Hlt : (List.length s' < n)%nat) by (subst n; simpl; lia).
    destruct (IH _ Hlt s' eq_refl Hin) as [Hp (a & b & Hab)].
    split; [exact Hp|]. exists (c :: a), b. now rewrite Hab.
Qed.

(** The spans do not overlap: together they are no longer than the
    text. *)
Lemma findall_length (s : str) :
  (List.length (List.concat (findall s)) <= List.length s)%nat.
Proof.
  remember (List.length s) as n eqn:Hn.
  revert s Hn. induction n as [n IH] using lt_wf_ind. intros s Hn.
  destruct s as [|c s']; [simpl; lia|].
  rewrite findall_cons.
  destruct (match_at (c :: s')) as [[m0 rest]|] eqn:E.
  - pose proof (match_at_split _ _ _ E) as [Es Hm0].
    assert (Hlen : n = (List.length m0 + List.length rest)%nat)
      by (now rewrite Hn, Es, length_app).
    assert (Hlt : (List.length rest < n)%nat)
      by (destruct m0; [congruence | simpl in Hlen; lia]).
    pose proof (IH _ Hlt rest eq_refl) as Hrest.
    cbn [List.concat]. rewrite length_app. lia.
  - assert (Hlt : (List.length s' < n)%nat) by (subst n; simpl; lia).
    pose proof (IH _ Hlt s' eq_refl) as Hrest. subst n. simpl. lia.
Qed.

End ScanFacts.

(** ** The substitution on templates *)

Module TemplateFacts.
Import Placeholders PlaceholderFacts.

Lemma render_cons (t : token) (template : list token) :
  render (t :: template) = render_token t ++ render template.
Proof. reflexivity. Qed.

(** A placeholder stands at the start of a text that starts with a
    placeholder exactly when the keys are the same. *)
Lemma startswith_key (k k' r : str) :
  char_in rbrace k = false -> char_in rbrace k' = false ->
  startswith (k ++ [rbrace]) (k' ++ rbrace :: r) = PyStr.eqb k k'.
Proof.
  unfold char_in.
  revert k'. induction k as [|x k IH]; intros [|y k'] Hk Hk';
    cbn [existsb] in Hk, Hk'; cbn [app startswith PyStr.eqb].
  - now rewrite N.eqb_refl.
  - apply orb_false_iff in Hk' as [Hy _]. now rewrite Hy.
  - apply orb_false_iff in Hk as [Hx _].
    rewrite N.eqb_sym. now rewrite Hx.
  - apply orb_false_iff in Hk as [_ Hk].
    apply orb_false_iff in Hk' as [_ Hk'].
    now rewrite (IH k' Hk Hk').
Qed.

Lemma startswith_placeholder (k k' r : str) :
  brace_free k = true -> brace_free k' = true ->
  startswith (placeholder k) (placeholder k' ++ r) = PyStr.eqb k k'.
Proof.
  unfold brace_free. intros Hk Hk'.
  apply andb_true_iff in Hk as [_ Hk]. apply andb_true_iff in Hk' as [_ Hk'].
  apply negb_true_iff in Hk, Hk'.
  rewrite !placeholder_cons. rewrite <- app_comm_cons, <- app_assoc.
  cbn [startswith app]. rewrite N.eqb_refl.
  apply (startswith_key k k' r Hk Hk').
Qed.

(** The key and the closing brace of a placeholder hold no opening
    brace. *)
Lemma key_no_open (k : str) :
  brace_free k = true -> char_in lbrace (k ++ [rbrace]) = false.
Proof.
  unfold brace_free. intros H. apply andb_true_iff in H as [H _].
  apply negb_true_iff in H. unfold char_in in *.
  rewrite existsb_app, H. reflexivity.
Qed.

(** An occurrence of a text that starts with [c] is not in front of a
    piece without [c]. *)
Lemma str_in_literal (c : N) (q piece r : str) :
  char_in c piece = false ->
  str_in (c :: q) (piece ++ r) = str_in (c :: q) r.
Proof.
  induction piece as [|x piece IH]; intros H; [reflexivity|].
  simpl in H. apply orb_false_iff in H as [Hx H].
  rewrite <- app_comm_cons, str_in_cons. cbn [startswith].
  rewrite Hx. cbn [andb orb]. now apply IH.
Qed.

(** One pass of [str.replace] over a template. *)
Lemma replace_template (key value : str) (template : list token) :
  brace_free key = true ->
  forallb token_ok template = true ->
  replace (render template) (placeholder key) value
  = render (List.map (fill_one key value) template).
Proof.
  intros Hkey H. rewrite replace_placeholder.
  induction template as [|t template IH]; [reflexivity|].
  cbn [forallb] in H. apply andb_true_iff in H as [Ht H].
  specialize (IH H). cbn [List.map]. rewrite !render_cons.
  destruct t as [piece|k]; cbn [token_ok render_token fill_one] in *.
  - rewrite placeholder_cons, ReplaceFacts.replace_scan_literal
      by (now apply negb_true_iff).
    rewrite <- placeholder_cons. now rewrite IH.
  - destruct (PyStr.eqb key k) eqn:Ek.
    + apply JsonFacts.eqb_spec in Ek. subst k. cbn [render_token].
      rewrite (ReplaceFacts.replace_scan_here _ _ _ (placeholder_nonempty key)).
      now rewrite IH.
    + cbn [render_token].
      assert (Hmiss : startswith (placeholder key)
                                 (placeholder k ++ render template) = false)
        by (now rewrite startswith_placeholder).
      rewrite (placeholder_cons k) in Hmiss |- *.
      rewrite <- app_comm_cons in Hmiss |- *.
      rewrite (replace_scan_miss _ _ _ _ Hmiss). f_equal.
      rewrite placeholder_cons at 1.
      rewrite ReplaceFacts.replace_scan_literal by (now apply key_no_open).
      rewrite <- placeholder_cons. now rewrite IH.
Qed.

Lemma fill_one_ok (key value : str) (template : list token) :
  no_open value = true ->
  forallb token_ok template = true ->
  forallb token_ok (List.map (fill_one key value) template) = true.
Proof.
  intros Hv H. rewrite forallb_forall in *. intros t Ht.
  apply in_map_iff in Ht as (t0 & <- & Ht0). specialize (H t0 Ht0).
  destruct t0 as [piece|k]; [exact H|]. cbn [fill_one].
  now destruct (PyStr.eqb key k).
Qed.

Lemma fill_cons (key value : str) (rest : PyDict.dict str) (t : token) :
  fill rest (fill_one key value t) = fill ((key, value) :: rest) t.
Proof.
  destruct t as [piece|k]; [reflexivity|]. cbn [fill_one fill PyDict.get].
  now destruct (PyStr.eqb key k).
Qed.

(** All the passes over a template. *)
Lemma replace_placeholders_template (variables : PyDict.dict str) :
  plain_mapping variables = true ->
  forall template,
    forallb token_ok template = true ->
    replace_placeholders (render template) variables
    = render (List.map (fill variables) template).
Proof.
  induction variables as [|[key value] rest IH]; intros Hplain template Hok.
  - cbn [replace_placeholders]. f_equal. clear Hok.
    induction template as [|[piece|k] template IHt];
      cbn [List.map fill PyDict.get]; congruence.
  - cbn [plain_mapping forallb fst snd] in Hplain.
    apply andb_true_iff in Hplain as [Hkv Hplain].
    apply andb_true_iff in Hkv as [Hkey Hvalue].
    cbn [replace_placeholders].
    rewrite (replace_template key value template Hkey Hok).
    rewrite (IH Hplain _ (fill_one_ok key value template Hvalue Hok)).
    f_equal. rewrite map_map. apply map_ext. intros t. apply fill_cons.
Qed.

(** The placeholders that occur in the text of a template are its
    placeholder tokens. *)
Lemma str_in_render (key : str) (template : list token) :
  brace_free key = true ->
  forallb token_ok template = true ->
  str_in (placeholder key) (render template)
  = existsb (is_hole key) template.
Proof.
  intros Hkey H.
  induction template as [|t template IH].
  - change (str_in (placeholder key) [] = false).
    rewrite placeholder_cons. reflexivity.
  - cbn [forallb] in H. apply andb_true_iff in H as [Ht H].
    specialize (IH H). rewrite render_cons. cbn [existsb].
    destruct t as [piece|k]; cbn [token_ok render_token is_hole] in *.
    + rewrite placeholder_cons, str_in_literal by (now apply negb_true_iff).
      rewrite <- placeholder_cons. exact IH.
    + pose proof (startswith_placeholder key k (render template) Hkey Ht)
        as Hstart.
      rewrite (placeholder_cons k) in Hstart |- *.
      rewrite <- app_comm_cons in Hstart |- *.
      rewrite str_in_cons, Hstart. f_equal.
      rewrite placeholder_cons at 1.
      rewrite str_in_literal by (now apply key_no_open).
      rewrite <- placeholder_cons. exact IH.
Qed.

Lemma get_key (variables : PyDict.dict str) (key : str) :
  In key (PyDict.keys variables) ->
  exists value, PyDict.get variables key = Some value.
Proof.
  induction variables as [|[k v] rest IH]; intros H; [contradiction|].
  cbn [PyDict.get]. destruct (PyStr.eqb k key) eqn:E; [now exists v|].
  destruct H as [H|H]; [|now apply IH].
  cbn in H. subst k. now rewrite JsonFacts.eqb_refl in E.
Qed.

(** No placeholder of a key of the mapping is left in a filled
    template. *)
Lemma filled_no_hole (variables : PyDict.dict str) (key : str)
      (template : list token) :
  In key (PyDict.keys variables) ->
  existsb (is_hole key) (List.map (fill variables) template) = false.
Proof.
  intros Hin. destruct (get_key variables key Hin) as [value Hget].
  induction template as [|t template IH]; [reflexivity|].
  cbn [List.map existsb]. rewrite IH, orb_false_r.
  destruct t as [piece|k]; [reflexivity|]. cbn [fill].
  destruct (PyDict.get variables k) as [v|] eqn:Hk; [reflexivity|].
  cbn [is_hole]. destruct (PyStr.eqb key k) eqn:E; [|reflexivity].
  apply JsonFacts.eqb_spec in E. congruence.
Qed.

Lemma plain_mapping_key (variables : PyDict.dict str) (key : str) :
  plain_mapping variables = true ->
  In key (PyDict.keys variables) -> brace_free key = true.
Proof.
  intros H Hin. apply in_map_iff in Hin as ([k v] & <- & Hkv).
  unfold plain_mapping in H. rewrite forallb_forall in H.
  specialize (H _ Hkv). now apply andb_true_iff in H as [H _].
Qed.

Lemma fill_ok (variables : PyDict.dict str) (template : list token) :
  plain_mapping variables = true ->
  forallb token_ok template = true ->
  forallb token_ok (List.map (fill variables) template) = true.
Proof.
  intros Hplain H. rewrite forallb_forall in *. intros t Ht.
  apply in_map_iff in Ht as (t0 & <- & Ht0). specialize (H t0 Ht0).
  destruct t0 as [piece|k]; [exact H|]. cbn [fill].
  destruct (PyDict.get variables k) as [v|] eqn:Hk; [|exact H].
  cbn [token_ok]. clear -Hplain Hk.
  induction variables as [|[k0 v0] rest IH]; [discriminate|].
  cbn [plain_mapping forallb fst snd] in Hplain.
  apply andb_true_iff in Hplain as [Hkv Hplain].
  apply andb_true_iff in Hkv as [_ Hv0].
  cbn [PyDict.get] in Hk. destruct (PyStr.eqb k0 k).
  - now injection Hk as <-.
  - now apply IH.
Qed.

(** The text around a placeholder can spell another one: with the
    items [name: Bob] and [x: am], whose keys and values hold no brace,
    the text [{n{x}e}], which is no template, becomes [{name}]. *)
Example nested_braces_demo :
  replace_placeholders (lit "{n{x}e}")
                       [(lit "name", lit "Bob"); (lit "x", lit "am")]
  = lit "{name}".
Proof. reflexivity. Qed.

End TemplateFacts.

(** ** The substitution on texts with braces of their own *)

Module SafeTextFacts.
Import Placeholders PlaceholderFacts.

Section Pass.
Variables key value : str.
Hypothesis Hvalue : no_open value = true.

Local Notation "'out'" := (replace_scan (placeholder key) value 0).

(** The scan passes over a code point that is no opening brace. *)
Lemma out_other (c : N) (s : str) :
  (c =? lbrace) = false -> out (c :: s) = c :: out s.
Proof.
  intros Hc. apply replace_scan_miss.
  rewrite placeholder_cons. cbn [startswith].
  rewrite N.eqb_sym. now rewrite Hc.
Qed.

(** What stands behind an opening brace reads the same after the pass,
    as far as a placeholder reaches. *)
Lemma startswith_out (k' s : str) :
  char_in rbrace k' = false -> clash k' s = false ->
  startswith (k' ++ [rbrace]) (out s) = startswith (k' ++ [rbrace]) s.
Proof.
  unfold char_in. revert k'.
  induction s as [|c s IH]; intros k' Hk' Hclash; [reflexivity|].
  cbn [clash] in Hclash.
  destruct (c =? lbrace) eqn:Hl; [discriminate|].
  rewrite (out_other c s Hl).
  destruct (c =? rbrace) eqn:Hr.
  - apply N.eqb_eq in Hr. subst c.
    destruct k' as [|x k'']; cbn [app startswith].
    + now rewrite N.eqb_refl.
    + cbn [existsb] in Hk'. apply orb_false_iff in Hk' as [Hx _].
      rewrite N.eqb_sym. now rewrite Hx.
  - destruct k' as [|x k'']; cbn [app startswith].
    + now rewrite N.eqb_sym, Hr.
    + destruct (x =? c); [|reflexivity]. cbn [andb] in Hclash |- *.
      cbn [existsb] in Hk'. apply orb_false_iff in Hk' as [_ Hk'].
      now apply IH.
Qed.

Lemma clash_out (k' s : str) :
  clash k' s = false -> clash k' (out s) = false.
Proof.
  revert k'. induction s as [|c s IH]; intros k' Hclash; [reflexivity|].
  cbn [clash] in Hclash.
  destruct (c =? lbrace) eqn:Hl; [discriminate|].
  rewrite (out_other c s Hl). cbn [clash]. rewrite Hl.
  destruct (c =? rbrace); [reflexivity|].
  destruct k' as [|x k'']; [reflexivity|].
  destruct (x =? c); [|reflexivity]. cbn [andb] in Hclash |- *.
  now apply IH.
Qed.

Lemma safe_for_app_r (k' a t : str) :
  safe_for k' (a ++ t) = true -> safe_for k' t = true.
Proof.
  induction a as [|c a IH]; intros H; [exact H|].
  cbn [app safe_for] in H. apply andb_true_iff in H as [_ H]. now apply IH.
Qed.

Lemma safe_for_literal (k' a t : str) :
  char_in lbrace a = false -> safe_for k' t = true ->
  safe_for k' (a ++ t) = true.
Proof.
  unfold char_in.
  induction a as [|c a IH]; intros Ha H; [exact H|].
  cbn [existsb] in Ha. apply orb_false_iff in Ha as [Hc Ha].
  cbn [app safe_for]. rewrite N.eqb_sym, Hc. cbn [andb]. now apply IH.
Qed.

(** The pass keeps a text safe. *)
Lemma safe_for_out (k' s : str) :
  safe_for k' s = true -> safe_for k' (out s) = true.
Proof.
  remember (List.length s) as n eqn:Hn. revert s Hn.
  induction n as [n IH] using lt_wf_ind. intros s Hn Hsafe.
  destruct s as [|c s']; [reflexivity|].
  destruct (startswith (placeholder key) (c :: s')) eqn:E.
  - rewrite (replace_scan_hit _ value _ (placeholder_nonempty key) E).
    pose proof (startswith_split _ _ E) as Hs.
    apply safe_for_literal; [now apply negb_true_iff|].
    apply (IH (List.length (skipn (List.length (placeholder key)) (c :: s')))).
    + rewrite length_skipn, placeholder_cons. subst n. simpl. lia.
    + reflexivity.
    + rewrite Hs in Hsafe. exact (safe_for_app_r _ _ _ Hsafe).
  - rewrite (replace_scan_miss _ _ _ _ E).
    cbn [safe_for] in Hsafe |- *.
    apply andb_true_iff in Hsafe as [Hhead Hsafe].
    apply andb_true_iff. split.
    + destruct (c =? lbrace); [|reflexivity].
      apply negb_true_iff in Hhead. apply negb_true_iff.
      now apply clash_out.
    + apply (IH (List.length s')); [subst n; simpl; lia | reflexivity|].
      exact Hsafe.
Qed.

(** The pass brings in no placeholder of a key for which the text is
    safe, and leaves none of its own key. *)
Lemma str_in_out (k' s : str) :
  char_in rbrace k' = false ->
  safe_for k' s = true ->
  str_in (placeholder k') (out s) = true ->
  str_in (placeholder k') s = true /\ k' <> key.
Proof.
  intros Hk'.
  remember (List.length s) as n eqn:Hn. revert s Hn.
  induction n as [n IH] using lt_wf_ind. intros s Hn Hsafe Hin.
  destruct s as [|c s'].
  - exfalso. cbn [replace_scan] in Hin.
    rewrite placeholder_cons in Hin. discriminate.
  - destruct (startswith (placeholder key) (c :: s')) eqn:E.
    + rewrite (replace_scan_hit _ value _ (placeholder_nonempty key) E) in Hin.
      pose proof (startswith_split _ _ E) as Hs.
      rewrite (placeholder_cons k') in Hin.
      rewrite TemplateFacts.str_in_literal in Hin
        by (now apply negb_true_iff).
      rewrite <- placeholder_cons in Hin.
      destruct (IH (List.length (skipn (List.length (placeholder key))
                                       (c :: s')))) with
          (s := skipn (List.length (placeholder key)) (c :: s'))
        as [Hrest Hneq].
      * rewrite length_skipn, placeholder_cons. subst n. simpl. lia.
      * reflexivity.
      * rewrite Hs in Hsafe. exact (safe_for_app_r _ _ _ Hsafe).
      * exact Hin.
      * split; [|exact Hneq]. exact (str_in_skipn _ _ _ Hrest).
    + rewrite (replace_scan_miss _ _ _ _ E) in Hin.
      cbn [safe_for] in Hsafe. apply andb_true_iff in Hsafe as [Hhead Hsafe].
      rewrite str_in_cons in Hin |- *.
      apply orb_true_iff in Hin as [Hstart|Hlater].
      * rewrite placeholder_cons in Hstart. cbn [startswith] in Hstart.
        apply andb_true_iff in Hstart as [Hc Hstart].
        apply N.eqb_eq in Hc. subst c.
        rewrite N.eqb_refl in Hhead. apply negb_true_iff in Hhead.
        rewrite (startswith_out k' s' Hk' Hhead) in Hstart.
        assert (Hhere : startswith (placeholder k') (lbrace :: s') = true).
        { rewrite placeholder_cons. cbn [startswith].
          now rewrite N.eqb_refl, Hstart. }
        split; [now rewrite Hhere|].
        intros ->. congruence.
      * destruct (IH (List.length s')) with (s := s') as [Hrest Hneq];
          [subst n; simpl; lia | reflexivity | exact Hsafe | exact Hlater |].
        split; [|exact Hneq]. rewrite Hrest. apply orb_true_r.
Qed.

End Pass.

(** All the passes: no placeholder of a key for which the text is safe
    is brought in, and none of the keys of the passes is left. *)
Lemma replace_placeholders_safe (k' : str) :
  char_in rbrace k' = false ->
  forall (variables : PyDict.dict str) (s : str),
    forallb (fun kv => no_open (snd kv)) variables = true ->
    safe_for k' s = true ->
    (str_in (placeholder k') (replace_placeholders s variables) = true ->
     str_in (placeholder k') s = true) /\
    (In k' (PyDict.keys variables) ->
     str_in (placeholder k') (replace_placeholders s variables) = false).
Proof.
  intros Hk'.
  induction variables as [|[key value] rest IH]; intros s Hvalues Hsafe.
  - split; [trivial | contradiction].
  - cbn [forallb snd] in Hvalues.
    apply andb_true_iff in Hvalues as [Hvalue Hvalues].
    cbn [replace_placeholders]. rewrite replace_placeholder.
    pose proof (safe_for_out key value Hvalue k' s Hsafe) as Hsafe'.
    destruct (IH _ Hvalues Hsafe') as [Hnew Hgone].
    split.
    + intros H. apply Hnew in H.
      now apply (str_in_out key value Hvalue k' s Hk' Hsafe) in H.
    + intros [Hkey|Hkey]; [|now apply Hgone].
      cbn [fst] in Hkey. subst key.
      apply not_true_is_false. intros Hin. apply Hnew in Hin.
      destruct (str_in_out k' value Hvalue k' s Hk' Hsafe Hin) as [_ Hneq].
      now destruct Hneq.
Qed.

End SafeTextFacts.

(* ================================================================= *)
(** * Part III: the claims *)
(* ================================================================= *)

(** ** C1: placeholder substitution *)

(** C1, as stated, fails: the passes are not recursive, so the value of a
    later key can spell the placeholder of an earlier one.  With
    [variables = {"a": "1", "b": "{a}"}] the text ["{b}"] becomes ["{a}"],
    which still holds the placeholder of the key ["a"]. *)
Lemma C1_placeholder_can_remain :
  let variables := [(lit "a", lit "1"); (lit "b", lit "{a}")] in
  In (lit "a") (PyDict.keys variables) /\
  Placeholders.replace_placeholders (lit "{b}") variables = lit "{a}" /\
  str_in (Placeholders.placeholder (lit "a"))
         (Placeholders.replace_placeholders (lit "{b}") variables) = true.
Proof. repeat split. now left. Qed.

(** C1 (amended), for a mapping whose keys hold no brace and whose
    values hold no opening brace.  On a template, which is a sequence
    of literal pieces without opening brace and of placeholders [{key}]
    whose keys hold no brace, [replace_placeholders] returns the
    template with every placeholder of a key of the mapping replaced by
    the value of the key, every literal piece and every other
    placeholder left as it is; no [{key}] of a key of the mapping
    remains in it.  On a text with braces of its own, no [{key}] of a
    key of the mapping remains as long as no opening brace of the text
    is followed by the start of the key and then by another opening
    brace, as it is in [{na{x}]; so in a text that wraps placeholders
    in the braces of a JSON object.  On any text and any mapping: the
    passes are one [str.replace] per key, in mapping order; the empty
    mapping leaves the text unchanged; a text in which none of the
    mapping's placeholders occurs is returned unchanged; and when every
    value is non-empty and has no code point in common with any
    placeholder of the mapping, no [{key}] of a key of the mapping
    remains.  The conditions are needed: a value with an opening brace
    can spell a placeholder, and so can the text around a placeholder
    that stands between braces, as in [{n{x}e}]. *)
Theorem C1_replace_placeholders
        (s : str) (variables : PyDict.dict str)
        (template : list Placeholders.token) :
  (Placeholders.plain_mapping variables = true ->
   forallb Placeholders.token_ok template = true ->
   Placeholders.replace_placeholders (Placeholders.render template) variables
   = Placeholders.render
       (List.map (Placeholders.fill variables) template) /\
   forall key, In key (PyDict.keys variables) ->
     str_in (Placeholders.placeholder key)
            (Placeholders.replace_placeholders
               (Placeholders.render template) variables) = false)
  /\ (Placeholders.plain_mapping variables = true ->
      forall key, In key (PyDict.keys variables) ->
        Placeholders.safe_for key s = true ->
        str_in (Placeholders.placeholder key)
               (Placeholders.replace_placeholders s variables) = false)
  /\ Placeholders.replace_placeholders s variables
     = fold_left (fun acc kv =>
                    replace acc (Placeholders.placeholder (fst kv)) (snd kv))
                 variables s
  /\ Placeholders.replace_placeholders s [] = s
  /\ (Placeholders.no_placeholder_in variables s = true ->
      Placeholders.replace_placeholders s variables = s)
  /\ (Placeholders.inert_values variables = true ->
      forall key, In key (PyDict.keys variables) ->
        str_in (Placeholders.placeholder key)
               (Placeholders.replace_placeholders s variables) = false).
Proof.
  split; [|split; [|split; [|split; [reflexivity|split]]]].
  - intros Hplain Hok.
    pose proof (TemplateFacts.replace_placeholders_template
                  variables Hplain template Hok) as Heq.
    split; [exact Heq|]. intros key Hkey. rewrite Heq.
    rewrite TemplateFacts.str_in_render.
    + now apply TemplateFacts.filled_no_hole.
    + exact (TemplateFacts.plain_mapping_key variables key Hplain Hkey).
    + now apply TemplateFacts.fill_ok.
  - intros Hplain key Hkey Hsafe.
    pose proof (TemplateFacts.plain_mapping_key variables key Hplain Hkey)
      as Hfree.
    apply andb_true_iff in Hfree as [_ Hfree]. apply negb_true_iff in Hfree.
    apply (SafeTextFacts.replace_placeholders_safe key Hfree variables s);
      [|exact Hsafe | exact Hkey].
    unfold Placeholders.plain_mapping in Hplain.
    rewrite forallb_forall in Hplain |- *. intros kv Hkv.
    specialize (Hplain kv Hkv). now apply andb_true_iff in Hplain as [_ ?].
  - clear template. revert s.
    induction variables as [|[key value] rest IH]; intros s;
      [reflexivity | apply IH].
  - apply PlaceholderFacts.replace_placeholders_absent.
  - intros H key Hkey.
    apply in_map_iff in Hkey as (kv & <- & Hkv).
    apply PlaceholderFacts.replace_placeholders_clears; [|exact Hkv].
    now apply PlaceholderFacts.inert_values_spec.
Qed.

Lemma C1_replace_placeholders_witness :
  let variables := [(lit "name", lit "Anna"); (lit "n", lit "4} 2")] in
  let template :=
    [Placeholders.Lit (lit "Hi "); Placeholders.Hole (lit "name");
     Placeholders.Lit (lit ", "); Placeholders.Hole (lit "n");
     Placeholders.Lit (lit " of "); Placeholders.Hole (lit "m");
     Placeholders.Lit (lit "}; "); Placeholders.Hole (lit "name");
     Placeholders.Lit (lit "!")] in
  let wrapped := lit "Return {who: {name}, n: {n}} for {name" in
  let inert := [(lit "name", lit "Bob"); (lit "n", lit "42")] in
  Placeholders.render template = lit "Hi {name}, {n} of {m}}; {name}!" /\
  Placeholders.replace_placeholders
    (lit "Hi {name}, {n} of {m}}; {name}!") variables
  = lit "Hi Anna, 4} 2 of {m}}; Anna!" /\
  str_in (Placeholders.placeholder (lit "name"))
         (Placeholders.replace_placeholders
            (lit "Hi {name}, {n} of {m}}; {name}!") variables) = false /\
  Placeholders.replace_placeholders wrapped variables
  = lit "Return {who: Anna, n: 4} 2} for {name" /\
  str_in (Placeholders.placeholder (lit "n"))
         (Placeholders.replace_placeholders wrapped variables) = false /\
  Placeholders.replace_placeholders (lit "{m}") variables = lit "{m}" /\
  str_in (Placeholders.placeholder (lit "n"))
         (Placeholders.replace_placeholders (lit "{{n}} {x{name}}") inert)
  = false.
Proof.
  intros variables template wrapped inert.
  destruct (C1_replace_placeholders (lit "{m}") variables template)
    as (Htemplate & _ & _ & _ & Hkeep & _).
  destruct (Htemplate eq_refl eq_refl) as [Heq Hclear].
  destruct (C1_replace_placeholders wrapped variables [])
    as (_ & Hsafe & _).
  destruct (C1_replace_placeholders (lit "{{n}} {x{name}}") inert [])
    as (_ & _ & _ & _ & _ & Hinert).
  split; [reflexivity|]. split; [exact Heq|].
  split; [apply Hclear; now left|].
  split; [reflexivity|].
  split; [apply (Hsafe eq_refl); [right; now left | reflexivity]|].
  split; [apply Hkeep; reflexivity|].
  apply Hinert; [reflexivity | right; now left].
Defined.

(** ** C5, C6, C10: [_execute_llm] of the completion adapter *)

(** C5: on a response with the OK status, [_execute_llm] returns the
    ["text"] entry of the response output in non-chat mode and the
    content of the first choice's message in chat mode, whatever the
    other choices are; in non-chat mode the request carries the
    substituted input as its prompt, and in chat mode the messages sent
    are the caller's history followed by one new entry
    [{"role": "user", "content": <substituted input>}]. *)
Theorem C5_execute_success {E : External}
        (self : QwenCompletionLLM.t) (input : str)
        (kwargs : QwenCompletionLLM.LLMInput)
        (vars : PyDict.dict str) (hist : list pyobj) (sent : list request) :
  kwarg_get (QwenCompletionLLM.variables kwargs) [] = Some vars ->
  let formatted := Placeholders.replace_placeholders input vars in
  (QwenCompletionLLM.chat_mode self = false ->
   let args :=
     {| gen_model := QwenCompletionLLM.model self;
        gen_prompt := Some formatted;
        gen_messages := None;
        gen_api_key := QwenCompletionLLM.api_key self;
        gen_result_format := None |} in
   status_code (Generation_call args) = HTTPStatus_OK ->
   forall output text,
     Dashscope.output (Generation_call args) = PDict output ->
     PyDict.get output (lit "text") = Some text ->
     QwenCompletionLLM._execute_llm self input kwargs sent
     = (Return text, sent ++ [GenerationCall args])) /\
  (QwenCompletionLLM.chat_mode self = true ->
   kwarg_get (QwenCompletionLLM.history kwargs) [] = Some hist ->
   let args :=
     {| gen_model := QwenCompletionLLM.model self;
        gen_prompt := None;
        gen_messages :=
          Some (hist ++ [PDict [(lit "role", PStr (lit "user"));
                                (lit "content", PStr formatted)]]);
        gen_api_key := QwenCompletionLLM.api_key self;
        gen_result_format := Some (lit "message") |} in
   status_code (Generation_call args) = HTTPStatus_OK ->
   forall output choice others message content,
     Dashscope.output (Generation_call args) = PDict output ->
     PyDict.get output (lit "choices")
     = Some (PList (PDict choice :: others)) ->
     PyDict.get choice (lit "message") = Some (PDict message) ->
     PyDict.get message (lit "content") = Some content ->
     QwenCompletionLLM._execute_llm self input kwargs sent
     = (Return content, sent ++ [GenerationCall args])).
Proof.
  intros Hvars formatted. split.
  - intros Hmode args Hok output text Hout Htext.
    rewrite (AdapterFacts.execute_llm_prompt self input kwargs vars sent
               Hmode Hvars).
    fold formatted.
    change (QwenCompletionLLM.prompt_args self formatted) with args.
    rewrite Hok, N.eqb_refl, Hout. cbn [subscript]. now rewrite Htext.
  - intros Hmode Hhist args Hok output choice others message content
           Hout Hchoices Hmessage Hcontent.
    rewrite (AdapterFacts.execute_llm_chat self input kwargs vars hist sent
               Hmode Hvars Hhist).
    fold formatted.
    change (QwenCompletionLLM.messages_args
              self (hist ++ [QwenCompletionLLM.user_message formatted]))
      with args.
    rewrite Hok, N.eqb_refl.
    unfold QwenCompletionLLM.first_choice_content.
    rewrite Hout. cbn [subscript]. rewrite Hchoices. cbn [subscript0 subscript].
    rewrite Hmessage. cbn [subscript]. now rewrite Hcontent.
Qed.

(** The response [{status_code: OK, output: {"text": "hello"}}] in
    non-chat mode gives ["hello"]; in chat mode, a first choice with the
    content ["hi"] gives ["hi"] also when a second choice follows, and
    the messages sent are the one message of the history and the user
    entry. *)
Lemma C5_execute_success_witness :
  let text_env :=
    Sample.external
      (fun _ => Sample.ok (PDict [(lit "text", PStr (lit "hello"))]))
      (fun _ => Sample.ok PNone) in
  let chat_env :=
    Sample.external
      (fun _ => Sample.ok
         (PDict [(lit "choices",
                  PList [PDict [(lit "message",
                                 PDict [(lit "role", PStr (lit "assistant"));
                                        (lit "content", PStr (lit "hi"))])];
                         PDict [(lit "message",
                                 PDict [(lit "role", PStr (lit "assistant"));
                                        (lit "content", PStr (lit "bye"))])]])]))
      (fun _ => Sample.ok PNone) in
  let kwargs :=
    {| QwenCompletionLLM.variables := Given [(lit "who", lit "you")];
       QwenCompletionLLM.history :=
         Given [PDict [(lit "role", PStr (lit "system"));
                       (lit "content", PStr (lit "be brief"))]] |} in
  @QwenCompletionLLM._execute_llm text_env (Sample.completion false)
     (lit "hello {who}") kwargs []
  = (Return (PStr (lit "hello")),
     [GenerationCall
        {| gen_model := lit "qwen-turbo";
           gen_prompt := Some (lit "hello you");
           gen_messages := None;
           gen_api_key := [];
           gen_result_format := None |}])
  /\
  @QwenCompletionLLM._execute_llm chat_env (Sample.completion true)
     (lit "hello {who}") kwargs []
  = (Return (PStr (lit "hi")),
     [GenerationCall
        {| gen_model := lit "qwen-turbo";
           gen_prompt := None;
           gen_messages :=
             Some [PDict [(lit "role", PStr (lit "system"));
                          (lit "content", PStr (lit "be brief"))];
                   PDict [(lit "role", PStr (lit "user"));
                          (lit "content", PStr (lit "hello you"))]];
           gen_api_key := [];
           gen_result_format := Some (lit "message") |}]).
Proof.
  intros text_env chat_env kwargs. split.
  - exact (proj1 (@C5_execute_success text_env (Sample.completion false)
                    (lit "hello {who}") kwargs _ [] [] eq_refl)
                 eq_refl eq_refl _ _ eq_refl eq_refl).
  - exact (proj2 (@C5_execute_success chat_env (Sample.completion true)
                    (lit "hello {who}") kwargs _ _ [] eq_refl)
                 eq_refl eq_refl eq_refl _ _ _ _ _ eq_refl eq_refl
                 eq_refl eq_refl).
Defined.

(** C6: on a response whose status is not OK, [_execute_llm] raises an
    exception and returns no value; the message of the exception is
    ["Error " + code + ": " + message], so it contains the code and the
    message of the response. *)
Theorem C6_execute_failure {E : External}
        (self : QwenCompletionLLM.t) (input : str)
        (kwargs : QwenCompletionLLM.LLMInput)
        (vars : PyDict.dict str) (hist : list pyobj) (sent : list request) :
  kwarg_get (QwenCompletionLLM.variables kwargs) [] = Some vars ->
  (QwenCompletionLLM.chat_mode self = true ->
   kwarg_get (QwenCompletionLLM.history kwargs) [] = Some hist) ->
  let formatted := Placeholders.replace_placeholders input vars in
  let args :=
    if QwenCompletionLLM.chat_mode self
    then QwenCompletionLLM.messages_args
           self (hist ++ [QwenCompletionLLM.user_message formatted])
    else QwenCompletionLLM.prompt_args self formatted in
  let response := Generation_call args in
  status_code response <> HTTPStatus_OK ->
  exists msg,
    QwenCompletionLLM._execute_llm self input kwargs sent
    = (Raise (Exception msg), sent ++ [GenerationCall args]) /\
    msg = lit "Error " ++ code response ++ lit ": " ++ message response /\
    str_in (code response) msg = true /\
    str_in (message response) msg = true.
Proof.
  intros Hvars Hhist formatted args response Hbad.
  apply N.eqb_neq in Hbad.
  exists (QwenCompletionLLM.error_message response).
  split; [|split; [reflexivity | apply AdapterFacts.error_message_contains]].
  destruct (QwenCompletionLLM.chat_mode self) eqn:Hmode.
  - rewrite (AdapterFacts.execute_llm_chat self input kwargs vars hist sent
               Hmode Hvars (Hhist eq_refl)).
    fold formatted. fold args. fold response. now rewrite Hbad.
  - rewrite (AdapterFacts.execute_llm_prompt self input kwargs vars sent
               Hmode Hvars).
    fold formatted. fold args. fold response. now rewrite Hbad.
Qed.

(** The failure response [{status_code: 400, code: "X", message: "bad"}]
    raises [Exception("Error X: bad")]. *)
Lemma C6_execute_failure_witness :
  let env :=
    Sample.external (fun _ => Sample.failure 400 (lit "X") (lit "bad"))
                    (fun _ => Sample.ok PNone) in
  let kwargs :=
    {| QwenCompletionLLM.variables := Absent;
       QwenCompletionLLM.history := Absent |} in
  exists msg,
    @QwenCompletionLLM._execute_llm env (Sample.completion false)
       (lit "hello") kwargs []
    = (Raise (Exception msg),
       [GenerationCall
          (@QwenCompletionLLM.prompt_args env (Sample.completion false)
             (lit "hello"))]) /\
    msg = lit "Error X: bad" /\
    str_in (lit "X") msg = true /\ str_in (lit "bad") msg = true.
Proof.
  intros env kwargs.
  refine (@C6_execute_failure env (Sample.completion false) (lit "hello")
            kwargs [] [] [] eq_refl (fun _ => eq_refl) _).
  discriminate.
Defined.

(** C10: in chat mode the substitution touches the new user message
    only: the first [len(history)] messages sent to the service are the
    caller's history as it is, whatever placeholders it holds. *)
Theorem C10_history_verbatim {E : External}
        (self : QwenCompletionLLM.t) (input : str)
        (kwargs : QwenCompletionLLM.LLMInput)
        (vars : PyDict.dict str) (hist : list pyobj) (sent : list request) :
  QwenCompletionLLM.chat_mode self = true ->
  kwarg_get (QwenCompletionLLM.variables kwargs) [] = Some vars ->
  kwarg_get (QwenCompletionLLM.history kwargs) [] = Some hist ->
  exists args messages,
    snd (QwenCompletionLLM._execute_llm self input kwargs sent)
    = sent ++ [GenerationCall args] /\
    gen_messages args = Some messages /\
    firstn (List.length hist) messages = hist /\
    skipn (List.length hist) messages
    = [QwenCompletionLLM.user_message
         (Placeholders.replace_placeholders input vars)].
Proof.
  intros Hmode Hvars Hhist.
  eexists. eexists.
  rewrite (AdapterFacts.execute_llm_chat self input kwargs vars hist sent
             Hmode Hvars Hhist).
  split; [reflexivity|]. split; [reflexivity|]. split.
  - rewrite firstn_app, Nat.sub_diag, firstn_all. apply app_nil_r.
  - rewrite skipn_app, Nat.sub_diag, skipn_all. reflexivity.
Qed.

Lemma C10_history_verbatim_witness :
  let env :=
    Sample.external (fun _ => Sample.failure 500 [] [])
                    (fun _ => Sample.ok PNone) in
  let old_turn :=
    PDict [(lit "role", PStr (lit "user"));
           (lit "content", PStr (lit "my name is {name}"))] in
  let kwargs :=
    {| QwenCompletionLLM.variables := Given [(lit "name", lit "Bob")];
       QwenCompletionLLM.history := Given [old_turn] |} in
  exists args messages,
    snd (@QwenCompletionLLM._execute_llm env (Sample.completion true)
           (lit "hi {name}") kwargs [])
    = [] ++ [GenerationCall args] /\
    gen_messages args = Some messages /\
    firstn 1 messages = [old_turn] /\
    skipn 1 messages
    = [PDict [(lit "role", PStr (lit "user"));
              (lit "content", PStr (lit "hi Bob"))]].
Proof.
  intros env old_turn kwargs.
  exact (@C10_history_verbatim env (Sample.completion true) (lit "hi {name}")
           kwargs _ _ [] eq_refl eq_refl eq_refl).
Defined.

(** ** C2, C3: [_invoke_json] *)

(** C2, as stated, fails: [_invoke_json] guards its call of
    [_execute_llm] only.  When the remote answer has the OK status and
    the content of its first choice is [None], [_execute_llm] returns
    [None] without raising, and the scan for the brace pattern, which
    stands behind the [try] block, raises a [TypeError] that leaves
    [_invoke_json]. *)
Lemma C2_invoke_json_can_raise :
  let env :=
    Sample.external
      (fun _ => Sample.ok
         (PDict [(lit "choices",
                  PList [PDict [(lit "message",
                                 PDict [(lit "role", PStr (lit "assistant"));
                                        (lit "content", PNone)])]])]))
      (fun _ => Sample.ok PNone) in
  let kwargs :=
    {| QwenCompletionLLM.variables := Absent;
       QwenCompletionLLM.history := Absent |} in
  fst (@QwenCompletionLLM._execute_llm env (Sample.completion true)
         (lit "hello") kwargs [])
  = Return PNone /\
  fst (@QwenCompletionLLM._invoke_json env (Sample.completion true)
         (lit "hello") kwargs [])
  = Raise TypeError.
Proof. intros env kwargs. split; reflexivity. Qed.

(** C2 (amended): every exception that [_execute_llm] raises is caught,
    and the result then is [LLMOutput(output=None, json=None)]; when
    [_execute_llm] returns a text whose matches of the brace pattern
    are within the limits of the interpreter, [_invoke_json] returns an
    [LLMOutput] as well; when [_execute_llm] returns an object that is
    not a string, [_invoke_json] raises a [TypeError]. *)
Theorem C2_invoke_json_swallows {E : External}
        (self : QwenCompletionLLM.t) (input : str)
        (kwargs : QwenCompletionLLM.LLMInput) (sent : list request) :
  (forall e sent',
      QwenCompletionLLM._execute_llm self input kwargs sent
      = (Raise e, sent') ->
      QwenCompletionLLM._invoke_json self input kwargs sent
      = (Return {| QwenCompletionLLM.output := PNone;
                   QwenCompletionLLM.json := PNone |}, sent')) /\
  (forall text sent',
      QwenCompletionLLM._execute_llm self input kwargs sent
      = (Return (PStr text), sent') ->
      QwenCompletionLLM.candidates_within_limits text = true ->
      exists out,
        QwenCompletionLLM._invoke_json self input kwargs sent
        = (Return out, sent')) /\
  (forall out sent',
      QwenCompletionLLM._execute_llm self input kwargs sent
      = (Return out, sent') ->
      (forall text, out <> PStr text) ->
      QwenCompletionLLM._invoke_json self input kwargs sent
      = (Raise TypeError, sent')).
Proof.
  split; [|split].
  - intros e sent' H. unfold QwenCompletionLLM._invoke_json. now rewrite H.
  - intros text sent' H _. unfold QwenCompletionLLM._invoke_json. rewrite H.
    unfold QwenCompletionLLM.parse_output, Call.bind, Call.ret.
    eexists. reflexivity.
  - intros out sent' H Hout. unfold QwenCompletionLLM._invoke_json.
    rewrite H. destruct out; try reflexivity. now destruct (Hout s).
Qed.

(** The remote failure of C6 and a call with [variables=None], which
    fails before any request is sent, both end in the empty output; a
    text answer gives an [LLMOutput]; an answer whose text is a number
    makes [_invoke_json] raise. *)
Lemma C2_invoke_json_swallows_witness :
  let env :=
    Sample.external (fun _ => Sample.failure 400 (lit "X") (lit "bad"))
                    (fun _ => Sample.ok PNone) in
  let text_env :=
    Sample.external
      (fun _ => Sample.ok (PDict [(lit "text", PStr (lit "{} and {1}"))]))
      (fun _ => Sample.ok PNone) in
  let number_env :=
    Sample.external (fun _ => Sample.ok (PDict [(lit "text", PInt 7)]))
                    (fun _ => Sample.ok PNone) in
  let kwargs :=
    {| QwenCompletionLLM.variables := Absent;
       QwenCompletionLLM.history := Absent |} in
  let empty :=
    {| QwenCompletionLLM.output := PNone; QwenCompletionLLM.json := PNone |} in
  fst (@QwenCompletionLLM._invoke_json env (Sample.completion false)
         (lit "hello") kwargs [])
  = Return empty
  /\
  @QwenCompletionLLM._invoke_json env (Sample.completion true)
     (lit "hello")
     {| QwenCompletionLLM.variables := IsNone;
        QwenCompletionLLM.history := Absent |} []
  = (Return empty, [])
  /\
  (@QwenCompletionLLM.candidates_within_limits text_env (lit "{} and {1}")
   = true /\
   exists out,
     fst (@QwenCompletionLLM._invoke_json text_env (Sample.completion false)
            (lit "hello") kwargs [])
     = Return out)
  /\
  fst (@QwenCompletionLLM._invoke_json number_env (Sample.completion false)
         (lit "hello") kwargs [])
  = Raise TypeError.
Proof.
  intros env text_env number_env kwargs empty.
  split; [|split; [|split]].
  - assert (@QwenCompletionLLM._execute_llm env (Sample.completion false)
              (lit "hello") kwargs []
            = (Raise (Exception (lit "Error X: bad")),
               [GenerationCall
                  (@QwenCompletionLLM.prompt_args env (Sample.completion false)
                     (lit "hello"))])) as H by reflexivity.
    rewrite (proj1 (C2_invoke_json_swallows _ _ _ _) _ _ H). reflexivity.
  - apply (proj1 (C2_invoke_json_swallows _ _ _ _) AttributeError).
    reflexivity.
  - split; [reflexivity|].
    assert (@QwenCompletionLLM._execute_llm text_env (Sample.completion false)
              (lit "hello") kwargs []
            = (Return (PStr (lit "{} and {1}")),
               [GenerationCall
                  (@QwenCompletionLLM.prompt_args text_env
                     (Sample.completion false) (lit "hello"))])) as H
        by reflexivity.
    destruct (proj1 (proj2 (C2_invoke_json_swallows _ _ _ _)) _ _ H eq_refl)
      as [out Hout].
    exists out. now rewrite Hout.
  - assert (@QwenCompletionLLM._execute_llm number_env
              (Sample.completion false) (lit "hello") kwargs []
            = (Return (PInt 7),
               [GenerationCall
                  (@QwenCompletionLLM.prompt_args number_env
                     (Sample.completion false) (lit "hello"))])) as H
        by reflexivity.
    rewrite (proj2 (proj2 (C2_invoke_json_swallows _ _ _ _)) _ _ H);
      [reflexivity | discriminate].
Defined.

(** C3, as stated, fails: when the text holds no JSON object, [json] is
    [None] but [output] is the string ["null"], the text that
    [json.dumps] writes for [None]; the result differs from the one of
    a swallowed failure. *)
Lemma C3_output_is_null_text :
  let env :=
    Sample.external
      (fun _ => Sample.ok (PDict [(lit "text", PStr (lit "no json here"))]))
      (fun _ => Sample.ok PNone) in
  let kwargs :=
    {| QwenCompletionLLM.variables := Absent;
       QwenCompletionLLM.history := Absent |} in
  fst (@QwenCompletionLLM._execute_llm env (Sample.completion false)
         (lit "hello") kwargs [])
  = Return (PStr (lit "no json here")) /\
  @QwenCompletionLLM.extract_json_strings env (lit "no json here") = [] /\
  fst (@QwenCompletionLLM._invoke_json env (Sample.completion false)
         (lit "hello") kwargs [])
  = Return {| QwenCompletionLLM.output := PStr (lit "null");
              QwenCompletionLLM.json := PNone |} /\
  fst (@QwenCompletionLLM._invoke_json env (Sample.completion false)
         (lit "hello") kwargs [])
  <> Return {| QwenCompletionLLM.output := PNone;
               QwenCompletionLLM.json := PNone |}.
Proof.
  intros env kwargs. repeat split. discriminate.
Qed.

(** C3 (amended): when [_execute_llm] returns a text in which no span of
    the brace pattern decodes as JSON, every span being within the
    limits of the interpreter, [_invoke_json] returns [json = None] and
    [output = "null"], the four-character text that [json.dumps(None)]
    writes. *)
Theorem C3_no_json_found {E : External}
        (self : QwenCompletionLLM.t) (input : str)
        (kwargs : QwenCompletionLLM.LLMInput)
        (sent sent' : list request) (text : str) :
  QwenCompletionLLM._execute_llm self input kwargs sent
  = (Return (PStr text), sent') ->
  QwenCompletionLLM.candidates_within_limits text = true ->
  (forall m, In m (BracePattern.findall text) -> Json.loads m = None) ->
  QwenCompletionLLM._invoke_json self input kwargs sent
  = (Return {| QwenCompletionLLM.output := PStr (lit "null");
               QwenCompletionLLM.json := PNone |}, sent').
Proof.
  intros Hrun _ Hnone.
  unfold QwenCompletionLLM._invoke_json. rewrite Hrun.
  unfold QwenCompletionLLM.parse_output, Call.bind, Call.ret.
  assert (QwenCompletionLLM.extract_json_strings text = []) as ->.
  { unfold QwenCompletionLLM.extract_json_strings.
    induction (BracePattern.findall text) as [|m ms IH]; [reflexivity|].
    simpl. rewrite (Hnone m (or_introl eq_refl)). simpl.
    apply IH. intros m' Hm'. apply Hnone. now right. }
  reflexivity.
Qed.

Lemma C3_no_json_found_witness :
  let env :=
    Sample.external
      (fun _ => Sample.ok (PDict [(lit "text", PStr (lit "see {malformed}"))]))
      (fun _ => Sample.ok PNone) in
  let kwargs :=
    {| QwenCompletionLLM.variables := Absent;
       QwenCompletionLLM.history := Absent |} in
  BracePattern.findall (lit "see {malformed}") = [lit "{malformed}"] /\
  fst (@QwenCompletionLLM._invoke_json env (Sample.completion false)
         (lit "hello") kwargs [])
  = Return {| QwenCompletionLLM.output := PStr (lit "null");
              QwenCompletionLLM.json := PNone |}.
Proof.
  intros env kwargs. split; [reflexivity|].
  rewrite (@C3_no_json_found env (Sample.completion false) (lit "hello")
             kwargs [] _ (lit "see {malformed}") eq_refl eq_refl).
  - reflexivity.
  - intros m [<-|[]]. reflexivity.
Defined.

(** ** C8: construction *)

(** C8: the code breaks the claim.  [QwenCompletionLLM()] with the
    configuration left out raises [AttributeError]: the last two
    assignments of [__init__] call [.get] on the argument, which is
    [None], where the first ones read [self.llm_config].  With an empty
    mapping the construction succeeds with the defaults, and so does
    the embedding adapter in both cases. *)
Theorem C8_completion_init_without_config {E : External} :
  QwenCompletionLLM.__init__ None = Raise AttributeError /\
  QwenCompletionLLM.__init__ (Some [])
  = Return {| QwenCompletionLLM.llm_config := [];
              QwenCompletionLLM.api_key := [];
              QwenCompletionLLM.model := qwen_turbo;
              QwenCompletionLLM.llm_type := LLMType_StaticResponse;
              QwenCompletionLLM.chat_mode := false |} /\
  QwenEmbeddingsLLM.__init__ None
  = Return {| QwenEmbeddingsLLM.llm_config := [];
              QwenEmbeddingsLLM.api_key := [];
              QwenEmbeddingsLLM.model := text_embedding_v1 |} /\
  QwenEmbeddingsLLM.__init__ (Some []) = QwenEmbeddingsLLM.__init__ None.
Proof.
  repeat split.
  unfold QwenCompletionLLM.__init__. simpl.
  unfold PyDict.get_default. simpl. now rewrite LLMType_distinct.
Qed.

(** ** C7: the embedding adapter *)

(** C7: on a response with the OK status whose output holds the list
    [embeddings], [_execute_llm] returns the ["embedding"] entry of each
    item, one per item and in the order of the response; on any other
    status it raises the exception with the code and the message of the
    response, and nothing in [_execute_llm] catches it. *)
Theorem C7_embed {E : External}
        (self : QwenEmbeddingsLLM.t) (input : pyobj) (sent : list request) :
  let args := {| emb_model := QwenEmbeddingsLLM.model self;
                 emb_input := input;
                 emb_api_key := QwenEmbeddingsLLM.api_key self |} in
  let response := TextEmbedding_call args in
  (status_code response = HTTPStatus_OK ->
   forall items vectors,
     subscript (Dashscope.output response) (lit "embeddings")
     = Return (PList items) ->
     Forall2 (fun item v => subscript item (lit "embedding") = Return v)
             items vectors ->
     QwenEmbeddingsLLM._execute_llm self input sent
     = (Return vectors, sent ++ [TextEmbeddingCall args]) /\
     List.length vectors = List.length items) /\
  (status_code response <> HTTPStatus_OK ->
   QwenEmbeddingsLLM._execute_llm self input sent
   = (Raise (Exception (lit "Error " ++ code response ++ lit ": "
                        ++ message response)),
      sent ++ [TextEmbeddingCall args]) /\
   str_in (code response)
          (lit "Error " ++ code response ++ lit ": " ++ message response)
   = true /\
   str_in (message response)
          (lit "Error " ++ code response ++ lit ": " ++ message response)
   = true).
Proof.
  intros args response. split.
  - intros Hok items vectors Hout Hall.
    split; [|symmetry; eapply Forall2_length; exact Hall].
    unfold QwenEmbeddingsLLM._execute_llm, Call.bind, Call.text_embedding_call.
    fold args. fold response. rewrite Hok. simpl (_ =? _).
    unfold Call.lift. rewrite Hout. simpl iterate. f_equal.
    clear Hout. induction Hall as [|item v items vectors Hv _ IH];
      [reflexivity|].
    simpl. now rewrite Hv, IH.
  - intros Hbad. apply N.eqb_neq in Hbad. split.
    + unfold QwenEmbeddingsLLM._execute_llm, Call.bind,
        Call.text_embedding_call.
      fold args. fold response. now rewrite Hbad.
    + split.
      * apply AdapterFacts.str_in_middle.
      * rewrite !app_assoc. rewrite <- (app_nil_r (message response)) at 2.
        apply AdapterFacts.str_in_middle.
Qed.

(** Two input strings and a response with two embeddings: two vectors,
    in the order of the response. *)
Lemma C7_embed_witness :
  let v1 := PList [PInt 1; PInt 2] in
  let v2 := PList [PInt 3; PInt 4] in
  let env :=
    Sample.external
      (fun _ => Sample.ok PNone)
      (fun _ => Sample.ok
         (PDict [(lit "embeddings",
                  PList [PDict [(lit "embedding", v1);
                                (lit "text_index", PInt 0)];
                         PDict [(lit "embedding", v2);
                                (lit "text_index", PInt 1)]])])) in
  let failing :=
    Sample.external
      (fun _ => Sample.ok PNone)
      (fun _ => Sample.failure 401 (lit "InvalidApiKey") (lit "no key")) in
  let input := PList [PStr (lit "first"); PStr (lit "second")] in
  fst (@QwenEmbeddingsLLM._execute_llm env Sample.embeddings input [])
  = Return [v1; v2] /\
  fst (@QwenEmbeddingsLLM._execute_llm failing Sample.embeddings input [])
  = Raise (Exception (lit "Error InvalidApiKey: no key")).
Proof.
  intros v1 v2 env failing input. split.
  - destruct (@C7_embed env Sample.embeddings input []) as [Hok _].
    destruct (Hok eq_refl _ [v1; v2] eq_refl) as [-> _]; [|reflexivity].
    repeat constructor.
  - destruct (@C7_embed failing Sample.embeddings input []) as [_ Hbad].
    destruct Hbad as [-> _]; [discriminate | reflexivity].
Defined.

(** ** C4: extraction of an embedded JSON object *)

(** C4, as stated, fails: the brace pattern counts braces whether or not
    they lie inside a string literal.  The object [{"a": "}"}] is valid
    JSON, yet the first span of the pattern ends at the brace inside the
    string and does not decode, and nothing is extracted, even with an
    empty prefix and suffix. *)
Lemma C4_brace_in_string_lost :
  let env := Sample.external (fun _ => Sample.ok PNone)
                             (fun _ => Sample.ok PNone) in
  let J := [123; 34; 97; 34; 58; 32; 34; 125; 34; 125] in
  Json.loads J = Some (PDict [(lit "a", PStr (lit "}"))]) /\
  BracePattern.findall ([] ++ J ++ []) = [[123; 34; 97; 34; 58; 32; 34; 125]] /\
  @QwenCompletionLLM.extract_json_strings env ([] ++ J ++ []) = [].
Proof. repeat split. Qed.

(** C4 (amended): for every text [J] that decodes as JSON and is one
    match of the brace pattern (the brace that closes its first brace is
    its last code point), every prefix in which no opening brace is left
    open, and every suffix, such that the matches of the pattern in
    [prefix + J + suffix] are within the limits of the interpreter, the
    object decoded from [J] is among the results of
    [extract_json_strings] on [prefix + J + suffix]: the results are
    those of the prefix, then this object, then those of the suffix. *)
Theorem C4_extract_embedded {E : External}
        (J prefix suffix : str) (obj : pyobj) :
  Json.loads J = Some obj ->
  BracePattern.match_at J = Some (J, []) ->
  BracePattern.closed prefix = true ->
  QwenCompletionLLM.candidates_within_limits (prefix ++ J ++ suffix) = true ->
  In obj (QwenCompletionLLM.extract_json_strings (prefix ++ J ++ suffix)) /\
  QwenCompletionLLM.extract_json_strings (prefix ++ J ++ suffix)
  = QwenCompletionLLM.extract_json_strings prefix
    ++ obj :: QwenCompletionLLM.extract_json_strings suffix.
Proof.
  intros Hloads Hspan Hclosed _.
  assert (QwenCompletionLLM.extract_json_strings (prefix ++ J ++ suffix)
          = QwenCompletionLLM.extract_json_strings prefix
            ++ obj :: QwenCompletionLLM.extract_json_strings suffix) as Heq.
  { unfold QwenCompletionLLM.extract_json_strings.
    rewrite BracePatternFacts.findall_embedded;
      [|exact Hclosed | exact (BracePatternFacts.match_at_sound _ _ _ Hspan)].
    rewrite flat_map_app. simpl flat_map. now rewrite Hloads. }
  split; [|exact Heq].
  rewrite Heq. apply in_or_app. right. now left.
Qed.

(** The text [prefix {"a": 1} suffix {malformed]. *)
Lemma C4_extract_embedded_witness :
  let env := Sample.external (fun _ => Sample.ok PNone)
                             (fun _ => Sample.ok PNone) in
  let J := [123; 34; 97; 34; 58; 32; 49; 125] in
  let obj := PDict [(lit "a", PInt 1)] in
  In obj (@QwenCompletionLLM.extract_json_strings env
            (lit "prefix " ++ J ++ lit " suffix {malformed")) /\
  @QwenCompletionLLM.extract_json_strings env
     (lit "prefix " ++ J ++ lit " suffix {malformed")
  = [obj].
Proof.
  intros env J obj.
  destruct (@C4_extract_embedded env J (lit "prefix ")
              (lit " suffix {malformed") obj eq_refl eq_refl eq_refl eq_refl)
    as [Hin Heq].
  split; [exact Hin | rewrite Heq; reflexivity].
Defined.

(** ** C9: serialising the extracted object and parsing it again *)

(** C9, as stated, fails on a text with surrogate code points.  A JSON
    string that holds a high surrogate directly followed by a low one is
    decoded as two code points; [json.dumps] writes them as two
    [\uXXXX] escapes, and [json.loads] joins two such escapes into one
    code point, here [U+1F600].  The [output] is the serialisation of
    [json], but parsing it gives a different object. *)
Lemma C9_surrogates_joined :
  let text := lit "{" ++ [34; 97; 34; 58; 32; 34; 55357; 56832; 34] ++ lit "}" in
  let env :=
    Sample.external (fun _ => Sample.ok (PDict [(lit "text", PStr text)]))
                    (fun _ => Sample.ok PNone) in
  let kwargs :=
    {| QwenCompletionLLM.variables := Absent;
       QwenCompletionLLM.history := Absent |} in
  let json := PDict [(lit "a", PStr [55357; 56832])] in
  let output := Json.dumps json in
  fst (@QwenCompletionLLM._invoke_json env (Sample.completion false)
         (lit "hello") kwargs [])
  = Return {| QwenCompletionLLM.output := PStr output;
              QwenCompletionLLM.json := json |} /\
  Json.loads output = Some (PDict [(lit "a", PStr [128512])]) /\
  Json.loads output <> Some json.
Proof. repeat split. discriminate. Qed.

(** C9 (amended): when [_execute_llm] returns a text of Unicode scalar
    values (no surrogate code points) and [_invoke_json] returns a [json]
    and an [output] that are not [None], the [output] is the text that
    [json.dumps] writes for [json], and [json.loads] of that text gives
    [json] again; for the floats inside [json] this rests on the float
    type reading back what is written for it. *)
Theorem C9_roundtrip {E : External}
        (self : QwenCompletionLLM.t) (input : str)
        (kwargs : QwenCompletionLLM.LLMInput)
        (sent sent' : list request) (text : str)
        (out : QwenCompletionLLM.LLMOutput) :
  Json.float_reads_back ->
  QwenCompletionLLM._execute_llm self input kwargs sent
  = (Return (PStr text), sent') ->
  Json.text_ok text = true ->
  fst (QwenCompletionLLM._invoke_json self input kwargs sent) = Return out ->
  QwenCompletionLLM.json out <> PNone ->
  QwenCompletionLLM.output out <> PNone ->
  QwenCompletionLLM.output out
  = PStr (Json.dumps (QwenCompletionLLM.json out)) /\
  Json.loads (Json.dumps (QwenCompletionLLM.json out))
  = Some (QwenCompletionLLM.json out).
Proof.
  intros Hfloat Hrun Hok Hinv Hjson _.
  unfold QwenCompletionLLM._invoke_json in Hinv. rewrite Hrun in Hinv.
  unfold QwenCompletionLLM.parse_output, Call.bind, Call.ret in Hinv.
  cbn [fst] in Hinv.
  destruct (QwenCompletionLLM.extract_json_strings text)
    as [|first others] eqn:Ex.
  - cbn in Hinv. injection Hinv as <-. now cbn in Hjson.
  - cbn in Hinv. injection Hinv as <-. cbn [QwenCompletionLLM.json
      QwenCompletionLLM.output]. split; [reflexivity|].
    apply (ExtractFacts.extracted_roundtrip text first Hfloat Hok).
    rewrite Ex. now left.
Qed.

(** The text [prefix {"a": 1} suffix {malformed]: [json] is [{"a": 1}]
    and [output] is its serialisation. *)
Lemma C9_roundtrip_witness :
  let text := lit "prefix {" ++ [34; 97; 34] ++ lit ": 1} suffix {malformed" in
  let env :=
    Sample.external (fun _ => Sample.ok (PDict [(lit "text", PStr text)]))
                    (fun _ => Sample.ok PNone) in
  let kwargs :=
    {| QwenCompletionLLM.variables := Absent;
       QwenCompletionLLM.history := Absent |} in
  let json := PDict [(lit "a", PInt 1)] in
  fst (@QwenCompletionLLM._invoke_json env (Sample.completion false)
         (lit "hello") kwargs [])
  = Return {| QwenCompletionLLM.output :=
                PStr (lit "{" ++ [34; 97; 34] ++ lit ": 1}");
              QwenCompletionLLM.json := json |} /\
  Json.loads (Json.dumps json) = Some json.
Proof.
  intros text env kwargs json. split; [reflexivity|].
  refine (proj2 (@C9_roundtrip env (Sample.completion false) (lit "hello")
                   kwargs [] _ text
                   {| QwenCompletionLLM.output := PStr (Json.dumps json);
                      QwenCompletionLLM.json := json |}
                   ExtractFacts.unit_float_reads_back
                   eq_refl eq_refl eq_refl _ _)); discriminate.
Defined.

(* ================================================================= *)
(** * Part IV: further properties of the code *)
(* ================================================================= *)

(** ** [preprocess_input] and [replace_placeholders] *)

(** X1: [preprocess_input] returns its argument unchanged, whatever the
    text: each of its two [str.replace] calls replaces a character by
    the same character. *)
Theorem X1_preprocess_input_identity (input_str : str) :
  Placeholders.preprocess_input input_str = input_str.
Proof.
  unfold Placeholders.preprocess_input.
  now rewrite !ReplaceFacts.replace_same.
Qed.

(** X2: on a template made of literal pieces joined by [{key}], where no
    piece holds an opening brace, [replace_placeholders] with the single
    item [key: value] returns the pieces joined by [value]: every
    occurrence is replaced, the pieces are kept as they are, and the
    value is inserted as it is, whatever it holds. *)
Theorem X2_template_filled (key value : str) (pieces : list str) :
  Forall (fun piece => char_in lbrace piece = false) pieces ->
  Placeholders.replace_placeholders
    (Json.join (Placeholders.placeholder key) pieces) [(key, value)]
  = Json.join value pieces.
Proof.
  intros H. cbn [Placeholders.replace_placeholders].
  now apply ReplaceFacts.replace_join.
Qed.

Lemma X2_template_filled_witness :
  let pieces := [lit "Dear "; lit ", hello "; lit "!"] in
  Json.join (Placeholders.placeholder (lit "n")) pieces
  = lit "Dear {n}, hello {n}!" /\
  Placeholders.replace_placeholders (lit "Dear {n}, hello {n}!")
                                    [(lit "n", lit "{n}}")]
  = lit "Dear {n}}, hello {n}}!".
Proof.
  intros pieces. split; [reflexivity|].
  apply (X2_template_filled (lit "n") (lit "{n}}") pieces).
  repeat constructor.
Defined.

(** X3: a text without an opening brace, or without a closing brace, is
    returned unchanged by [replace_placeholders], whatever the mapping;
    the empty text in particular. *)
Theorem X3_no_braces_unchanged (s : str) (variables : PyDict.dict str) :
  char_in lbrace s = false \/ char_in rbrace s = false ->
  Placeholders.replace_placeholders s variables = s.
Proof.
  intros H. apply PlaceholderFacts.replace_placeholders_absent.
  unfold Placeholders.no_placeholder_in. apply forallb_forall.
  intros [key value] _. cbn [fst].
  now rewrite (ReplaceFacts.placeholder_needs_braces key s H).
Qed.

Lemma X3_no_braces_unchanged_witness :
  let variables := [(lit "a", lit "1"); (lit "", lit "x")] in
  Placeholders.replace_placeholders (lit "a } b") variables = lit "a } b" /\
  Placeholders.replace_placeholders [] variables = [].
Proof.
  intros variables. split.
  - apply (X3_no_braces_unchanged (lit "a } b") variables).
    left. reflexivity.
  - apply (X3_no_braces_unchanged [] variables). right. reflexivity.
Defined.

(** X4: the passes run one after the other over the whole text: with
    the items of [first] followed by those of [second], the result is
    that of substituting [second] in the result of substituting
    [first], so a later key also replaces what an earlier value
    brought in. *)
Theorem X4_passes_in_sequence (s : str) (first second : PyDict.dict str) :
  Placeholders.replace_placeholders s (first ++ second)
  = Placeholders.replace_placeholders
      (Placeholders.replace_placeholders s first) second.
Proof.
  revert s. induction first as [|[key value] first IH]; intros s;
    [reflexivity | apply IH].
Qed.


(** ** [extract_json_strings] *)

(** X5: every object that [extract_json_strings] returns is a dict:
    a match starts with an opening brace, and what [json.loads] reads
    from such a text is a dict. *)
Theorem X5_extract_only_dicts {E : External} (text : str) (obj : pyobj) :
  In obj (QwenCompletionLLM.extract_json_strings text) ->
  exists d, obj = PDict d.
Proof.
  intros Hin.
  destruct (ExtractFacts.extract_json_strings_in text obj Hin)
    as (m & Hm & Hloads).
  destruct (ExtractFacts.findall_spans text m Hm) as [[t ->] _].
  exact (JsonFacts.loads_brace t obj Hloads).
Qed.

Lemma X5_extract_only_dicts_witness :
  let env := Sample.external (fun _ => Sample.ok PNone)
                             (fun _ => Sample.ok PNone) in
  let text := lit "[1, 2] then {" ++ [Json.dquote] ++ lit "k"
                  ++ [Json.dquote] ++ lit ": [true]} and 3" in
  @QwenCompletionLLM.extract_json_strings env text
  = [PDict [(lit "k", PList [PBool true])]] /\
  exists d, PDict [(lit "k", PList [PBool true])] = PDict d.
Proof.
  intros env text. split; [reflexivity|].
  apply (@X5_extract_only_dicts env text). now left.
Defined.

(** X6: a text without an opening brace, or without a closing brace,
    has no match of the pattern, and [extract_json_strings] returns the
    empty list for it; so for the empty text. *)
Theorem X6_extract_needs_braces {E : External} (text : str) :
  char_in lbrace text = false \/ char_in rbrace text = false ->
  BracePattern.findall text = [] /\
  QwenCompletionLLM.extract_json_strings text = [].
Proof.
  intros H. unfold QwenCompletionLLM.extract_json_strings.
  now rewrite (ScanFacts.findall_needs_braces text H).
Qed.

Lemma X6_extract_needs_braces_witness :
  let env := Sample.external (fun _ => Sample.ok PNone)
                             (fun _ => Sample.ok PNone) in
  @QwenCompletionLLM.extract_json_strings env (lit "[1, 2, 3] { and {") = []
  /\ @QwenCompletionLLM.extract_json_strings env [] = [].
Proof.
  intros env. split.
  - apply (@X6_extract_needs_braces env (lit "[1, 2, 3] { and {")).
    right. reflexivity.
  - apply (@X6_extract_needs_braces env []). left. reflexivity.
Defined.

(** X7: the candidates that [extract_json_strings] hands to
    [json.loads] are matches of the pattern, each one a piece of the
    text; they do not overlap, so together they are no longer than the
    text. *)
Theorem X7_candidates_are_pieces (text : str) :
  (forall m, In m (BracePattern.findall text) ->
             BracePattern.json_pattern m /\
             exists a b, text = a ++ m ++ b) /\
  (List.length (List.concat (BracePattern.findall text))
   <= List.length text)%nat.
Proof.
  split.
  - intros m. apply ScanFacts.findall_pieces.
  - apply ScanFacts.findall_length.
Qed.

Lemma X7_candidates_are_pieces_witness :
  let text := lit "a {b{c}} d {e" in
  BracePattern.findall text = [lit "{b{c}}"] /\
  BracePattern.json_pattern (lit "{b{c}}") /\
  exists a b, text = a ++ lit "{b{c}}" ++ b.
Proof.
  intros text. split; [reflexivity|].
  apply (proj1 (X7_candidates_are_pieces text)). now left.
Defined.

(** X8: a balanced span that [json.loads] rejects with a
    [JSONDecodeError] is dropped as a whole: the scan resumes behind
    it, so an object nested inside it is not extracted, valid or not.
    The matches of the pattern in the text are taken to be within the
    limits of the interpreter. *)
Theorem X8_malformed_span_dropped_whole {E : External}
        (prefix m suffix : str) :
  BracePattern.closed prefix = true ->
  BracePattern.match_at m = Some (m, []) ->
  Json.loads m = None ->
  QwenCompletionLLM.candidates_within_limits (prefix ++ m ++ suffix) = true ->
  QwenCompletionLLM.extract_json_strings (prefix ++ m ++ suffix)
  = QwenCompletionLLM.extract_json_strings prefix
    ++ QwenCompletionLLM.extract_json_strings suffix.
Proof.
  intros Hp Hm Hloads _. unfold QwenCompletionLLM.extract_json_strings.
  rewrite (BracePatternFacts.findall_embedded
             prefix m suffix Hp (BracePatternFacts.match_at_sound _ _ _ Hm)).
  rewrite flat_map_app. cbn [flat_map]. now rewrite Hloads.
Qed.

Lemma X8_malformed_span_dropped_whole_witness :
  let env := Sample.external (fun _ => Sample.ok PNone)
                             (fun _ => Sample.ok PNone) in
  let inner := lit "{" ++ [Json.dquote] ++ lit "a" ++ [Json.dquote]
                   ++ lit ": 1}" in
  let m := lit "{note " ++ inner ++ lit "}" in
  @QwenCompletionLLM.extract_json_strings env inner
  = [PDict [(lit "a", PInt 1)]] /\
  @QwenCompletionLLM.extract_json_strings env (lit "see " ++ m ++ lit ".")
  = [].
Proof.
  intros env inner m. split; [reflexivity|].
  apply (@X8_malformed_span_dropped_whole env (lit "see ") m (lit "."));
    reflexivity.
Defined.

(** X9: extraction goes piece by piece: behind a prefix that leaves no
    brace open, the objects of the whole text are those of the prefix
    followed by those of the rest, in this order. *)
Theorem X9_extract_concat {E : External} (prefix rest : str) :
  BracePattern.closed prefix = true ->
  QwenCompletionLLM.extract_json_strings (prefix ++ rest)
  = QwenCompletionLLM.extract_json_strings prefix
    ++ QwenCompletionLLM.extract_json_strings rest.
Proof.
  intros H. unfold QwenCompletionLLM.extract_json_strings.
  now rewrite (BracePatternFacts.findall_app_closed _ _ H), flat_map_app.
Qed.

Lemma X9_extract_concat_witness :
  let env := Sample.external (fun _ => Sample.ok PNone)
                             (fun _ => Sample.ok PNone) in
  let one := lit "{} and }" in
  let two := lit "{" ++ [Json.dquote] ++ lit "b" ++ [Json.dquote]
                 ++ lit ": null}" in
  @QwenCompletionLLM.extract_json_strings env (one ++ two)
  = [PDict []; PDict [(lit "b", PNone)]].
Proof.
  intros env one two.
  apply (@X9_extract_concat env one two). reflexivity.
Defined.


(** ** [_execute_llm] of the completion adapter: edge cases *)

(** X10: keyword arguments passed as [None] stop [_execute_llm] before
    anything is sent: [variables=None] raises an [AttributeError] in
    both modes, and [history=None] raises a [TypeError] in chat mode. *)
Theorem X10_none_kwargs_raise_unsent {E : External}
        (self : QwenCompletionLLM.t) (input : str)
        (kwargs : QwenCompletionLLM.LLMInput) (sent : list request) :
  (QwenCompletionLLM.variables kwargs = IsNone ->
   QwenCompletionLLM._execute_llm self input kwargs sent
   = (Raise AttributeError, sent)) /\
  (QwenCompletionLLM.chat_mode self = true ->
   QwenCompletionLLM.variables kwargs <> IsNone ->
   QwenCompletionLLM.history kwargs = IsNone ->
   QwenCompletionLLM._execute_llm self input kwargs sent
   = (Raise TypeError, sent)).
Proof.
  split.
  - intros Hvars. unfold QwenCompletionLLM._execute_llm, Call.bind.
    now rewrite Hvars.
  - intros Hmode Hvars Hhist.
    unfold QwenCompletionLLM._execute_llm, Call.bind.
    rewrite Hmode, Hhist.
    destruct (QwenCompletionLLM.variables kwargs);
      [reflexivity | congruence | reflexivity].
Qed.

Lemma X10_none_kwargs_raise_unsent_witness :
  let env := Sample.external (fun _ => Sample.ok PNone)
                             (fun _ => Sample.ok PNone) in
  @QwenCompletionLLM._execute_llm env (Sample.completion false) (lit "hi")
     {| QwenCompletionLLM.variables := IsNone;
        QwenCompletionLLM.history := Absent |} []
  = (Raise AttributeError, [])
  /\
  @QwenCompletionLLM._execute_llm env (Sample.completion true) (lit "hi")
     {| QwenCompletionLLM.variables := Absent;
        QwenCompletionLLM.history := IsNone |} []
  = (Raise TypeError, []).
Proof.
  intros env. split.
  - apply (proj1 (@X10_none_kwargs_raise_unsent env _ _ _ _)). reflexivity.
  - apply (proj2 (@X10_none_kwargs_raise_unsent env _ _ _ _));
      [reflexivity | discriminate | reflexivity].
Defined.

(** X11: outside chat mode [_execute_llm] does not read [history]: two
    calls that differ only in this keyword argument, even one that
    passes [None], send the same request and end the same way. *)
Theorem X11_history_ignored_without_chat {E : External}
        (self : QwenCompletionLLM.t) (input : str)
        (vars : kwarg (PyDict.dict str)) (h1 h2 : kwarg (list pyobj))
        (sent : list request) :
  QwenCompletionLLM.chat_mode self = false ->
  QwenCompletionLLM._execute_llm self input
    {| QwenCompletionLLM.variables := vars;
       QwenCompletionLLM.history := h1 |} sent
  = QwenCompletionLLM._execute_llm self input
      {| QwenCompletionLLM.variables := vars;
         QwenCompletionLLM.history := h2 |} sent.
Proof.
  intros Hmode. unfold QwenCompletionLLM._execute_llm, Call.bind.
  cbn [QwenCompletionLLM.variables]. now rewrite Hmode.
Qed.

Lemma X11_history_ignored_without_chat_witness :
  let env :=
    Sample.external
      (fun _ => Sample.ok (PDict [(lit "text", PStr (lit "hello"))]))
      (fun _ => Sample.ok PNone) in
  @QwenCompletionLLM._execute_llm env (Sample.completion false) (lit "hi")
     {| QwenCompletionLLM.variables := Absent;
        QwenCompletionLLM.history := IsNone |} []
  = @QwenCompletionLLM._execute_llm env (Sample.completion false) (lit "hi")
      {| QwenCompletionLLM.variables := Absent;
         QwenCompletionLLM.history := Given [PStr (lit "earlier")] |} [].
Proof.
  intros env.
  apply (@X11_history_ignored_without_chat env). reflexivity.
Defined.

(** X12: one call of [_execute_llm] sends at most one request to the
    service, whatever the answer is, and [_invoke_json] sends nothing
    beyond what its call of [_execute_llm] sends: no second attempt
    follows a failure. *)
Theorem X12_one_request_at_most {E : External}
        (self : QwenCompletionLLM.t) (input : str)
        (kwargs : QwenCompletionLLM.LLMInput) (sent : list request) :
  (exists new,
      snd (QwenCompletionLLM._execute_llm self input kwargs sent)
      = sent ++ new /\ (List.length new <= 1)%nat) /\
  snd (QwenCompletionLLM._invoke_json self input kwargs sent)
  = snd (QwenCompletionLLM._execute_llm self input kwargs sent).
Proof.
  split.
  - destruct (kwarg_get (QwenCompletionLLM.variables kwargs) [])
      as [vars|] eqn:Hvars.
    + destruct (QwenCompletionLLM.chat_mode self) eqn:Hmode.
      * destruct (kwarg_get (QwenCompletionLLM.history kwargs) [])
          as [hist|] eqn:Hhist.
        -- rewrite (AdapterFacts.execute_llm_chat
                      self input kwargs vars hist sent Hmode Hvars Hhist).
           eexists [_]. split; [reflexivity | simpl; lia].
        -- exists []. split; [|simpl; lia].
           unfold QwenCompletionLLM._execute_llm, Call.bind.
           rewrite Hvars, Hmode, Hhist. cbn. now rewrite app_nil_r.
      * rewrite (AdapterFacts.execute_llm_prompt
                   self input kwargs vars sent Hmode Hvars).
        eexists [_]. split; [reflexivity | simpl; lia].
    + exists []. split; [|simpl; lia].
      unfold QwenCompletionLLM._execute_llm, Call.bind.
      rewrite Hvars. cbn. now rewrite app_nil_r.
  - unfold QwenCompletionLLM._invoke_json.
    destruct (QwenCompletionLLM._execute_llm self input kwargs sent)
      as [[out|e] sent']; [|reflexivity].
    destruct out; reflexivity.
Qed.

(** X13: an answer with the OK status that lacks the entry read from it
    makes [_execute_llm] raise after the request was sent: a
    [KeyError] for an output mapping without ["text"] outside chat
    mode, an [IndexError] for an empty list of choices in chat mode. *)
Theorem X13_ok_without_entry {E : External}
        (self : QwenCompletionLLM.t) (input : str)
        (kwargs : QwenCompletionLLM.LLMInput)
        (vars : PyDict.dict str) (hist : list pyobj) (sent : list request) :
  kwarg_get (QwenCompletionLLM.variables kwargs) [] = Some vars ->
  let formatted := Placeholders.replace_placeholders input vars in
  (QwenCompletionLLM.chat_mode self = false ->
   let args := QwenCompletionLLM.prompt_args self formatted in
   let response := Generation_call args in
   status_code response = HTTPStatus_OK ->
   forall d, Dashscope.output response = PDict d ->
             PyDict.get d (lit "text") = None ->
     QwenCompletionLLM._execute_llm self input kwargs sent
     = (Raise (KeyError (lit "text")), sent ++ [GenerationCall args])) /\
  (QwenCompletionLLM.chat_mode self = true ->
   kwarg_get (QwenCompletionLLM.history kwargs) [] = Some hist ->
   let args :=
     QwenCompletionLLM.messages_args
       self (hist ++ [QwenCompletionLLM.user_message formatted]) in
   let response := Generation_call args in
   status_code response = HTTPStatus_OK ->
   subscript (Dashscope.output response) (lit "choices") = Return (PList []) ->
   QwenCompletionLLM._execute_llm self input kwargs sent
   = (Raise IndexError, sent ++ [GenerationCall args])).
Proof.
  intros Hvars formatted. split.
  - intros Hmode args response Hok d Hout Hget.
    rewrite (AdapterFacts.execute_llm_prompt
               self input kwargs vars sent Hmode Hvars).
    fold formatted. fold args. fold response.
    rewrite Hok, Hout, N.eqb_refl. cbn [subscript]. now rewrite Hget.
  - intros Hmode Hhist args response Hok Hchoices.
    rewrite (AdapterFacts.execute_llm_chat
               self input kwargs vars hist sent Hmode Hvars Hhist).
    fold formatted. fold args. fold response.
    rewrite Hok, N.eqb_refl.
    unfold QwenCompletionLLM.first_choice_content. now rewrite Hchoices.
Qed.

Lemma X13_ok_without_entry_witness :
  let text_env :=
    Sample.external
      (fun _ => Sample.ok (PDict [(lit "finish_reason", PStr (lit "stop"))]))
      (fun _ => Sample.ok PNone) in
  let chat_env :=
    Sample.external
      (fun _ => Sample.ok (PDict [(lit "choices", PList [])]))
      (fun _ => Sample.ok PNone) in
  let kwargs :=
    {| QwenCompletionLLM.variables := Absent;
       QwenCompletionLLM.history := Absent |} in
  fst (@QwenCompletionLLM._execute_llm text_env (Sample.completion false)
         (lit "hello") kwargs [])
  = Raise (KeyError (lit "text"))
  /\
  fst (@QwenCompletionLLM._execute_llm chat_env (Sample.completion true)
         (lit "hello") kwargs [])
  = Raise IndexError.
Proof.
  intros text_env chat_env kwargs. split.
  - rewrite (proj1 (@X13_ok_without_entry text_env (Sample.completion false)
                      (lit "hello") kwargs [] [] [] eq_refl)
                   eq_refl eq_refl _ eq_refl eq_refl).
    reflexivity.
  - rewrite (proj2 (@X13_ok_without_entry chat_env (Sample.completion true)
                      (lit "hello") kwargs [] [] [] eq_refl)
                   eq_refl eq_refl eq_refl eq_refl).
    reflexivity.
Defined.


(** ** [_invoke_json]: what it returns *)

(** X14: [_invoke_json] guards only its call of [_execute_llm]: when
    that call returns something that is not a string, such as the
    [None] of an answer with a null text, the scan for the pattern
    raises a [TypeError], which leaves [_invoke_json]. *)
Theorem X14_non_text_output_raises {E : External}
        (self : QwenCompletionLLM.t) (input : str)
        (kwargs : QwenCompletionLLM.LLMInput)
        (sent sent' : list request) (out : pyobj) :
  QwenCompletionLLM._execute_llm self input kwargs sent
  = (Return out, sent') ->
  (forall text, out <> PStr text) ->
  QwenCompletionLLM._invoke_json self input kwargs sent
  = (Raise TypeError, sent').
Proof.
  intros Hexec Hout. unfold QwenCompletionLLM._invoke_json. rewrite Hexec.
  destruct out; try reflexivity. now destruct (Hout s).
Qed.

Lemma X14_non_text_output_raises_witness :
  let env :=
    Sample.external (fun _ => Sample.ok (PDict [(lit "text", PNone)]))
                    (fun _ => Sample.ok PNone) in
  fst (@QwenCompletionLLM._invoke_json env (Sample.completion false)
         (lit "hello")
         {| QwenCompletionLLM.variables := Absent;
            QwenCompletionLLM.history := Absent |} [])
  = Raise TypeError.
Proof.
  intros env.
  assert (@QwenCompletionLLM._execute_llm env (Sample.completion false)
            (lit "hello")
            {| QwenCompletionLLM.variables := Absent;
               QwenCompletionLLM.history := Absent |} []
          = (Return PNone,
             [GenerationCall
                (@QwenCompletionLLM.prompt_args env (Sample.completion false)
                   (lit "hello"))])) as H by reflexivity.
  rewrite (@X14_non_text_output_raises env _ _ _ _ _ _ H); [reflexivity|].
  discriminate.
Defined.

(** X15: of the objects extracted from the text, whose matches of the
    pattern are within the limits of the interpreter, [_invoke_json]
    keeps the first one, also when it is the empty dict, and does not
    look at the others: [json] is this object and [output] its
    [json.dumps] text. *)
Theorem X15_first_object_kept {E : External}
        (self : QwenCompletionLLM.t) (input : str)
        (kwargs : QwenCompletionLLM.LLMInput)
        (sent sent' : list request) (text : str)
        (first : pyobj) (others : list pyobj) :
  QwenCompletionLLM._execute_llm self input kwargs sent
  = (Return (PStr text), sent') ->
  QwenCompletionLLM.candidates_within_limits text = true ->
  QwenCompletionLLM.extract_json_strings text = first :: others ->
  QwenCompletionLLM._invoke_json self input kwargs sent
  = (Return {| QwenCompletionLLM.output := PStr (Json.dumps first);
               QwenCompletionLLM.json := first |}, sent').
Proof.
  intros Hexec _ Hextract. unfold QwenCompletionLLM._invoke_json.
  rewrite Hexec.
  unfold QwenCompletionLLM.parse_output, Call.bind, Call.ret.
  now rewrite Hextract.
Qed.

Lemma X15_first_object_kept_witness :
  let env :=
    Sample.external
      (fun _ => Sample.ok
         (PDict [(lit "text",
                  PStr (lit "{} or {" ++ [Json.dquote] ++ lit "a"
                            ++ [Json.dquote] ++ lit ": 1}"))]))
      (fun _ => Sample.ok PNone) in
  fst (@QwenCompletionLLM._invoke_json env (Sample.completion false)
         (lit "hello")
         {| QwenCompletionLLM.variables := Absent;
            QwenCompletionLLM.history := Absent |} [])
  = Return {| QwenCompletionLLM.output := PStr (lit "{}");
              QwenCompletionLLM.json := PDict [] |}.
Proof.
  intros env.
  assert (@QwenCompletionLLM._execute_llm env (Sample.completion false)
            (lit "hello")
            {| QwenCompletionLLM.variables := Absent;
               QwenCompletionLLM.history := Absent |} []
          = (Return (PStr (lit "{} or {" ++ [Json.dquote] ++ lit "a"
                               ++ [Json.dquote] ++ lit ": 1}")),
             [GenerationCall
                (@QwenCompletionLLM.prompt_args env (Sample.completion false)
                   (lit "hello"))])) as H by reflexivity.
  rewrite (@X15_first_object_kept env _ _ _ _ _ _
             (PDict []) [PDict [(lit "a", PInt 1)]] H eq_refl eq_refl).
  reflexivity.
Defined.

(** X16: whenever [_invoke_json] returns, [json] is [None] or a dict,
    and [output] is the [json.dumps] text of [json], or both fields are
    [None]; so [output] is never [None] beside a dict. *)
Theorem X16_invoke_json_shape {E : External}
        (self : QwenCompletionLLM.t) (input : str)
        (kwargs : QwenCompletionLLM.LLMInput)
        (sent sent' : list request) (out : QwenCompletionLLM.LLMOutput) :
  QwenCompletionLLM._invoke_json self input kwargs sent
  = (Return out, sent') ->
  (QwenCompletionLLM.json out = PNone \/
   exists d, QwenCompletionLLM.json out = PDict d) /\
  (QwenCompletionLLM.output out
   = PStr (Json.dumps (QwenCompletionLLM.json out)) \/
   QwenCompletionLLM.output out = PNone /\
   QwenCompletionLLM.json out = PNone).
Proof.
  unfold QwenCompletionLLM._invoke_json.
  destruct (QwenCompletionLLM._execute_llm self input kwargs sent)
    as [[o|e] sent''].
  - destruct o; try discriminate.
    unfold QwenCompletionLLM.parse_output, Call.bind, Call.ret.
    cbn [QwenCompletionLLM.json_dumps].
    intros H. injection H as <- _.
    cbn [QwenCompletionLLM.json QwenCompletionLLM.output].
    split; [|now left].
    destruct (QwenCompletionLLM.extract_json_strings s)
      as [|first others] eqn:Hextract; [now left|].
    right.
    assert (Hin : In first (QwenCompletionLLM.extract_json_strings s))
      by (rewrite Hextract; now left).
    destruct (ExtractFacts.extract_json_strings_in s first Hin)
      as (m & Hm & Hloads).
    destruct (ExtractFacts.findall_spans s m Hm) as [[t ->] _].
    exact (JsonFacts.loads_brace t first Hloads).
  - intros H. injection H as <- _. split; [now left | now right].
Qed.

Lemma X16_invoke_json_shape_witness :
  let env :=
    Sample.external
      (fun _ => Sample.ok
         (PDict [(lit "text", PStr (lit "so: {} [1] {"))]))
      (fun _ => Sample.ok PNone) in
  let out := {| QwenCompletionLLM.output := PStr (lit "{}");
                QwenCompletionLLM.json := PDict [] |} in
  fst (@QwenCompletionLLM._invoke_json env (Sample.completion false)
         (lit "hello")
         {| QwenCompletionLLM.variables := Absent;
            QwenCompletionLLM.history := Absent |} [])
  = Return out /\
  (@QwenCompletionLLM.json Sample.unit_float out = PNone \/
   exists d, QwenCompletionLLM.json out = PDict d) /\
  (QwenCompletionLLM.output out
   = PStr (Json.dumps (QwenCompletionLLM.json out)) \/
   QwenCompletionLLM.output out = PNone /\
   QwenCompletionLLM.json out = PNone).
Proof.
  intros env out. split; [reflexivity|].
  apply (@X16_invoke_json_shape env (Sample.completion false) (lit "hello")
           {| QwenCompletionLLM.variables := Absent;
              QwenCompletionLLM.history := Absent |} []
           [GenerationCall
              (@QwenCompletionLLM.prompt_args env (Sample.completion false)
                 (lit "hello"))] out).
  reflexivity.
Defined.


(** ** Construction of the completion adapter *)

(** X17: given a mapping, [__init__] of the completion adapter does not
    fail; it keeps the mapping, reads [api_key] and [model] from it with
    the empty string and [qwen_turbo] as defaults, and sets [chat_mode]
    exactly when the mapping holds [LLMType.QwenChat] under ["type"];
    without a ["type"] entry [llm_type] is [LLMType.StaticResponse]. *)
Theorem X17_init_with_mapping {E : External} (config : PyDict.dict str) :
  exists self,
    QwenCompletionLLM.__init__ (Some config) = Return self /\
    QwenCompletionLLM.llm_config self = config /\
    QwenCompletionLLM.api_key self
    = PyDict.get_default config (lit "api_key") [] /\
    QwenCompletionLLM.model self
    = PyDict.get_default config (lit "model") qwen_turbo /\
    (QwenCompletionLLM.chat_mode self = true <->
     PyDict.get config (lit "type") = Some LLMType_QwenChat) /\
    (PyDict.get config (lit "type") = None ->
     QwenCompletionLLM.llm_type self = LLMType_StaticResponse).
Proof.
  eexists. split; [reflexivity|].
  cbn [QwenCompletionLLM.llm_config QwenCompletionLLM.api_key
       QwenCompletionLLM.model QwenCompletionLLM.chat_mode
       QwenCompletionLLM.llm_type].
  repeat (split; [reflexivity|]).
  unfold PyDict.get_default.
  destruct (PyDict.get config (lit "type")) as [type_|]; split.
  - rewrite JsonFacts.eqb_spec. split; [now intros -> | congruence].
  - discriminate.
  - rewrite LLMType_distinct. split; discriminate.
  - reflexivity.
Qed.

Lemma X17_init_with_mapping_witness :
  let env := Sample.external (fun _ => Sample.ok PNone)
                             (fun _ => Sample.ok PNone) in
  exists self,
    @QwenCompletionLLM.__init__ env
       (Some [(lit "type", lit "qwen_chat"); (lit "api_key", lit "k")])
    = Return self /\
    QwenCompletionLLM.api_key self = lit "k" /\
    QwenCompletionLLM.model self = lit "qwen-turbo" /\
    QwenCompletionLLM.chat_mode self = true.
Proof.
  intros env.
  destruct (@X17_init_with_mapping env
              [(lit "type", lit "qwen_chat"); (lit "api_key", lit "k")])
    as (self & Hinit & _ & Hkey & Hmodel & Hchat & _).
  exists self. split; [exact Hinit|]. split; [exact Hkey|].
  split; [exact Hmodel|]. apply Hchat. reflexivity.
Defined.

(** ** [_execute_llm] of the embeddings adapter *)

(** X18: every call of [_execute_llm] of the embeddings adapter sends
    exactly one request, whatever the answer and whether the call
    returns or raises; the request carries the input as it was given,
    with the model and the key of the adapter. *)
Theorem X18_embed_one_request {E : External}
        (self : QwenEmbeddingsLLM.t) (input : pyobj) (sent : list request) :
  snd (QwenEmbeddingsLLM._execute_llm self input sent)
  = sent ++ [TextEmbeddingCall
               {| emb_model := QwenEmbeddingsLLM.model self;
                  emb_input := input;
                  emb_api_key := QwenEmbeddingsLLM.api_key self |}].
Proof.
  unfold QwenEmbeddingsLLM._execute_llm, Call.bind, Call.text_embedding_call.
  destruct (status_code _ =? HTTPStatus_OK); reflexivity.
Qed.

(** X19: on an answer with the OK status, one item without an
    ["embedding"] entry makes the whole call raise, whatever the items
    before and after it hold: no partial list is returned.  An output
    mapping without ["embeddings"] raises a [KeyError] as well. *)
Theorem X19_embed_bad_item {E : External}
        (self : QwenEmbeddingsLLM.t) (input : pyobj) (sent : list request) :
  let response :=
    TextEmbedding_call {| emb_model := QwenEmbeddingsLLM.model self;
                          emb_input := input;
                          emb_api_key := QwenEmbeddingsLLM.api_key self |} in
  status_code response = HTTPStatus_OK ->
  (forall good bad rest e,
      subscript (Dashscope.output response) (lit "embeddings")
      = Return (PList (good ++ bad :: rest)) ->
      Forall (fun item => exists v,
                  subscript item (lit "embedding") = Return v) good ->
      subscript bad (lit "embedding") = Raise e ->
      fst (QwenEmbeddingsLLM._execute_llm self input sent) = Raise e) /\
  (forall d,
      Dashscope.output response = PDict d ->
      PyDict.get d (lit "embeddings") = None ->
      fst (QwenEmbeddingsLLM._execute_llm self input sent)
      = Raise (KeyError (lit "embeddings"))).
Proof.
  intros response Hok.
  unfold QwenEmbeddingsLLM._execute_llm, Call.bind, Call.text_embedding_call.
  fold response. rewrite Hok, N.eqb_refl. unfold Call.lift. cbn [fst].
  split.
  - intros good bad rest e Hout Hgood Hbad. rewrite Hout. cbn [iterate].
    clear Hout. induction Hgood as [|item good [v Hv] _ IH].
    + cbn [app QwenEmbeddingsLLM.embedding_of_each]. now rewrite Hbad.
    + cbn [app QwenEmbeddingsLLM.embedding_of_each].
      now rewrite Hv, IH.
  - intros d Hout Hget. rewrite Hout. cbn [subscript]. now rewrite Hget.
Qed.

Lemma X19_embed_bad_item_witness :
  let env :=
    Sample.external
      (fun _ => Sample.ok PNone)
      (fun _ => Sample.ok
         (PDict [(lit "embeddings",
                  PList [PDict [(lit "embedding", PList [PInt 1])];
                         PDict [(lit "text_index", PInt 1)];
                         PDict [(lit "embedding", PList [PInt 2])]])])) in
  fst (@QwenEmbeddingsLLM._execute_llm env Sample.embeddings
         (PList [PStr (lit "a"); PStr (lit "b"); PStr (lit "c")]) [])
  = Raise (KeyError (lit "embedding")).
Proof.
  intros env.
  apply (proj1 (@X19_embed_bad_item env Sample.embeddings
                  (PList [PStr (lit "a"); PStr (lit "b"); PStr (lit "c")])
                  [] eq_refl)
               [PDict [(lit "embedding", PList [PInt 1])]]
               (PDict [(lit "text_index", PInt 1)])
               [PDict [(lit "embedding", PList [PInt 2])]]).
  - reflexivity.
  - constructor; [|constructor]. eexists. reflexivity.
  - reflexivity.
Defined.


(** ** The requests of the completion adapter *)

(** X20: whatever [_execute_llm] of the completion adapter sends is a
    call of [dashscope.Generation.call], never of the embedding
    endpoint, with the model and the key of the adapter; in chat mode
    it carries messages, no prompt, and the result format
    ["message"]; outside chat mode a prompt, no messages and no result
    format. *)
Theorem X20_requests_of_completion {E : External}
        (self : QwenCompletionLLM.t) (input : str)
        (kwargs : QwenCompletionLLM.LLMInput) (sent new : list request) :
  snd (QwenCompletionLLM._execute_llm self input kwargs sent) = sent ++ new ->
  Forall (fun r =>
            exists args,
              r = GenerationCall args /\
              gen_model args = QwenCompletionLLM.model self /\
              gen_api_key args = QwenCompletionLLM.api_key self /\
              if QwenCompletionLLM.chat_mode self
              then gen_prompt args = None /\
                   gen_messages args <> None /\
                   gen_result_format args = Some (lit "message")
              else gen_prompt args <> None /\
                   gen_messages args = None /\
                   gen_result_format args = None)
         new.
Proof.
  assert (Hnone : forall l : list request, sent = sent ++ l -> l = []).
  { intros l H. apply (app_inv_head sent). now rewrite app_nil_r. }
  destruct (kwarg_get (QwenCompletionLLM.variables kwargs) [])
    as [vars|] eqn:Hvars.
  - destruct (QwenCompletionLLM.chat_mode self) eqn:Hmode.
    + destruct (kwarg_get (QwenCompletionLLM.history kwargs) [])
        as [hist|] eqn:Hhist.
      * rewrite (AdapterFacts.execute_llm_chat
                   self input kwargs vars hist sent Hmode Hvars Hhist).
        cbn [snd]. intros H. apply app_inv_head in H. subst new.
        constructor; [|constructor]. eexists. split; [reflexivity|].
        cbn. repeat split. discriminate.
      * unfold QwenCompletionLLM._execute_llm, Call.bind.
        rewrite Hvars, Hmode, Hhist. cbn [snd Call.ret Call.raise].
        intros H. rewrite (Hnone _ H). constructor.
    + rewrite (AdapterFacts.execute_llm_prompt
                 self input kwargs vars sent Hmode Hvars).
      cbn [snd]. intros H. apply app_inv_head in H. subst new.
      constructor; [|constructor]. eexists. split; [reflexivity|].
      cbn. repeat split. discriminate.
  - unfold QwenCompletionLLM._execute_llm, Call.bind.
    rewrite Hvars. cbn [snd Call.raise].
    intros H. rewrite (Hnone _ H). constructor.
Qed.

Lemma X20_requests_of_completion_witness :
  let env :=
    Sample.external (fun _ => Sample.failure 401 (lit "Denied") (lit "no key"))
                    (fun _ => Sample.ok PNone) in
  let kwargs := {| QwenCompletionLLM.variables := Absent;
                   QwenCompletionLLM.history := Absent |} in
  let new := [GenerationCall
                (@QwenCompletionLLM.messages_args env (Sample.completion true)
                   [QwenCompletionLLM.user_message (lit "hello")])] in
  snd (@QwenCompletionLLM._execute_llm env (Sample.completion true)
         (lit "hello") kwargs []) = new /\
  Forall (fun r =>
            exists args,
              r = GenerationCall args /\
              gen_model args = lit "qwen-turbo" /\
              gen_api_key args = [] /\
              gen_prompt args = None /\
              gen_messages args <> None /\
              gen_result_format args = Some (lit "message"))
         new.
Proof.
  intros env kwargs new. split; [reflexivity|].
  exact (@X20_requests_of_completion env (Sample.completion true)
           (lit "hello") kwargs [] new eq_refl).
Defined.
